(** * SoundOfLife: the synthesis engine ([Source/Synthesis.cpp])

    A shallow embedding of [Synthesis] and of the parts of its
    collaborators it calls, followed by the properties of the
    specification that can be stated over it.

    Numeric conventions.
    - C++ [int] is modelled by [Z]; the integer division [/] of C++
      truncates towards zero and is [Z.quot]; a division or a remainder
      by zero is a trap, modelled by [None] in the [option] monad.
      Values are assumed to stay inside the range of [int].
    - C++ [float] (and the [double] intermediate of [getOscillatorPan])
      is modelled by [float] below: a finite value carries an exact
      rational, every non-finite value (NaN, infinities) is collapsed into
      [NaN].  Rounding is idealised away: a finite operation returns the
      exact rational result.  Every comparison with [NaN] is false, as in
      IEEE 754.
    - Where the rounding of single precision decides a property, module
      [Binary32] replays the code with it: the operations of IEEE 754
      binary32 and binary64 as the Standard Library's [SpecFloat] gives
      them. *)

From Stdlib Require Import ZArith QArith Qround Qreduction Qabs List Bool Lia Lqa.
From Stdlib Require SpecFloat.
Import ListNotations.

Local Open Scope Z_scope.

(** ** Idealised floating point *)

Inductive float : Type :=
| Finite (q : Q)
| NaN.

Definition fin (q : Q) : float := Finite (Qred q).

(** [(float) z] *)
Definition Z2F (z : Z) : float := Finite (inject_Z z).

(** [(int) x]: truncation towards zero (undefined on NaN in C++; the
    callers below only convert values that come from an [int]). *)
Definition F2Z (x : float) : Z :=
  match x with
  | Finite q => Z.quot (Qnum q) (Zpos (Qden q))
  | NaN => 0
  end.

Definition fadd (x y : float) : float :=
  match x, y with
  | Finite a, Finite b => fin (a + b)
  | _, _ => NaN
  end.

Definition fsub (x y : float) : float :=
  match x, y with
  | Finite a, Finite b => fin (a - b)
  | _, _ => NaN
  end.

Definition fmul (x y : float) : float :=
  match x, y with
  | Finite a, Finite b => fin (a * b)
  | _, _ => NaN
  end.

(** A zero divisor gives a non-finite result. *)
Definition fdiv (x y : float) : float :=
  match x, y with
  | Finite a, Finite b => if Qeq_bool b 0 then NaN else fin (a / b)
  | _, _ => NaN
  end.

Definition fgt (x y : float) : bool :=
  match x, y with
  | Finite a, Finite b => negb (Qle_bool a b)
  | _, _ => false
  end.

Definition flt (x y : float) : bool := fgt y x.

(** [x] is neither NaN nor infinite. *)
Definition isFinite (x : float) : Prop :=
  match x with Finite _ => True | NaN => False end.

(** [x] is finite and lies in the closed interval [[lo, hi]]. *)
Definition inRange (lo hi : Q) (x : float) : Prop :=
  match x with
  | Finite q => (lo <= q /\ q <= hi)%Q
  | NaN => False
  end.

(** [x] is finite and equal, as a number, to [q]. *)
Definition hasValue (x : float) (q : Q) : Prop :=
  match x with
  | Finite r => (r == q)%Q
  | NaN => False
  end.

(** ** Traps *)

Definition bind {A B : Type} (c : option A) (k : A -> option B) : option B :=
  match c with
  | Some a => k a
  | None => None
  end.

Notation "x <- c ;; k" := (bind c (fun x => k))
  (at level 61, c at next level, right associativity).
Notation "' pat <- c ;; k" := (bind c (fun x => match x with pat => k end))
  (at level 61, pat pattern, c at next level, right associativity).

(** [a / b] on [int] *)
Definition idiv (a b : Z) : option Z :=
  if b =? 0 then None else Some (Z.quot a b).

(** [a % b] on [int] *)
Definition imod (a b : Z) : option Z :=
  if b =? 0 then None else Some (Z.rem a b).

(** ** Loops *)

(** The values taken by [i] in [for (int i = lo; i < hi; ++i)]. *)
Definition intLoop (lo hi : Z) : list Z :=
  map (fun k => lo + Z.of_nat k) (seq 0 (Z.to_nat (hi - lo))).

(** The values taken by [column] in
    [for (int column = startColumn; column < endColumn; ++column)]
    where both bounds are [float]: the counter starts at the truncated
    lower bound and the test compares it, converted to [float], with the
    upper bound. *)
Definition floatLoop (startColumn endColumn : float) : list Z :=
  match endColumn with
  | Finite h => intLoop (F2Z startColumn) (Qceiling h)
  | NaN => []
  end.

(** [for] with an accumulator that may trap. *)
Fixpoint foldM {A S : Type} (body : S -> A -> option S) (l : list A) (s : S)
  : option S :=
  match l with
  | [] => Some s
  | a :: l' => s' <- body s a ;; foldM body l' s'
  end.

(** ** Configuration *)

(** Modelled from the spec: the namespace [Variables] of [Variables.h],
    which is not part of the sources at hand.  Only the constants read by
    [Synthesis.cpp] appear; their values are unknown, so every statement
    quantifies over them. *)
Record Variables : Type := mkVariables {
  numRows : Z;
  numColumns : Z;
  numOscillators : Z;
  numLFOs : Z;
  frequencyLFO : list float;
  startFrequency : float;
  inharmonicity : float;
  filterCutoff : float
}.

(** The same constants with other grid dimensions. *)
Definition withDimensions (V : Variables) (rows columns : Z) : Variables :=
  mkVariables rows columns (numOscillators V) (numLFOs V) (frequencyLFO V)
    (startFrequency V) (inharmonicity V) (filterCutoff V).

(** ** Cell and Grid *)

(** Modelled from the spec: [Cell] ([Cell.h], [Cell.cpp]): an alive flag
    and a fade level.  [updateFade] resets the fade to its maximum on a
    live cell and lets it decay otherwise; the decay step itself is not
    given by the spec and is a parameter. *)
Record Cell : Type := mkCell {
  isAlive : bool;
  getFade : float
}.

(** Modelled from the spec: [Cell::updateFade], "decay-towards-zero unless
    the cell is alive, in which case fade resets to its maximum". *)
Definition updateFade (decay : float -> float) (c : Cell) : Cell :=
  if isAlive c
  then mkCell true (Z2F 1)
  else mkCell false (decay (getFade c)).

(** Modelled from the spec: [Grid] ([Grid.h], [Grid.cpp]): a fixed
    [numRows] x [numColumns] collection of cells read through
    [getCell (row, column)]. *)
Definition Grid : Type := Z -> Z -> Cell.

(** Modelled from the spec: [Grid::getCell]. *)
Definition getCell (g : Grid) (row column : Z) : Cell := g row column.

(** Modelled from the spec: writing through the pointer that
    [Grid::getCell] returns. *)
Definition setCell (g : Grid) (row column : Z) (c : Cell) : Grid :=
  fun r k => if (r =? row) && (k =? column) then c else g r k.

(** ** Synthesis: helper methods *)

Section Helpers.

Variable V : Variables.

(** [oscillatorIndex * (numColumns / numOscillators)], stored in a
    [float]. *)
Definition startColumnOf (oscillatorIndex : Z) : option float :=
  width <- idiv (numColumns V) (numOscillators V) ;;
  Some (Z2F (oscillatorIndex * width)).

(** [startColumn + (numColumns / numOscillators)] *)
Definition endColumnOf (startColumn : float) : option float :=
  width <- idiv (numColumns V) (numOscillators V) ;;
  Some (fadd startColumn (Z2F width)).

Definition getOscillatorGain (grid : Grid) (oscillatorIndex : Z)
  : option float :=
  let gain := Z2F 0 in
  startColumn <- startColumnOf oscillatorIndex ;;
  endColumn <- endColumnOf startColumn ;;
  let gain :=
    fold_left
      (fun gain column =>
         fold_left
           (fun gain row => fadd gain (getFade (getCell grid row column)))
           (intLoop 0 (numRows V)) gain)
      (floatLoop startColumn endColumn) gain in
  Some (fdiv gain
          (fdiv (fmul (Z2F (numRows V)) (Z2F (numColumns V)))
                (Z2F (numOscillators V)))).

Definition getOscillatorPan (grid : Grid) (oscillatorIndex : Z)
  : option float :=
  let pan := Z2F 0 in
  startColumn <- startColumnOf oscillatorIndex ;;
  endColumn <- endColumnOf startColumn ;;
  let pan :=
    fold_left
      (fun pan column =>
         fold_left
           (fun pan row =>
              let cell := getCell grid row column in
              if row <? Z.quot (numRows V) 2
              then fadd pan (getFade cell)
              else fsub pan (getFade cell))
           (intLoop 0 (numRows V)) pan)
      (floatLoop startColumn endColumn) pan in
  let pan :=
    fdiv pan
      (fdiv (fmul (Z2F (numRows V)) (fsub endColumn startColumn))
            (Z2F 2)) in
  Some (if fgt pan (Z2F 1) then Z2F 1
        else if flt pan (Z2F (-1)) then Z2F (-1)
        else pan).

Definition getSpectralGainDecay (gain frequency : float) : float :=
  fmul (fmul gain (startFrequency V)) (fdiv (Z2F 1) frequency).

Definition updateFadeValues (decay : float -> float)
  (grid : Grid) (oscillatorIndex : Z) : option Grid :=
  startColumn <- startColumnOf oscillatorIndex ;;
  endColumn <- endColumnOf startColumn ;;
  Some
    (fold_left
       (fun grid column =>
          fold_left
            (fun grid row =>
               setCell grid row column
                 (updateFade decay (getCell grid row column)))
            (intLoop 0 (numRows V)) grid)
       (floatLoop startColumn endColumn) grid).

End Helpers.

(** ** Collaborators *)

(** [juce::IIRCoefficients::makeLowPass (sampleRate, frequency)]: the
    coefficients are kept symbolically, as the two arguments they were made
    from. *)
Record IIRCoefficients : Type := makeLowPass {
  lowPassSampleRate : float;
  lowPassFrequency : float
}.

(** [juce::Reverb::Parameters] with the defaults of its constructor. *)
Record ReverbParameters : Type := mkReverbParameters {
  roomSize : float;
  damping : float;
  wetLevel : float;
  dryLevel : float;
  width : float;
  freezeMode : float
}.

Definition defaultReverbParameters : ReverbParameters :=
  mkReverbParameters (Finite (1#2)) (Finite (1#2)) (Finite (33#100))
                     (Finite (4#10)) (Finite 1) (Finite 0).

(** What [Synthesis.cpp] calls but does not define: the waveform of
    [SineOscillator], the decay step of [Cell::updateFade], [std::tanhf],
    the sample processing of [juce::IIRFilter], of [Panner] and of
    [juce::Reverb], with the state each of them keeps between calls. *)
Class Collaborators : Type := {
  FilterState : Type;
  PannerState : Type;
  ReverbLines : Type;
  sine : float -> float;
  fadeDecay : float -> float;
  tanhf : float -> float;
  iirProcessSamples :
    IIRCoefficients -> FilterState -> list float -> FilterState * list float;
  pannerProcessBlock :
    PannerState -> list (list float) -> list float
    -> PannerState * list (list float);
  newFilterState : FilterState;
  newPanner : PannerState;
  clearedLines : ReverbLines;
  reverbProcessStereo :
    ReverbParameters -> ReverbLines -> list float -> list float
    -> ReverbLines * (list float * list float)
}.

(** ** Oscillator *)

(** Modelled from the spec: [Oscillator] / [SineOscillator]
    ([Oscillator.h], [Oscillator.cpp]).  The phase is counted in cycles:
    the phase increment is [frequency / sampleRate] and the phase wraps at
    one full cycle.  [setFrequency] does not recompute the increment. *)
Module Oscillator.

(** Modelled from the spec: the state of an [Oscillator], "current
    frequency, phase, phase increment, sample rate, block size". *)
Record t : Type := mk {
  frequency : float;
  phase : float;
  phaseDelta : float;
  sampleRate : float;
  blockSize : Z
}.

(** Modelled from the spec: the phase increment "for [frequency] at
    [sampleRate]", in cycles per sample. *)
Definition phaseDeltaFor (frequency sampleRate : float) : float :=
  fdiv frequency sampleRate.

(** Modelled from the spec: a freshly constructed [SineOscillator]; the
    spec does not give its initial values, taken as zero. *)
Definition new : t := mk (Z2F 0) (Z2F 0) (Z2F 0) (Z2F 0) 0.

(** Modelled from the spec: [Oscillator::prepareToPlay] "resets internal
    phase state and computes the phase increment for [frequency] at
    [sampleRate]". *)
Definition prepareToPlay (frequency sampleRate : float) (blockSize : Z)
  : t :=
  mk frequency (Z2F 0) (phaseDeltaFor frequency sampleRate)
     sampleRate blockSize.

(** Modelled from the spec: [Oscillator::setFrequency] "does not by itself
    recompute phase delta". *)
Definition setFrequency (f : float) (o : t) : t :=
  mk f (phase o) (phaseDelta o) (sampleRate o) (blockSize o).

(** Modelled from the spec: [Oscillator::getFrequency]. *)
Definition getFrequency (o : t) : float := frequency o.

(** Modelled from the spec: [Oscillator::updatePhaseDelta] "recomputes
    phase increment from current frequency and sample rate". *)
Definition updatePhaseDelta (o : t) : t :=
  mk (frequency o) (phase o)
     (phaseDeltaFor (frequency o) (sampleRate o))
     (sampleRate o) (blockSize o).

(** Modelled from the spec: "wrapping at one full cycle". *)
Definition wrap (p : float) : float :=
  if fgt p (Z2F 1) then fsub p (Z2F 1) else p.

(** Modelled from the spec: [Oscillator::processSample] "advances internal
    phase by the phase delta (wrapping at one full cycle) and returns the
    waveform value at the new phase". *)
Definition processSample `{Collaborators} (o : t) : t * float :=
  let p := wrap (fadd (phase o) (phaseDelta o)) in
  (mk (frequency o) p (phaseDelta o) (sampleRate o) (blockSize o),
   sine p).

End Oscillator.

(** ** Arrays and buffers *)

(** [array[i]] on a [juce::OwnedArray] or a C array: [None] stands for the
    null or out-of-range element, whose use traps. *)
Definition getAt {A : Type} (l : list A) (i : Z) : option A :=
  if i <? 0 then None else nth_error l (Z.to_nat i).

Fixpoint setNth {A : Type} (l : list A) (n : nat) (a : A) : list A :=
  match l, n with
  | [], _ => []
  | _ :: l', O => a :: l'
  | x :: l', S n' => x :: setNth l' n' a
  end.

(** Writing through the pointer [array[i]]. *)
Definition setAt {A : Type} (l : list A) (i : Z) (a : A) : list A :=
  if i <? 0 then l else setNth l (Z.to_nat i) a.

(** [juce::AudioBuffer<float>]: its channels, each [getNumSamples]
    long. *)
Record AudioBuffer : Type := mkAudioBuffer {
  getNumSamples : Z;
  channelData : list (list float)
}.

Definition getNumChannels (b : AudioBuffer) : Z :=
  Z.of_nat (length (channelData b)).

(** [setSize] followed by [clear]. *)
Definition clearedBuffer (numChannels numSamples : Z) : AudioBuffer :=
  mkAudioBuffer numSamples
    (repeat (repeat (Z2F 0) (Z.to_nat numSamples)) (Z.to_nat numChannels)).

(** [channel[i] += sample] *)
Definition addSample (i : Z) (sample : float) (channel : list float)
  : list float :=
  match getAt channel i with
  | Some x => setAt channel i (fadd x sample)
  | None => channel
  end.

Fixpoint addChannels (dest src : list float) : list float :=
  match dest, src with
  | d :: dest', s :: src' => fadd d s :: addChannels dest' src'
  | _, _ => dest
  end.

(** [dest.addFrom (channel, 0, src, channel, 0, n)] for every channel. *)
Fixpoint addFrom (dest src : list (list float)) : list (list float) :=
  match dest, src with
  | d :: dest', s :: src' => addChannels d s :: addFrom dest' src'
  | _, _ => dest
  end.

(** ** Synthesis: state *)

Section Engine.

Context `{X : Collaborators}.
Variable V : Variables.

Record IIRFilter : Type := mkIIRFilter {
  coefficients : option IIRCoefficients;
  filterState : FilterState
}.

Definition setCoefficients (c : IIRCoefficients) (f : IIRFilter)
  : IIRFilter :=
  mkIIRFilter (Some c) (filterState f).

(** [juce::IIRFilter::processSamples]: a filter without coefficients
    is inactive and passes the samples through. *)
Definition processSamples (f : IIRFilter) (samples : list float)
  : IIRFilter * list float :=
  match coefficients f with
  | Some c =>
      let '(s, out) := iirProcessSamples c (filterState f) samples in
      (mkIIRFilter (Some c) s, out)
  | None => (f, samples)
  end.

Record Reverb : Type := mkReverb {
  getParameters : ReverbParameters;
  reverbLines : ReverbLines
}.

Definition setParameters (p : ReverbParameters) (r : Reverb) : Reverb :=
  mkReverb p (reverbLines r).

(** [juce::Reverb::reset]: clears the comb and all-pass lines. *)
Definition reverbReset (r : Reverb) : Reverb :=
  mkReverb (getParameters r) clearedLines.

Definition processStereo (r : Reverb) (left right : list float)
  : Reverb * (list float * list float) :=
  let '(lines, out) :=
    reverbProcessStereo (getParameters r) (reverbLines r) left right in
  (mkReverb (getParameters r) lines, out).

Record Synthesis : Type := mkSynthesis {
  m_Grid : Grid;
  m_Oscillators : list Oscillator.t;
  m_LFOs : list Oscillator.t;
  m_FilterModulator : Oscillator.t;
  m_FilterLeft : IIRFilter;
  m_FilterRight : IIRFilter;
  m_Panner : PannerState;
  m_Reverb : Reverb;
  m_BlockSize : Z;
  m_SampleRate : float
}.

(** The constructor: [numOscillators] oscillators and [numLFOs] LFOs are
    added to the banks; the other members are default-constructed. *)
Definition construct (grid : Grid) : Synthesis :=
  mkSynthesis grid
    (repeat Oscillator.new (Z.to_nat (numOscillators V)))
    (repeat Oscillator.new (Z.to_nat (numLFOs V)))
    Oscillator.new
    (mkIIRFilter None newFilterState)
    (mkIIRFilter None newFilterState)
    newPanner
    (mkReverb defaultReverbParameters clearedLines)
    0 (Z2F 0).

(** The banks as the constructor allocates them. *)
Definition banksAllocated (s : Synthesis) : Prop :=
  Z.of_nat (length (m_Oscillators s)) = numOscillators V /\
  Z.of_nat (length (m_LFOs s)) = numLFOs V.

(** ** Synthesis: init *)

(** The first loop of [prepareToPlay]: one iteration. *)
Definition prepareOscillator (sampleRate : float) (blockSize : Z)
  (acc : list Oscillator.t * float) (i : Z)
  : option (list Oscillator.t * float) :=
  let '(oscillators, frequency) := acc in
  _ <- getAt oscillators i ;;
  let oscillators :=
    setAt oscillators i
      (Oscillator.prepareToPlay frequency sampleRate blockSize) in
  let frequency :=
    fadd frequency
      (fmul (fdiv frequency (fadd (Z2F i) (Z2F 1))) (inharmonicity V)) in
  Some (oscillators, frequency).

(** The second loop of [prepareToPlay]: one iteration.  The source reads
    [frequencyLFO[i]] unchecked; past the end of the table the read is
    undefined in C++ and has no result here, so that every statement
    about [prepareToPlay] asks for a table of at least [numLFOs]
    entries. *)
Definition prepareLFO (sampleRate : float) (blockSize : Z)
  (lfos : list Oscillator.t) (i : Z) : option (list Oscillator.t) :=
  _ <- getAt lfos i ;;
  f <- getAt (frequencyLFO V) i ;;
  Some (setAt lfos i (Oscillator.prepareToPlay f sampleRate blockSize)).

Definition prepareToPlay (s : Synthesis) (sampleRate : float)
  (blockSize : Z) : option Synthesis :=
  let frequency := startFrequency V in
  '(oscillators, _) <-
    foldM (prepareOscillator sampleRate blockSize)
          (intLoop 0 (numOscillators V)) (m_Oscillators s, frequency) ;;
  lfos <-
    foldM (prepareLFO sampleRate blockSize)
          (intLoop 0 (numLFOs V)) (m_LFOs s) ;;
  let filterModulator :=
    Oscillator.prepareToPlay (Finite (1#10)) sampleRate blockSize in
  let filterLeft :=
    setCoefficients (makeLowPass sampleRate (filterCutoff V))
                    (m_FilterLeft s) in
  let filterRight :=
    setCoefficients (makeLowPass sampleRate (filterCutoff V))
                    (m_FilterRight s) in
  let reverbParameters := defaultReverbParameters in
  let reverbParameters :=
    mkReverbParameters (Finite 1) (damping reverbParameters)
      (Finite (1#2)) (Finite (1#2))
      (width reverbParameters) (freezeMode reverbParameters) in
  Some (mkSynthesis (m_Grid s) oscillators lfos filterModulator
          filterLeft filterRight (m_Panner s)
          (reverbReset (m_Reverb s)) blockSize sampleRate).

(** ** Synthesis: DSP *)

Definition withOscillators (s : Synthesis) (l : list Oscillator.t)
  : Synthesis :=
  mkSynthesis (m_Grid s) l (m_LFOs s) (m_FilterModulator s)
    (m_FilterLeft s) (m_FilterRight s) (m_Panner s) (m_Reverb s)
    (m_BlockSize s) (m_SampleRate s).

Definition withLFOs (s : Synthesis) (l : list Oscillator.t) : Synthesis :=
  mkSynthesis (m_Grid s) (m_Oscillators s) l (m_FilterModulator s)
    (m_FilterLeft s) (m_FilterRight s) (m_Panner s) (m_Reverb s)
    (m_BlockSize s) (m_SampleRate s).

Definition withGrid (s : Synthesis) (g : Grid) : Synthesis :=
  mkSynthesis g (m_Oscillators s) (m_LFOs s) (m_FilterModulator s)
    (m_FilterLeft s) (m_FilterRight s) (m_Panner s) (m_Reverb s)
    (m_BlockSize s) (m_SampleRate s).

Definition withPanner (s : Synthesis) (p : PannerState) : Synthesis :=
  mkSynthesis (m_Grid s) (m_Oscillators s) (m_LFOs s)
    (m_FilterModulator s) (m_FilterLeft s) (m_FilterRight s) p
    (m_Reverb s) (m_BlockSize s) (m_SampleRate s).

(** [currentFrequency + ((currentFrequency / ((oscillatorIndex + 1) * 5))
    * modulator)] *)
Definition modulatedFrequencyOf (currentFrequency : float)
  (oscillatorIndex : Z) (modulator : float) : float :=
  fadd currentFrequency
    (fmul (fdiv currentFrequency (Z2F ((oscillatorIndex + 1) * 5)))
          modulator).

(** "Gain to be applied": [gain = getOscillatorGain (oscillatorIndex);
    gain *= getSpectralGainDecay (gain, frequency);] *)
Definition gainToApply (grid : Grid) (oscillatorIndex : Z)
  (frequency : float) : option float :=
  gain <- getOscillatorGain V grid oscillatorIndex ;;
  let gain := fmul gain (getSpectralGainDecay V gain frequency) in
  Some gain.

(** The body of the loop over the samples of one oscillator. *)
Definition processOscillatorSample (oscillatorIndex : Z)
  (acc : Synthesis * AudioBuffer * list float) (i : Z)
  : option (Synthesis * AudioBuffer * list float) :=
  let '(s, block, panValues) := acc in
  lfoIndex <- imod oscillatorIndex (numLFOs V) ;;
  lfo <- getAt (m_LFOs s) lfoIndex ;;
  let '(lfo, modulator) := Oscillator.processSample lfo in
  let s := withLFOs s (setAt (m_LFOs s) lfoIndex lfo) in
  oscillator <- getAt (m_Oscillators s) oscillatorIndex ;;
  let currentFrequency := Oscillator.getFrequency oscillator in
  let modulatedFrequency :=
    modulatedFrequencyOf currentFrequency oscillatorIndex modulator in
  let oscillator := Oscillator.setFrequency modulatedFrequency oscillator in
  let oscillator := Oscillator.updatePhaseDelta oscillator in
  let '(oscillator, sample) := Oscillator.processSample oscillator in
  gain <- gainToApply (m_Grid s) oscillatorIndex
            (Oscillator.getFrequency oscillator) ;;
  pan <- getOscillatorPan V (m_Grid s) oscillatorIndex ;;
  let panValues := panValues ++ [pan] in
  grid <- updateFadeValues V fadeDecay (m_Grid s) oscillatorIndex ;;
  let s := withGrid s grid in
  let sample := fmul sample gain in
  let block :=
    mkAudioBuffer (getNumSamples block)
      (map (addSample i sample) (channelData block)) in
  let oscillator := Oscillator.setFrequency currentFrequency oscillator in
  let s :=
    withOscillators s (setAt (m_Oscillators s) oscillatorIndex oscillator) in
  Some (s, block, panValues).

(** The body of the loop over the oscillators. *)
Definition processOscillator (blockSize : Z)
  (acc : Synthesis * AudioBuffer) (oscillatorIndex : Z)
  : option (Synthesis * AudioBuffer) :=
  let '(s, block) := acc in
  let panValues := [] in
  '(s, block, panValues) <-
    foldM (processOscillatorSample oscillatorIndex)
          (intLoop 0 blockSize) (s, block, panValues) ;;
  let '(panner, channels) :=
    pannerProcessBlock (m_Panner s) (channelData block) panValues in
  Some (withPanner s panner, mkAudioBuffer (getNumSamples block) channels).

(** [Variables::filterCutoff * (filterModulator + 1.001f) * 100.0f] *)
Definition modulatedCutoff (filterModulator : float) : float :=
  fmul (fmul (filterCutoff V) (fadd filterModulator (Finite (1001#1000))))
       (Z2F 100).

Definition distort (channel : list float) : list float :=
  map (fun x => tanhf (fmul x (Z2F 5))) channel.

Definition processBlock (s : Synthesis) (buffer : AudioBuffer)
  : option (Synthesis * AudioBuffer) :=
  let numChannels := getNumChannels buffer in
  let blockSize := getNumSamples buffer in
  let block := clearedBuffer numChannels blockSize in
  let buffer := clearedBuffer numChannels blockSize in
  '(s, block) <-
    foldM (processOscillator blockSize)
          (intLoop 0 (numOscillators V)) (s, block) ;;
  let channels := addFrom (channelData buffer) (channelData block) in
  leftChannel <- getAt channels 0 ;;
  rightChannel <- getAt channels 1 ;;
  let '(modulatorOscillator, filterModulator) :=
    Oscillator.processSample (m_FilterModulator s) in
  let filterLeft :=
    setCoefficients
      (makeLowPass (m_SampleRate s) (modulatedCutoff filterModulator))
      (m_FilterLeft s) in
  let filterRight :=
    setCoefficients
      (makeLowPass (m_SampleRate s) (modulatedCutoff filterModulator))
      (m_FilterRight s) in
  let '(filterLeft, leftChannel) := processSamples filterLeft leftChannel in
  let '(filterRight, rightChannel) :=
    processSamples filterRight rightChannel in
  let leftChannel := distort leftChannel in
  let rightChannel := distort rightChannel in
  let '(reverb, (leftChannel, rightChannel)) :=
    processStereo (m_Reverb s) leftChannel rightChannel in
  let reverb := reverbReset reverb in
  Some (mkSynthesis (m_Grid s) (m_Oscillators s) (m_LFOs s)
          modulatorOscillator filterLeft filterRight (m_Panner s)
          reverb (m_BlockSize s) (m_SampleRate s),
        mkAudioBuffer blockSize
          (setAt (setAt channels 0 leftChannel) 1 rightChannel)).

End Engine.

(** ** Reference sums *)

(** The numeric value of a fade (a non-finite fade counts for nothing:
    the statements below ask for finite fades). *)
Definition fadeValue (c : Cell) : Q :=
  match getFade c with
  | Finite q => q
  | NaN => 0
  end.

Fixpoint qsum {A : Type} (f : A -> Q) (l : list A) : Q :=
  match l with
  | [] => 0
  | a :: l' => f a + qsum f l'
  end.

(** The sum of the fades of the cells in the given rows and columns. *)
Definition fadeSum (grid : Grid) (rows columns : list Z) : Q :=
  qsum (fun column => qsum (fun row => fadeValue (getCell grid row column)) rows)
       columns.

(** The columns visited by the three helper methods for one oscillator. *)
Definition blockColumns (V : Variables) (oscillatorIndex : Z)
  : option (list Z) :=
  startColumn <- startColumnOf V oscillatorIndex ;;
  endColumn <- endColumnOf V startColumn ;;
  Some (floatLoop startColumn endColumn).

(** The frequency that follows [frequency] in the series, for the
    oscillator after the one of index [index]:
    [previousFrequency / (index + 1) * inharmonicity] is added. *)
Definition nextFrequency (V : Variables) (frequency : float) (index : Z)
  : float :=
  fadd frequency
    (fmul (fdiv frequency (fadd (Z2F index) (Z2F 1))) (inharmonicity V)).

(** The frequency reached [n] oscillators after index [index], starting
    from [frequency]. *)
Fixpoint frequencyFrom (V : Variables) (frequency : float) (index : Z)
  (n : nat) : float :=
  match n with
  | O => frequency
  | S n' => frequencyFrom V (nextFrequency V frequency index) (index + 1) n'
  end.

(** What the loops of [processBlock] leave alone: the reverb, the filters
    and their modulator, the recorded sample rate and block size, the
    sizes of the two banks and the frequency of every oscillator. *)
Definition loopFrame `{X : Collaborators} (s s' : Synthesis) : Prop :=
  m_Reverb s' = m_Reverb s
  /\ m_FilterModulator s' = m_FilterModulator s
  /\ m_FilterLeft s' = m_FilterLeft s
  /\ m_FilterRight s' = m_FilterRight s
  /\ m_SampleRate s' = m_SampleRate s
  /\ m_BlockSize s' = m_BlockSize s
  /\ length (m_Oscillators s') = length (m_Oscillators s)
  /\ length (m_LFOs s') = length (m_LFOs s)
  /\ map Oscillator.frequency (m_Oscillators s')
     = map Oscillator.frequency (m_Oscillators s).

(** The oscillator as one iteration of the sample loop leaves it, when
    the modulator sample drawn in that iteration is [modulator]. *)
Definition oscillatorAfterSample (o : Oscillator.t) (oscillatorIndex : Z)
  (modulator : float) : Oscillator.t :=
  let modulatedFrequency :=
    modulatedFrequencyOf (Oscillator.frequency o) oscillatorIndex modulator in
  let delta :=
    Oscillator.phaseDeltaFor modulatedFrequency (Oscillator.sampleRate o) in
  Oscillator.mk (Oscillator.frequency o)
    (Oscillator.wrap (fadd (Oscillator.phase o) delta))
    delta (Oscillator.sampleRate o) (Oscillator.blockSize o).

(** Column [column] is visited by the helper methods for the oscillator. *)
Definition visits (V : Variables) (oscillatorIndex column : Z) : Prop :=
  exists columns,
    blockColumns V oscillatorIndex = Some columns /\ In column columns.

(** Every cell of the grid has a finite fade in [[0, 1]]. *)
Definition fadesInUnit (V : Variables) (grid : Grid) : Prop :=
  forall row column,
    0 <= row < numRows V -> 0 <= column < numColumns V ->
    inRange 0 1 (getFade (getCell grid row column)).

(** Every cell of the column block of an oscillator has fade [q]. *)
Definition blockFadesAre (V : Variables) (grid : Grid) (oscillatorIndex : Z)
  (q : Q) : Prop :=
  forall row column,
    0 <= row < numRows V ->
    oscillatorIndex * Z.quot (numColumns V) (numOscillators V) <= column
      < (oscillatorIndex + 1) * Z.quot (numColumns V) (numOscillators V) ->
    hasValue (getFade (getCell grid row column)) q.

(** The range of cutoff frequencies [juce::IIRCoefficients::makeLowPass]
    accepts: above zero and at most half the sample rate. *)
Definition stableCutoff (sampleRate cutoff : float) : bool :=
  fgt cutoff (Z2F 0) && negb (fgt cutoff (fdiv sampleRate (Z2F 2))).

(** ** An executable instance *)

(** Bhaskara's rational approximation of the sine, for a phase in cycles:
    exact at 0, 1/12, 1/4, 5/12 and 1/2 of a cycle and at their mirror
    images in the second half of the cycle. *)
Definition bhaskara (p : Q) : Q :=
  (32 * p * (1 - 2 * p) / (5 - 8 * p * (1 - 2 * p)))%Q.

Definition referenceSine (phase : float) : float :=
  match phase with
  | Finite p =>
      if Qle_bool p (1#2) then fin (bhaskara p)
      else fin (- bhaskara (p - (1#2)))
  | NaN => NaN
  end.

(** Stand-ins that let the model run: a geometric fade decay, a rational
    soft clip, filters that pass their input through, a panner that only
    records the pan values it is given, and a reverb that only records
    what went through it.  The general statements do not depend on
    them. *)
Definition referenceCollaborators : Collaborators := {|
  FilterState := unit;
  PannerState := list float;
  ReverbLines := list float;
  sine := referenceSine;
  fadeDecay := fun x => fmul x (Finite (99#100));
  tanhf := fun x =>
             match x with
             | Finite q => fin (q / (1 + Qabs q))
             | NaN => NaN
             end;
  iirProcessSamples := fun _ st samples => (st, samples);
  pannerProcessBlock := fun _ block panValues => (panValues, block);
  newFilterState := tt;
  newPanner := [];
  clearedLines := [];
  reverbProcessStereo :=
    fun _ lines left right => (lines ++ left ++ right, (left, right))
|}.

(** A grid of dead cells, all half faded. *)
Definition halfFadedGrid : Grid :=
  fun _ _ => mkCell false (Finite (1#2)).

(** Two rows, four columns, two oscillators sharing one LFO. *)
Definition exampleVariables : Variables :=
  mkVariables 2 4 2 1 [Finite 5] (Finite 100) (Finite (1#2)) (Finite 1000).

(** More oscillators than columns. *)
Definition crowdedVariables : Variables :=
  mkVariables 2 2 4 1 [Finite 5] (Finite 100) (Finite (1#2)) (Finite 1000).

(** A stereo buffer of one sample. *)
Definition exampleBuffer : AudioBuffer :=
  mkAudioBuffer 1 [[Finite 0]; [Finite 0]].

(** The engine as constructed for each of the two configurations, over
    the half faded grid. *)
Definition exampleSynthesis : @Synthesis referenceCollaborators :=
  @construct referenceCollaborators exampleVariables halfFadedGrid.

Definition crowdedSynthesis : @Synthesis referenceCollaborators :=
  @construct referenceCollaborators crowdedVariables halfFadedGrid.

(** The first engine after [prepareToPlay (44100, 512)]. *)
Definition preparedSynthesis : @Synthesis referenceCollaborators :=
  match prepareToPlay exampleVariables exampleSynthesis (Finite 44100) 512 with
  | Some s => s
  | None => exampleSynthesis
  end.

(** ** Synthesis: setters and getters *)

Definition setBlockSize `{X : Collaborators} (blockSize : Z) (s : Synthesis)
  : Synthesis :=
  mkSynthesis (m_Grid s) (m_Oscillators s) (m_LFOs s) (m_FilterModulator s)
    (m_FilterLeft s) (m_FilterRight s) (m_Panner s) (m_Reverb s)
    blockSize (m_SampleRate s).

Definition setSampleRate `{X : Collaborators} (sampleRate : float)
  (s : Synthesis) : Synthesis :=
  mkSynthesis (m_Grid s) (m_Oscillators s) (m_LFOs s) (m_FilterModulator s)
    (m_FilterLeft s) (m_FilterRight s) (m_Panner s) (m_Reverb s)
    (m_BlockSize s) sampleRate.

Definition getBlockSize `{X : Collaborators} (s : Synthesis) : Z :=
  m_BlockSize s.

Definition getSampleRate `{X : Collaborators} (s : Synthesis) : float :=
  m_SampleRate s.

(** ** Plugin editor: paint *)








(** ** Further reference definitions *)

(** One sample drawn from an oscillator, keeping only the oscillator. *)
Definition advance `{X : Collaborators} (o : Oscillator.t) : Oscillator.t :=
  fst (Oscillator.processSample o).

(** The cell at (row, column) lies in the column block of the oscillator
    and in a row of the grid. *)
Definition inBlockb (V : Variables) (oscillatorIndex row column : Z) : bool :=
  ((0 <=? row) && (row <? numRows V))
  && ((oscillatorIndex * Z.quot (numColumns V) (numOscillators V) <=? column)
      && (column
          <? (oscillatorIndex + 1)
             * Z.quot (numColumns V) (numOscillators V))).

(** Every cell of the rows [lo .. hi - 1] of the column block of an
    oscillator has fade [q]. *)
Definition rowsFadesAre (V : Variables) (grid : Grid) (oscillatorIndex : Z)
  (lo hi : Z) (q : Q) : Prop :=
  forall row column,
    lo <= row < hi ->
    oscillatorIndex * Z.quot (numColumns V) (numOscillators V) <= column
      < (oscillatorIndex + 1) * Z.quot (numColumns V) (numOscillators V) ->
    hasValue (getFade (getCell grid row column)) q.

(** The fade decay keeps fades inside [[0, 1]]. *)
Definition decayKeepsUnit `{X : Collaborators} : Prop :=
  forall x, inRange 0 1 x -> inRange 0 1 (fadeDecay x).

(** The accumulation of [getOscillatorGain] over the columns [columns]:
    [gain += fade] from 0, column by column and row by row, in the
    program's own additions. *)
Definition gainAccumulated (V : Variables) (grid : Grid) (columns : list Z)
  : float :=
  fold_left
    (fun gain column =>
       fold_left
         (fun gain row => fadd gain (getFade (getCell grid row column)))
         (intLoop 0 (numRows V)) gain)
    columns (Z2F 0).

(** The accumulation of [getOscillatorPan] over the columns [columns]:
    [pan += fade] in the rows above [numRows / 2] and [pan -= fade] in the
    others, from 0, column by column and row by row. *)
Definition panAccumulated (V : Variables) (grid : Grid) (columns : list Z)
  : float :=
  fold_left
    (fun pan column =>
       fold_left
         (fun pan row =>
            let cell := getCell grid row column in
            if row <? Z.quot (numRows V) 2
            then fadd pan (getFade cell)
            else fsub pan (getFade cell))
         (intLoop 0 (numRows V)) pan)
    columns (Z2F 0).

(** The clamp that ends [getOscillatorPan]. *)
Definition clampPan (pan : float) : float :=
  if fgt pan (Z2F 1) then Z2F 1
  else if flt pan (Z2F (-1)) then Z2F (-1)
  else pan.

(** ** Further example data *)

(** The first configuration with an inharmonicity of 1. *)
Definition harmonicVariables : Variables :=
  mkVariables 2 4 2 1 [Finite 5] (Finite 100) (Finite 1) (Finite 1000).

(** Live cells in row 0, dead and fully faded cells below. *)
Definition topLitGrid : Grid :=
  fun row _ =>
    if row <? 1 then mkCell true (Finite 1) else mkCell false (Finite 0).

(** The mirror image: dead and fully faded cells in row 0, live cells
    below. *)
Definition bottomLitGrid : Grid :=
  fun row _ =>
    if row <? 1 then mkCell false (Finite 0) else mkCell true (Finite 1).

(** Every cell alive. *)
Definition fullGrid : Grid := fun _ _ => mkCell true (Finite 1).

(** The half faded grid with live cells from column 2 on. *)
Definition patchedGrid : Grid :=
  fun _ column =>
    if column <? 2 then mkCell false (Finite (1#2))
    else mkCell true (Finite 1).

(** A mono buffer of one sample. *)
Definition monoBuffer : AudioBuffer := mkAudioBuffer 1 [[Finite 0]].



(** Two rows, two columns, one oscillator. *)
Definition balancedVariables : Variables :=
  mkVariables 2 2 1 1 [Finite 5] (Finite 100) (Finite (1#2)) (Finite 1000).

(** A stereo buffer of two samples. *)
Definition twoSampleBuffer : AudioBuffer :=
  mkAudioBuffer 2 [[Finite 0; Finite 0]; [Finite 0; Finite 0]].

(** ** Single precision *)

(** [getOscillatorPan] once more, with the rounding of the source: [float]
    is IEEE 754 binary32 and [double] binary64, both as [spec_float], with
    the operations of [SpecFloat] at precision 24 and 53. *)
Module Binary32.

Import SpecFloat.

Definition float32 : Type := spec_float.
Definition double : Type := spec_float.

(** [(float) z] *)
Definition ofInt (z : Z) : float32 := binary_normalize 24 128 z 0 false.

(** [(double) z], for the literal [2.0] *)
Definition doubleOfInt (z : Z) : double := binary_normalize 53 1024 z 0 false.

Definition add : float32 -> float32 -> float32 := SFadd 24 128.
Definition sub : float32 -> float32 -> float32 := SFsub 24 128.
Definition mul : float32 -> float32 -> float32 := SFmul 24 128.
Definition div : float32 -> float32 -> float32 := SFdiv 24 128.

(** [(double) x]: every binary32 value is a binary64 value; the mantissa
    is brought to 53 digits, the form the operations on [double]
    expect. *)
Definition toDouble (x : float32) : double :=
  match x with
  | S754_finite s m e => binary_round 53 1024 s m e
  | _ => x
  end.

(** [(float) x] for a [double]: rounding to nearest, ties to even. *)
Definition ofDouble (x : double) : float32 :=
  match x with
  | S754_finite s m e => binary_round 24 128 s m e
  | _ => x
  end.

(** [x / y] on [double] *)
Definition ddiv : double -> double -> double := SFdiv 53 1024.

(** [x > y] and [x < y]: false when either side is NaN. *)
Definition gt (x y : spec_float) : bool := SFltb y x.
Definition lt (x y : spec_float) : bool := SFltb x y.

(** [(int) x]: truncation towards zero (undefined in C++ on NaN and on
    infinities). *)
Definition toInt (x : float32) : Z :=
  match x with
  | S754_finite s m e =>
      cond_Zopp s
        (if 0 <=? e then Z.shiftl (Zpos m) e else Z.shiftr (Zpos m) (- e))
  | _ => 0
  end.

(** The least integer that is not below [x]. *)
Definition ceiling (x : float32) : Z :=
  match x with
  | S754_finite s m e =>
      if 0 <=? e then cond_Zopp s (Z.shiftl (Zpos m) e)
      else - Z.shiftr (- cond_Zopp s (Zpos m)) (- e)
  | _ => 0
  end.

(** The values taken by [column] in
    [for (int column = startColumn; column < endColumn; ++column)]: from
    the truncated lower bound, as long as the counter is below the upper
    bound. *)
Definition floatLoop (startColumn endColumn : float32) : list Z :=
  intLoop (toInt startColumn) (ceiling endColumn).

(** The number a finite [spec_float] stands for. *)
Definition value (x : spec_float) : Q :=
  match x with
  | S754_finite s m e => inject_Z (cond_Zopp s (Zpos m)) * Qpower 2 e
  | _ => 0
  end.

(** Modelled from the spec: a [Cell], with its fade in single
    precision. *)
Record Cell : Type := mkCell {
  isAlive : bool;
  getFade : float32
}.

(** Modelled from the spec: the [Grid] and [Grid::getCell]. *)
Definition Grid : Type := Z -> Z -> Cell.

Definition getCell (g : Grid) (row column : Z) : Cell := g row column.

Definition getOscillatorPan (V : Variables) (grid : Grid)
  (oscillatorIndex : Z) : option float32 :=
  let pan := ofInt 0 in
  width <- idiv (numColumns V) (numOscillators V) ;;
  let startColumn := ofInt (oscillatorIndex * width) in
  width <- idiv (numColumns V) (numOscillators V) ;;
  let endColumn := add startColumn (ofInt width) in
  let pan :=
    fold_left
      (fun pan column =>
         fold_left
           (fun pan row =>
              let cell := getCell grid row column in
              if row <? Z.quot (numRows V) 2
              then add pan (getFade cell)
              else sub pan (getFade cell))
           (intLoop 0 (numRows V)) pan)
      (floatLoop startColumn endColumn) pan in
  let pan :=
    ofDouble
      (ddiv (toDouble pan)
            (ddiv (toDouble (mul (ofInt (numRows V))
                                 (sub endColumn startColumn)))
                  (doubleOfInt 2))) in
  Some (if gt (toDouble pan) (doubleOfInt 1) then ofDouble (doubleOfInt 1)
        else if lt (toDouble pan) (doubleOfInt (-1))
             then ofDouble (doubleOfInt (-1))
        else pan).

(** The single-precision numbers nearest to 0.1 and to 0.3. *)
Definition tenth : float32 := div (ofInt 1) (ofInt 10).
Definition threeTenths : float32 := div (ofInt 3) (ofInt 10).

(** Fades 0.1 and 0.3 in the top row, 0.3 and 0.1 in the bottom row. *)
Definition balancedGrid : Grid :=
  fun row column =>
    mkCell true (if row =? column then tenth else threeTenths).

End Binary32.

(** A single-precision grid with every fade as the exact number it stands
    for. *)
Definition idealised (g : Binary32.Grid) : Grid :=
  fun row column =>
    mkCell (Binary32.isAlive (g row column))
           (Finite (Qred (Binary32.value (Binary32.getFade (g row column))))).

(** ** Properties *)

Local Open Scope Q_scope.

Lemma Qred_eq (a b : Q) : a == b -> Qred a = Qred b.
Proof. apply Qred_complete. Qed.

Lemma qsum_app {A : Type} (f : A -> Q) (l1 l2 : list A) :
  qsum f (l1 ++ l2) == qsum f l1 + qsum f l2.
Proof.
  induction l1 as [|a l1 IH]; simpl.
  - ring.
  - rewrite IH. ring.
Qed.

Lemma qsum_ext_in {A : Type} (f g : A -> Q) (l : list A) :
  (forall a, In a l -> f a == g a) -> qsum f l == qsum g l.
Proof.
  induction l as [|a l IH]; intros H; simpl.
  - reflexivity.
  - rewrite (H a (or_introl eq_refl)), IH.
    + reflexivity.
    + intros b Hb. apply H. now right.
Qed.

Lemma qsum_bounds {A : Type} (f : A -> Q) (lo hi : Q) (l : list A) :
  (forall a, In a l -> lo <= f a <= hi) ->
  lo * inject_Z (Z.of_nat (length l)) <= qsum f l
  /\ qsum f l <= hi * inject_Z (Z.of_nat (length l)).
Proof.
  induction l as [|a l IH]; intros H.
  - cbn [length qsum Z.of_nat]. change (inject_Z 0) with 0. lra.
  - assert (Ha : lo <= f a <= hi) by (apply H; now left).
    assert (Hl : forall b, In b l -> lo <= f b <= hi)
      by (intros b Hb; apply H; now right).
    specialize (IH Hl).
    change (length (a :: l)) with (S (length l)).
    rewrite Nat2Z.inj_succ. unfold Z.succ. rewrite inject_Z_plus.
    simpl qsum. change (inject_Z 1) with 1. lra.
Qed.

(** *** Loops *)

Local Open Scope Z_scope.

Lemma intLoop_In (lo hi c : Z) : In c (intLoop lo hi) <-> lo <= c < hi.
Proof.
  unfold intLoop. rewrite in_map_iff. split.
  - intros (k & <- & Hk). apply in_seq in Hk. lia.
  - intros H. exists (Z.to_nat (c - lo)). split; [lia|].
    apply in_seq. lia.
Qed.

Lemma intLoop_length (lo hi : Z) :
  Z.of_nat (length (intLoop lo hi)) = Z.max 0 (hi - lo).
Proof. unfold intLoop. rewrite length_map, length_seq. lia. Qed.

Lemma intLoop_nil (lo hi : Z) : hi <= lo -> intLoop lo hi = [].
Proof.
  intros H. unfold intLoop.
  replace (Z.to_nat (hi - lo)) with 0%nat by lia. reflexivity.
Qed.

Lemma intLoop_cons (lo hi : Z) :
  lo < hi -> intLoop lo hi = lo :: intLoop (lo + 1) hi.
Proof.
  intros H. unfold intLoop.
  replace (Z.to_nat (hi - lo)) with (S (Z.to_nat (hi - (lo + 1)))) by lia.
  simpl. rewrite Z.add_0_r. f_equal.
  rewrite <- seq_shift, map_map. apply map_ext. intros k. lia.
Qed.

Lemma intLoop_split (lo mid hi : Z) :
  lo <= mid <= hi -> intLoop lo hi = intLoop lo mid ++ intLoop mid hi.
Proof.
  intros H. remember (Z.to_nat (mid - lo)) as n eqn:Hn.
  revert lo Hn H. induction n as [|n IH]; intros lo Hn H.
  - assert (lo = mid) as -> by lia.
    now rewrite (intLoop_nil mid mid) by lia.
  - rewrite (intLoop_cons lo hi), (intLoop_cons lo mid) by lia.
    simpl. f_equal. apply IH; lia.
Qed.

Lemma F2Z_Z2F (z : Z) : F2Z (Z2F z) = z.
Proof. simpl. apply Z.quot_1_r. Qed.

Lemma Qred_inject_Z (z : Z) : Qred (inject_Z z) = inject_Z z.
Proof.
  unfold Qred, inject_Z.
  generalize (Z.ggcd_gcd z 1) (Z.ggcd_correct_divisors z 1).
  destruct (Z.ggcd z 1) as (g, (aa, bb)). simpl.
  rewrite Z.gcd_1_r. intros -> (Ha & Hb).
  rewrite Z.mul_1_l in Ha, Hb. now subst.
Qed.

Lemma fin_inject_Z (q : Q) (z : Z) : (q == inject_Z z)%Q -> fin q = Z2F z.
Proof.
  intros H. unfold fin, Z2F. f_equal.
  rewrite <- (Qred_inject_Z z). now apply Qred_eq.
Qed.

Lemma fadd_Z2F (a b : Z) : fadd (Z2F a) (Z2F b) = Z2F (a + b).
Proof. simpl. apply fin_inject_Z. now rewrite inject_Z_plus. Qed.

Lemma fsub_Z2F (a b : Z) : fsub (Z2F a) (Z2F b) = Z2F (a - b).
Proof.
  simpl. apply fin_inject_Z. unfold Z.sub.
  now rewrite inject_Z_plus, inject_Z_opp.
Qed.

Lemma fmul_Z2F (a b : Z) : fmul (Z2F a) (Z2F b) = Z2F (a * b).
Proof. simpl. apply fin_inject_Z. now rewrite inject_Z_mult. Qed.

Lemma floatLoop_Z2F (a b : Z) : floatLoop (Z2F a) (Z2F b) = intLoop a b.
Proof.
  unfold floatLoop. change (Z2F b) with (Finite (inject_Z b)).
  cbv iota beta. now rewrite F2Z_Z2F, Qceiling_Z.
Qed.

(** *** The column block of an oscillator *)

Section ColumnBlock.

Variable V : Variables.
Hypothesis oscillators_pos : 0 < numOscillators V.

Local Abbreviation blockWidth := (Z.quot (numColumns V) (numOscillators V)).

Lemma idiv_width :
  idiv (numColumns V) (numOscillators V) = Some blockWidth.
Proof.
  unfold idiv. destruct (Z.eqb_spec (numOscillators V) 0); [lia|reflexivity].
Qed.

Lemma startColumnOf_eq (i : Z) :
  startColumnOf V i = Some (Z2F (i * blockWidth)).
Proof. unfold startColumnOf. now rewrite idiv_width. Qed.

Lemma endColumnOf_eq (a : Z) :
  endColumnOf V (Z2F a) = Some (Z2F (a + blockWidth)).
Proof. unfold endColumnOf. rewrite idiv_width. unfold bind. now rewrite fadd_Z2F. Qed.

Lemma blockColumns_eq (i : Z) :
  blockColumns V i = Some (intLoop (i * blockWidth) ((i + 1) * blockWidth)).
Proof.
  unfold blockColumns. rewrite startColumnOf_eq. unfold bind.
  rewrite endColumnOf_eq. unfold bind. rewrite floatLoop_Z2F.
  do 2 f_equal. lia.
Qed.

End ColumnBlock.

(** *** Accumulating loops *)

Local Open Scope Q_scope.

Lemma fold_finite {A : Type} (body : float -> A -> float) (w : A -> Q)
  (l : list A) :
  (forall a q, In a l -> exists q', body (Finite q) a = Finite q' /\ q' == q + w a) ->
  forall q0, exists s,
    fold_left body l (Finite q0) = Finite s /\ s == q0 + qsum w l.
Proof.
  induction l as [|a l IH]; intros H q0.
  - exists q0. split; [reflexivity|]. simpl. ring.
  - destruct (H a q0 (or_introl eq_refl)) as (q1 & E1 & V1).
    destruct (IH (fun b q Hb => H b q (or_intror Hb)) q1) as (s & E & Vs).
    exists s. split.
    + simpl. now rewrite E1.
    + rewrite Vs, V1. simpl. ring.
Qed.

Lemma fadd_finite (q : Q) (x : float) :
  isFinite x ->
  exists q', fadd (Finite q) x = Finite q' /\
             q' == q + match x with Finite r => r | NaN => 0 end.
Proof.
  destruct x as [r|]; [intros _|intros []].
  exists (Qred (q + r)). split; [reflexivity|apply Qred_correct].
Qed.

Lemma fsub_finite (q : Q) (x : float) :
  isFinite x ->
  exists q', fsub (Finite q) x = Finite q' /\
             q' == q + - match x with Finite r => r | NaN => 0 end.
Proof.
  destruct x as [r|]; [intros _|intros []].
  exists (Qred (q - r)). split; [reflexivity|]. rewrite Qred_correct. ring.
Qed.

Lemma fdiv_finite (a b : Q) :
  ~ b == 0 -> fdiv (Finite a) (Finite b) = fin (a / b).
Proof.
  intros H. simpl. destruct (Qeq_bool b 0) eqn:E; [|reflexivity].
  apply Qeq_bool_eq in E. contradiction.
Qed.

Lemma inRange_finite (lo hi : Q) (x : float) : inRange lo hi x -> isFinite x.
Proof. destruct x; simpl; tauto. Qed.

Lemma fdiv_Z2F (a b : Z) :
  b <> 0%Z ->
  exists d, fdiv (Z2F a) (Z2F b) = Finite d /\ d == inject_Z a / inject_Z b.
Proof.
  intros Hb. unfold Z2F. rewrite fdiv_finite.
  - eexists. split; [reflexivity|]. apply Qred_correct.
  - intros E. apply Hb. change 0 with (inject_Z 0) in E.
    now apply inject_Z_injective.
Qed.

(** The double loop of [getOscillatorGain] computes the sum of the fades
    of the block. *)
Lemma gain_loop (grid : Grid) (rows columns : list Z) (q0 : Q) :
  (forall row column, In row rows -> In column columns ->
     isFinite (getFade (getCell grid row column))) ->
  exists s,
    fold_left
      (fun gain column =>
         fold_left
           (fun gain row => fadd gain (getFade (getCell grid row column)))
           rows gain)
      columns (Finite q0) = Finite s
    /\ s == q0 + fadeSum grid rows columns.
Proof.
  intros Hfin. unfold fadeSum.
  apply (fold_finite _ (fun column =>
           qsum (fun row => fadeValue (getCell grid row column)) rows)).
  intros column q Hc.
  apply (fold_finite _ (fun row => fadeValue (getCell grid row column))).
  intros row q1 Hr. unfold fadeValue.
  apply fadd_finite. now apply Hfin.
Qed.

(** The double loop of [getOscillatorPan] adds the fades of the rows above
    [half] and subtracts the others. *)
Lemma pan_loop (grid : Grid) (half : Z) (rows columns : list Z) (q0 : Q) :
  (forall row column, In row rows -> In column columns ->
     isFinite (getFade (getCell grid row column))) ->
  exists s,
    fold_left
      (fun pan column =>
         fold_left
           (fun pan row =>
              let cell := getCell grid row column in
              if (row <? half)%Z
              then fadd pan (getFade cell)
              else fsub pan (getFade cell))
           rows pan)
      columns (Finite q0) = Finite s
    /\ s == q0 + qsum (fun column =>
                   qsum (fun row =>
                           if (row <? half)%Z
                           then fadeValue (getCell grid row column)
                           else - fadeValue (getCell grid row column))
                        rows)
                 columns.
Proof.
  intros Hfin.
  apply (fold_finite _ (fun column =>
           qsum (fun row =>
                   if (row <? half)%Z
                   then fadeValue (getCell grid row column)
                   else - fadeValue (getCell grid row column)) rows)).
  intros column q Hc.
  apply (fold_finite _ (fun row =>
           if (row <? half)%Z
           then fadeValue (getCell grid row column)
           else - fadeValue (getCell grid row column))).
  intros row q1 Hr. cbv zeta. unfold fadeValue.
  destruct (row <? half)%Z.
  - apply fadd_finite. now apply Hfin.
  - apply fsub_finite. now apply Hfin.
Qed.

Lemma qsum_opp {A : Type} (f : A -> Q) (l : list A) :
  qsum (fun a => - f a) l == - qsum f l.
Proof.
  induction l as [|a l IH]; simpl.
  - ring.
  - rewrite IH. ring.
Qed.

Lemma qsum_plus {A : Type} (f g : A -> Q) (l : list A) :
  qsum (fun a => f a + g a) l == qsum f l + qsum g l.
Proof.
  induction l as [|a l IH]; simpl.
  - ring.
  - rewrite IH. ring.
Qed.

(** The signed sum is the sum over the top rows minus the sum over the
    bottom rows. *)
Lemma signed_sum_split (grid : Grid) (half rowCount : Z) (columns : list Z) :
  (0 <= half <= rowCount)%Z ->
  qsum (fun column =>
          qsum (fun row =>
                  if (row <? half)%Z
                  then fadeValue (getCell grid row column)
                  else - fadeValue (getCell grid row column))
               (intLoop 0 rowCount))
       columns
  == fadeSum grid (intLoop 0 half) columns
     - fadeSum grid (intLoop half rowCount) columns.
Proof.
  intros H. unfold fadeSum, Qminus. rewrite <- qsum_opp, <- qsum_plus.
  apply qsum_ext_in. intros column _.
  rewrite (intLoop_split 0 half rowCount H), qsum_app.
  rewrite <- qsum_opp.
  apply Qplus_comp; apply qsum_ext_in; intros row Hr;
    apply intLoop_In in Hr.
  - destruct (Z.ltb_spec row half); [reflexivity|lia].
  - destruct (Z.ltb_spec row half); [lia|reflexivity].
Qed.

(** Sums of equal terms. *)
Lemma qsum_const {A : Type} (f : A -> Q) (q : Q) (l : list A) :
  (forall a, In a l -> (f a == q)%Q) ->
  (qsum f l == q * inject_Z (Z.of_nat (length l)))%Q.
Proof.
  induction l as [|a l IH]; intros H.
  - cbn [qsum length Z.of_nat]. change (inject_Z 0) with 0%Q. ring.
  - cbn [qsum]. rewrite (H a (or_introl eq_refl)), IH
      by (intros b Hb; apply H; now right).
    change (length (a :: l)) with (S (length l)).
    rewrite Nat2Z.inj_succ. unfold Z.succ. rewrite inject_Z_plus.
    change (inject_Z 1) with 1%Q. ring.
Qed.

Lemma fadeSum_const (grid : Grid) (rows columns : list Z) (q : Q) :
  (forall row column, In row rows -> In column columns ->
     hasValue (getFade (getCell grid row column)) q) ->
  (fadeSum grid rows columns
   == q * inject_Z (Z.of_nat (length rows))
        * inject_Z (Z.of_nat (length columns)))%Q.
Proof.
  intros H. unfold fadeSum.
  rewrite (qsum_const _ (q * inject_Z (Z.of_nat (length rows)))%Q).
  - reflexivity.
  - intros column Hc. apply qsum_const. intros row Hr.
    generalize (H row column Hr Hc). unfold fadeValue.
    destruct (getFade (getCell grid row column)); cbn [hasValue]; tauto.
Qed.

(** *** Gain and pan of an oscillator *)

Section GainAndPan.

Variable V : Variables.
Variable grid : Grid.
Variable i : Z.
Hypothesis rows_pos : (0 < numRows V)%Z.
Hypothesis columns_pos : (0 < numColumns V)%Z.
Hypothesis index_in_range : (0 <= i < numOscillators V)%Z.
Hypothesis fades_in_unit : fadesInUnit V grid.

Local Abbreviation blockWidth := (Z.quot (numColumns V) (numOscillators V)).
Local Abbreviation rows := (intLoop 0 (numRows V)).
Local Abbreviation columns :=
  (intLoop (i * blockWidth) ((i + 1) * blockWidth)).

Lemma blockWidth_bounds :
  (0 <= blockWidth /\ numOscillators V * blockWidth <= numColumns V)%Z.
Proof.
  split.
  - apply Z.quot_pos; lia.
  - apply Z.mul_quot_le; lia.
Qed.

Lemma block_in_grid (column : Z) :
  In column columns -> (0 <= column < numColumns V)%Z.
Proof.
  rewrite intLoop_In. pose proof blockWidth_bounds. nia.
Qed.

Lemma block_fades_unit (row column : Z) :
  In row rows -> In column columns ->
  0 <= fadeValue (getCell grid row column) <= 1.
Proof.
  intros Hr Hc. apply intLoop_In in Hr. apply block_in_grid in Hc.
  generalize (fades_in_unit row column ltac:(lia) Hc).
  unfold fadeValue. destruct (getFade (getCell grid row column)); simpl; tauto.
Qed.

Lemma block_fades_finite (row column : Z) :
  In row rows -> In column columns ->
  isFinite (getFade (getCell grid row column)).
Proof.
  intros Hr Hc. apply intLoop_In in Hr. apply block_in_grid in Hc.
  apply (inRange_finite 0 1). apply fades_in_unit; lia.
Qed.

Lemma block_cell_count :
  inject_Z (Z.of_nat (length rows)) * inject_Z (Z.of_nat (length columns))
  == inject_Z (numRows V * blockWidth).
Proof.
  rewrite !intLoop_length, <- inject_Z_mult.
  pose proof blockWidth_bounds.
  replace (Z.max 0 (numRows V - 0)) with (numRows V) by lia.
  replace (Z.max 0 ((i + 1) * blockWidth - i * blockWidth))
    with blockWidth by lia.
  reflexivity.
Qed.

Lemma block_sum_bounds (rs : list Z) :
  (forall row, In row rs -> In row rows) ->
  0 <= fadeSum grid rs columns
  /\ fadeSum grid rs columns
     <= inject_Z (Z.of_nat (length rs)) * inject_Z (Z.of_nat (length columns)).
Proof.
  intros Hrs. unfold fadeSum.
  destruct (qsum_bounds
              (fun column =>
                 qsum (fun row => fadeValue (getCell grid row column)) rs)
              0 (inject_Z (Z.of_nat (length rs))) columns) as (Hlo & Hhi).
  - intros column Hc.
    destruct (qsum_bounds
                (fun row => fadeValue (getCell grid row column)) 0 1 rs)
      as (Hlo & Hhi).
    + intros row Hr. apply block_fades_unit; auto.
    + lra.
  - split; lra.
Qed.


Lemma getOscillatorGain_eq :
  getOscillatorGain V grid i
  = Some (fdiv
            (fold_left
               (fun gain column =>
                  fold_left
                    (fun gain row =>
                       fadd gain (getFade (getCell grid row column)))
                    rows gain)
               columns (Z2F 0))
            (fdiv (fmul (Z2F (numRows V)) (Z2F (numColumns V)))
                  (Z2F (numOscillators V)))).
Proof.
  unfold getOscillatorGain.
  rewrite startColumnOf_eq by lia. unfold bind.
  rewrite endColumnOf_eq by lia. rewrite floatLoop_Z2F.
  replace (i * (numColumns V ÷ numOscillators V)
           + numColumns V ÷ numOscillators V)%Z
    with ((i + 1) * (numColumns V ÷ numOscillators V))%Z by lia.
  reflexivity.
Qed.

Lemma getOscillatorPan_eq :
  getOscillatorPan V grid i
  = let pan :=
      fdiv
        (fold_left
           (fun pan column =>
              fold_left
                (fun pan row =>
                   let cell := getCell grid row column in
                   if (row <? Z.quot (numRows V) 2)%Z
                   then fadd pan (getFade cell)
                   else fsub pan (getFade cell))
                rows pan)
           columns (Z2F 0))
        (fdiv (Z2F (numRows V * blockWidth)) (Z2F 2)) in
    Some (if fgt pan (Z2F 1) then Z2F 1
          else if flt pan (Z2F (-1)) then Z2F (-1)
          else pan).
Proof.
  unfold getOscillatorPan.
  rewrite startColumnOf_eq by lia. unfold bind.
  rewrite endColumnOf_eq by lia. rewrite floatLoop_Z2F.
  rewrite fsub_Z2F, fmul_Z2F.
  replace (i * (numColumns V ÷ numOscillators V)
           + numColumns V ÷ numOscillators V)%Z
    with ((i + 1) * (numColumns V ÷ numOscillators V))%Z by lia.
  replace ((i + 1) * (numColumns V ÷ numOscillators V)
           - i * (numColumns V ÷ numOscillators V))%Z
    with (numColumns V ÷ numOscillators V)%Z by lia.
  reflexivity.
Qed.

End GainAndPan.

Lemma exact_division (V : Variables) :
  (0 < numOscillators V)%Z ->
  (numOscillators V | numColumns V)%Z ->
  (numOscillators V * Z.quot (numColumns V) (numOscillators V)
   = numColumns V)%Z.
Proof.
  intros HO (k & Hk). rewrite Hk, Z.quot_mul by lia. lia.
Qed.

(** The value [getOscillatorGain] returns: the quotient of the sum of the
    fades of the block by [numRows * numColumns / numOscillators]. *)
Lemma getOscillatorGain_value (V : Variables) (grid : Grid) (i : Z) :
  (0 < numRows V)%Z ->
  (0 < numColumns V)%Z ->
  (0 <= i < numOscillators V)%Z ->
  fadesInUnit V grid ->
  let blockWidth := Z.quot (numColumns V) (numOscillators V) in
  exists s d,
    getOscillatorGain V grid i = Some (fin (s / d))
    /\ s == fadeSum grid (intLoop 0 (numRows V))
                    (intLoop (i * blockWidth) ((i + 1) * blockWidth))
    /\ d == inject_Z (numRows V * numColumns V)
            / inject_Z (numOscillators V)
    /\ 0 < d.
Proof.
  intros HR HC Hi Hfades w.
  set (rows := intLoop 0 (numRows V)).
  set (columns := intLoop (i * w) ((i + 1) * w)).
  rewrite (getOscillatorGain_eq V grid i Hi).
  destruct (gain_loop grid rows columns 0) as (s & Es & Vs).
  { intros row column Hr Hc.
    now apply (block_fades_finite V grid i HC Hi Hfades). }
  change (Z2F 0) with (Finite 0) at 1. fold w rows columns. rewrite Es.
  rewrite fmul_Z2F.
  destruct (fdiv_Z2F (numRows V * numColumns V) (numOscillators V))
    as (d & Ed & Vd); [lia|]. rewrite Ed.
  rewrite Qplus_0_l in Vs.
  assert (HO : 0 < inject_Z (numOscillators V)).
  { change 0 with (inject_Z 0). rewrite <- Zlt_Qlt. lia. }
  assert (Hd : 0 < d).
  { rewrite Vd. apply Qlt_shift_div_l; [exact HO|].
    rewrite Qmult_0_l. change 0 with (inject_Z 0). rewrite <- Zlt_Qlt. nia. }
  assert (Hd0 : ~ d == 0) by lra.
  rewrite (fdiv_finite s d Hd0).
  exists s, d. repeat split; assumption.
Qed.


Lemma fgt_false (a : Q) (z : Z) :
  fgt (Finite a) (Z2F z) = false -> a <= inject_Z z.
Proof.
  simpl. intros H. apply negb_false_iff in H. now apply Qle_bool_iff.
Qed.

Lemma flt_false (a : Q) (z : Z) :
  flt (Finite a) (Z2F z) = false -> inject_Z z <= a.
Proof.
  unfold flt. simpl. intros H. apply negb_false_iff in H.
  now apply Qle_bool_iff.
Qed.

(** The value [getOscillatorPan] clamps: the quotient of the top sum
    minus the bottom sum by half the number of cells of the block. *)
Lemma getOscillatorPan_value (V : Variables) (grid : Grid) (i : Z) :
  (0 < numRows V)%Z ->
  (0 <= i < numOscillators V)%Z ->
  (numOscillators V <= numColumns V)%Z ->
  fadesInUnit V grid ->
  let blockWidth := Z.quot (numColumns V) (numOscillators V) in
  let columns := intLoop (i * blockWidth) ((i + 1) * blockWidth) in
  let half := Z.quot (numRows V) 2 in
  exists s d,
    getOscillatorPan V grid i
    = Some (if fgt (fin (s / d)) (Z2F 1) then Z2F 1
            else if flt (fin (s / d)) (Z2F (-1)) then Z2F (-1)
            else fin (s / d))
    /\ s == fadeSum grid (intLoop 0 half) columns
            - fadeSum grid (intLoop half (numRows V)) columns
    /\ 0 < d.
Proof.
  intros HR Hi HOC Hfades w columns half.
  assert (HC : (0 < numColumns V)%Z) by lia.
  set (rows := intLoop 0 (numRows V)).
  rewrite (getOscillatorPan_eq V grid i Hi).
  destruct (pan_loop grid half rows columns 0) as (s & Es & Vs).
  { intros row column Hr Hc.
    now apply (block_fades_finite V grid i HC Hi Hfades). }
  change (Z2F 0) with (Finite 0) at 1. fold w. fold rows columns half.
  rewrite Es.
  destruct (fdiv_Z2F (numRows V * w) 2) as (d & Ed & Vd); [lia|].
  rewrite Ed.
  assert (Hw : (0 < w)%Z) by (apply Z.quot_str_pos; lia).
  assert (Hd : 0 < d).
  { rewrite Vd. apply Qlt_shift_div_l; [reflexivity|].
    rewrite Qmult_0_l. change 0 with (inject_Z 0). rewrite <- Zlt_Qlt. nia. }
  assert (Hd0 : ~ d == 0) by lra.
  rewrite (fdiv_finite s d Hd0). cbv zeta.
  exists s, d. split; [reflexivity|]. split; [|exact Hd].
  assert (Hhalf : (0 <= half <= numRows V)%Z).
  { unfold half. split.
    - apply Z.quot_pos; lia.
    - apply Z.quot_le_upper_bound; lia. }
  pose proof (signed_sum_split grid half (numRows V) columns Hhalf)
    as Hsplit.
  fold rows in Hsplit. rewrite Vs, Hsplit. ring.
Qed.

(** C5, as the code has it.  For a grid whose fades all lie in [[0, 1]],
    with at least one row and at least one column per oscillator,
    [getOscillatorPan] returns a finite value in [[-1, 1]]: the clamp of
    what its loop accumulates, fade by fade, divided by half the number
    of cells of the block.  It is exactly 0 when every fade of the block
    is 0.  Equal sums over the top and the bottom half do not make it 0:
    the fades are added and subtracted one at a time, and what their
    rounding leaves is divided and returned.  The bounds do not rest on
    exact arithmetic: in single precision the clamp leaves no result above
    1 or below -1, whatever the grid. *)
Theorem getOscillatorPan_clamped (V : Variables) (grid : Grid) (i : Z) :
  (0 < numRows V)%Z ->
  (0 <= i < numOscillators V)%Z ->
  (numOscillators V <= numColumns V)%Z ->
  fadesInUnit V grid ->
  let blockWidth := Z.quot (numColumns V) (numOscillators V) in
  let columns := intLoop (i * blockWidth) ((i + 1) * blockWidth) in
  exists pan,
    getOscillatorPan V grid i = Some pan
    /\ pan = clampPan (fdiv (panAccumulated V grid columns)
                            (fdiv (Z2F (numRows V * blockWidth)) (Z2F 2)))
    /\ inRange (-1) 1 pan
    /\ (blockFadesAre V grid i 0 -> pan = Z2F 0)
    /\ (forall (grid32 : Binary32.Grid) (pan32 : Binary32.float32),
          Binary32.getOscillatorPan V grid32 i = Some pan32 ->
          Binary32.gt (Binary32.toDouble pan32) (Binary32.doubleOfInt 1)
          = false
          /\ Binary32.lt (Binary32.toDouble pan32)
                         (Binary32.doubleOfInt (-1))
             = false).
Proof.
  intros HR Hi HOC Hfades w columns.
  destruct (getOscillatorPan_value V grid i HR Hi HOC Hfades)
    as (s & d & E & Vs & Hd).
  fold w in Vs. fold columns in Vs.
  assert (Eown : getOscillatorPan V grid i
                 = Some (clampPan
                           (fdiv (panAccumulated V grid columns)
                                 (fdiv (Z2F (numRows V * w)) (Z2F 2)))))
    by exact (getOscillatorPan_eq V grid i Hi).
  set (pan := clampPan (fdiv (panAccumulated V grid columns)
                              (fdiv (Z2F (numRows V * w)) (Z2F 2))))
    in Eown |- *.
  assert (Epan : pan = if fgt (fin (s / d)) (Z2F 1) then Z2F 1
                       else if flt (fin (s / d)) (Z2F (-1)) then Z2F (-1)
                       else fin (s / d)) by congruence.
  exists pan. split; [exact Eown|]. split; [reflexivity|].
  rewrite Epan. split; [|split].
  - destruct (fgt (fin (s / d)) (Z2F 1)) eqn:E1.
    + split; unfold Qle; simpl; lia.
    + destruct (flt (fin (s / d)) (Z2F (-1))) eqn:E2.
      * split; unfold Qle; simpl; lia.
      * apply fgt_false in E1. apply flt_false in E2.
        unfold fin, inRange. split; [exact E2|exact E1].
  - intros Hzero.
    assert (Hhalf : (0 <= Z.quot (numRows V) 2 <= numRows V)%Z).
    { split.
      - apply Z.quot_pos; lia.
      - apply Z.quot_le_upper_bound; lia. }
    assert (Hsum : forall lo hi : Z,
               (0 <= lo)%Z -> (hi <= numRows V)%Z ->
               fadeSum grid (intLoop lo hi) columns == 0).
    { intros lo hi Hlo Hhi.
      rewrite (fadeSum_const grid (intLoop lo hi) columns 0).
      - ring.
      - intros row column Hr Hc. apply intLoop_In in Hr, Hc.
        apply Hzero; [lia|exact Hc]. }
    assert (Hz : s == 0).
    { rewrite Vs, !Hsum by lia. ring. }
    rewrite (fin_inject_Z (s / d) 0).
    + reflexivity.
    + rewrite Hz. unfold Qdiv. change (inject_Z 0) with 0. ring.
  - intros grid32 pan32. unfold Binary32.getOscillatorPan.
    destruct (idiv (numColumns V) (numOscillators V)) as [width|];
      [|discriminate].
    cbn [bind]. cbv zeta.
    match goal with
    | |- Some (if Binary32.gt ?x ?one then _ else _) = _ -> _ =>
        destruct (Binary32.gt x one) eqn:E1
    end.
    + intros E32. injection E32 as <-. split; vm_compute; reflexivity.
    + match goal with
      | |- Some (if Binary32.lt ?x ?one then _ else _) = _ -> _ =>
          destruct (Binary32.lt x one) eqn:E2
      end.
      * intros E32. injection E32 as <-. split; vm_compute; reflexivity.
      * intros E32. injection E32 as <-. split; assumption.
Qed.

(** *** The cells refreshed by [updateFadeValues] *)

Local Open Scope Z_scope.

Lemma intLoop_NoDup (lo hi : Z) : NoDup (intLoop lo hi).
Proof.
  remember (Z.to_nat (hi - lo)) as n eqn:Hn.
  revert lo Hn. induction n as [|n IH]; intros lo Hn.
  - rewrite intLoop_nil by lia. constructor.
  - rewrite intLoop_cons by lia. constructor.
    + rewrite intLoop_In. lia.
    + apply IH. lia.
Qed.

Lemma existsb_intLoop (lo hi c : Z) :
  existsb (Z.eqb c) (intLoop lo hi) = (lo <=? c) && (c <? hi).
Proof.
  apply eq_true_iff_eq.
  rewrite existsb_exists, andb_true_iff, Z.leb_le, Z.ltb_lt. split.
  - intros (x & Hx & E). apply Z.eqb_eq in E. subst x.
    now apply intLoop_In.
  - intros H. exists c. split; [now apply intLoop_In|apply Z.eqb_refl].
Qed.

Lemma rows_update (decay : float -> float) (column : Z) (l : list Z) :
  NoDup l ->
  forall (g : Grid) (r c : Z),
    fold_left
      (fun grid row =>
         setCell grid row column (updateFade decay (getCell grid row column)))
      l g r c
    = if existsb (Z.eqb r) l && (c =? column)
      then updateFade decay (g r c)
      else g r c.
Proof.
  induction 1 as [|a l Ha Hl IH]; intros g r c.
  - reflexivity.
  - cbn [fold_left existsb]. rewrite IH. unfold setCell, getCell.
    destruct (Z.eqb_spec r a) as [->|Hra];
      destruct (Z.eqb_spec c column) as [->|Hc]; cbn [orb andb].
    + destruct (existsb (Z.eqb a) l) eqn:E; [|reflexivity].
      apply existsb_exists in E. destruct E as (x & Hx & E).
      apply Z.eqb_eq in E. subst x. contradiction.
    + now rewrite andb_false_r.
    + reflexivity.
    + reflexivity.
Qed.

Lemma block_update (decay : float -> float) (rows columns : list Z) :
  NoDup rows -> NoDup columns ->
  forall (g : Grid) (r c : Z),
    fold_left
      (fun grid column =>
         fold_left
           (fun grid row =>
              setCell grid row column
                (updateFade decay (getCell grid row column)))
           rows grid)
      columns g r c
    = if existsb (Z.eqb r) rows && existsb (Z.eqb c) columns
      then updateFade decay (g r c)
      else g r c.
Proof.
  intros Hrows. induction 1 as [|a l Ha Hl IH]; intros g r c.
  - cbn [fold_left existsb]. now rewrite andb_false_r.
  - cbn [fold_left existsb]. rewrite IH, !(rows_update decay a rows Hrows).
    destruct (existsb (Z.eqb r) rows); cbn [andb]; [|reflexivity].
    destruct (Z.eqb_spec c a) as [->|Hc]; cbn [orb].
    + destruct (existsb (Z.eqb a) l) eqn:E; [|reflexivity].
      apply existsb_exists in E. destruct E as (x & Hx & E).
      apply Z.eqb_eq in E. subst x. contradiction.
    + reflexivity.
Qed.

Lemma updateFadeValues_effect (V : Variables) (decay : float -> float)
  (grid : Grid) (i : Z) :
  0 < numOscillators V ->
  let blockWidth := Z.quot (numColumns V) (numOscillators V) in
  exists grid',
    updateFadeValues V decay grid i = Some grid'
    /\ forall row column,
         getCell grid' row column
         = if ((0 <=? row) && (row <? numRows V))
              && ((i * blockWidth <=? column)
                  && (column <? (i + 1) * blockWidth))
           then updateFade decay (getCell grid row column)
           else getCell grid row column.
Proof.
  intros HO blockWidth. unfold updateFadeValues.
  rewrite startColumnOf_eq by lia. unfold bind.
  rewrite endColumnOf_eq by lia. rewrite floatLoop_Z2F.
  eexists. split; [reflexivity|]. intros row column. unfold getCell at 1.
  rewrite block_update by apply intLoop_NoDup.
  rewrite !existsb_intLoop. fold blockWidth.
  replace (i * blockWidth + blockWidth) with ((i + 1) * blockWidth) by lia.
  reflexivity.
Qed.

Lemma visits_iff (V : Variables) (i column : Z) :
  0 < numOscillators V ->
  visits V i column
  <-> i * Z.quot (numColumns V) (numOscillators V) <= column
      < (i + 1) * Z.quot (numColumns V) (numOscillators V).
Proof.
  intros HO. unfold visits. rewrite blockColumns_eq by exact HO. split.
  - intros (columns & E & Hin). injection E as <-. now apply intLoop_In.
  - intros H. eexists. split; [reflexivity|]. now apply intLoop_In.
Qed.

(** C6.  For an oscillator [i] the three helper methods run over the same
    columns, those of
    [[i * (numColumns / numOscillators), (i + 1) * (numColumns / numOscillators))]:
    [getOscillatorGain] returns what its additions accumulate over these
    columns, in all rows, divided by its divisor; [getOscillatorPan]
    returns the clamp of what its additions and subtractions accumulate
    over them, divided by half the number of cells of the block;
    [updateFadeValues] refreshes the cells of these columns, in all rows,
    and no other.  No column belongs to two blocks; and when
    [numOscillators] divides [numColumns] the blocks of the oscillators
    [0 .. numOscillators - 1] cover exactly the columns
    [0 .. numColumns - 1]. *)
Theorem column_blocks_partition (V : Variables) :
  0 < numOscillators V ->
  let blockWidth := Z.quot (numColumns V) (numOscillators V) in
  let block := fun i => intLoop (i * blockWidth) ((i + 1) * blockWidth) in
  (forall i column,
     visits V i column
     <-> i * blockWidth <= column < (i + 1) * blockWidth)
  /\ (forall grid i,
        0 <= i < numOscillators V ->
        getOscillatorGain V grid i
        = Some (fdiv (gainAccumulated V grid (block i))
                     (fdiv (fmul (Z2F (numRows V)) (Z2F (numColumns V)))
                           (Z2F (numOscillators V))))
        /\ getOscillatorPan V grid i
           = Some (clampPan
                     (fdiv (panAccumulated V grid (block i))
                           (fdiv (Z2F (numRows V * blockWidth)) (Z2F 2)))))
  /\ (forall decay grid i, exists grid',
        updateFadeValues V decay grid i = Some grid'
        /\ forall row column,
             getCell grid' row column
             = if ((0 <=? row) && (row <? numRows V))
                  && ((i * blockWidth <=? column)
                      && (column <? (i + 1) * blockWidth))
               then updateFade decay (getCell grid row column)
               else getCell grid row column)
  /\ (forall i j column,
        visits V i column -> visits V j column -> i = j)
  /\ ((numOscillators V | numColumns V) ->
      forall column,
        0 <= column < numColumns V
        <-> exists i, 0 <= i < numOscillators V /\ visits V i column).
Proof.
  intros HO blockWidth block.
  assert (Hvisits : forall i column,
             visits V i column
             <-> i * blockWidth <= column < (i + 1) * blockWidth).
  { intros i column. now apply visits_iff. }
  split; [exact Hvisits|]. split; [|split; [|split]].
  - intros grid i Hi. split.
    + exact (getOscillatorGain_eq V grid i Hi).
    + exact (getOscillatorPan_eq V grid i Hi).
  - intros decay grid i. now apply updateFadeValues_effect.
  - intros i j column Hi Hj. apply Hvisits in Hi, Hj. nia.
  - intros Hdiv column.
    pose proof (exact_division V HO Hdiv) as Hex. fold blockWidth in Hex.
    split.
    + intros Hc. assert (Hw : 0 < blockWidth) by nia.
      exists (column / blockWidth). split.
      * split; [apply Z.div_pos; lia|].
        apply Z.div_lt_upper_bound; lia.
      * apply Hvisits.
        pose proof (Z.mul_div_le column blockWidth Hw).
        pose proof (Z.mul_succ_div_gt column blockWidth Hw).
        lia.
    + intros (i & Hi & Hv). apply Hvisits in Hv. nia.
Qed.

(** *** Arrays *)

Lemma setNth_length {A : Type} (l : list A) (n : nat) (a : A) :
  length (setNth l n a) = length l.
Proof.
  revert n. induction l as [|x l IH]; intros [|n]; simpl; auto.
Qed.

Lemma setAt_length {A : Type} (l : list A) (i : Z) (a : A) :
  length (setAt l i a) = length l.
Proof. unfold setAt. destruct (i <? 0); [reflexivity|apply setNth_length]. Qed.

Lemma nth_error_setNth {A : Type} (l : list A) (n m : nat) (a : A) :
  nth_error (setNth l n a) m
  = if (Nat.eqb n m && Nat.ltb n (length l))%bool
    then Some a else nth_error l m.
Proof.
  revert n m. induction l as [|x l IH]; intros n m.
  - cbn [setNth length]. replace (Nat.ltb n 0) with false.
    + now rewrite andb_false_r; destruct n.
    + symmetry. apply Nat.ltb_ge. lia.
  - destruct n as [|n], m as [|m]; cbn [setNth nth_error length];
      try reflexivity.
    rewrite IH. reflexivity.
Qed.

Lemma getAt_setAt {A : Type} (l : list A) (i j : Z) (a : A) :
  0 <= i < Z.of_nat (length l) ->
  getAt (setAt l i a) j = if i =? j then Some a else getAt l j.
Proof.
  intros Hi. unfold getAt, setAt.
  destruct (Z.ltb_spec i 0); [lia|].
  destruct (Z.ltb_spec j 0).
  - destruct (Z.eqb_spec i j); [lia|reflexivity].
  - rewrite nth_error_setNth.
    destruct (Z.eqb_spec i j) as [->|Hij].
    + rewrite Nat.eqb_refl.
      destruct (Nat.ltb_spec (Z.to_nat j) (length l)); [reflexivity|lia].
    + destruct (Nat.eqb_spec (Z.to_nat i) (Z.to_nat j)); [lia|reflexivity].
Qed.

Lemma getAt_Some {A : Type} (l : list A) (i : Z) :
  0 <= i < Z.of_nat (length l) -> exists a, getAt l i = Some a.
Proof.
  intros Hi. unfold getAt. destruct (Z.ltb_spec i 0); [lia|].
  destruct (nth_error l (Z.to_nat i)) eqn:E; [eauto|].
  apply nth_error_None in E. lia.
Qed.

(** *** prepareToPlay *)

Lemma frequencyFrom_succ (V : Variables) (n : nat) (f : float) (lo : Z) :
  frequencyFrom V f lo (S n)
  = nextFrequency V (frequencyFrom V f lo n) (lo + Z.of_nat n).
Proof.
  revert f lo. induction n as [|n IH]; intros f lo.
  - simpl. now rewrite Z.add_0_r.
  - change (frequencyFrom V f lo (S (S n)))
      with (frequencyFrom V (nextFrequency V f lo) (lo + 1) (S n)).
    rewrite IH. simpl frequencyFrom. f_equal. lia.
Qed.

Section PrepareToPlay.

Context `{X : Collaborators}.
Variable V : Variables.
Variable sampleRate : float.
Variable blockSize : Z.

Lemma prepareOscillator_loop (n : nat) :
  forall (lo : Z) (oscillators : list Oscillator.t) (f : float),
    0 <= lo ->
    lo + Z.of_nat n <= Z.of_nat (length oscillators) ->
    exists oscillators',
      foldM (prepareOscillator V sampleRate blockSize)
            (intLoop lo (lo + Z.of_nat n)) (oscillators, f)
      = Some (oscillators', frequencyFrom V f lo n)
      /\ length oscillators' = length oscillators
      /\ forall k,
           getAt oscillators' k
           = if (lo <=? k) && (k <? lo + Z.of_nat n)
             then Some (Oscillator.prepareToPlay
                          (frequencyFrom V f lo (Z.to_nat (k - lo)))
                          sampleRate blockSize)
             else getAt oscillators k.
Proof.
  induction n as [|n IH]; intros lo oscillators f Hlo Hlen.
  - rewrite intLoop_nil by lia. exists oscillators.
    split; [reflexivity|]. split; [reflexivity|]. intros k.
    destruct (Z.leb_spec lo k); destruct (Z.ltb_spec k (lo + Z.of_nat 0));
      try reflexivity; lia.
  - rewrite intLoop_cons by lia. cbn [foldM].
    unfold prepareOscillator at 1.
    destruct (getAt_Some oscillators lo ltac:(lia)) as (o & Eo).
    rewrite Eo. unfold bind at 1 2.
    replace (lo + Z.of_nat (S n)) with (lo + 1 + Z.of_nat n) by lia.
    destruct (IH (lo + 1)
                 (setAt oscillators lo
                    (Oscillator.prepareToPlay f sampleRate blockSize))
                 (nextFrequency V f lo))
      as (oscillators' & E & Hl & Hget);
      [lia|rewrite setAt_length; lia|].
    exists oscillators'. split; [exact E|]. split.
    + now rewrite Hl, setAt_length.
    + intros k. rewrite Hget, getAt_setAt by lia.
      destruct (Z.leb_spec (lo + 1) k);
        destruct (Z.ltb_spec k (lo + 1 + Z.of_nat n));
        destruct (Z.leb_spec lo k);
        destruct (Z.eqb_spec lo k); cbn [andb]; try lia; try reflexivity.
      * replace (Z.to_nat (k - lo)) with (S (Z.to_nat (k - (lo + 1))))
          by lia.
        reflexivity.
      * subst k. now rewrite Z.sub_diag.
Qed.

Lemma prepareLFO_loop (n : nat) :
  forall (lo : Z) (lfos : list Oscillator.t),
    0 <= lo ->
    lo + Z.of_nat n <= Z.of_nat (length lfos) ->
    lo + Z.of_nat n <= Z.of_nat (length (frequencyLFO V)) ->
    exists lfos',
      foldM (prepareLFO V sampleRate blockSize)
            (intLoop lo (lo + Z.of_nat n)) lfos
      = Some lfos'
      /\ length lfos' = length lfos.
Proof.
  induction n as [|n IH]; intros lo lfos Hlo Hlen Htable.
  - rewrite intLoop_nil by lia. exists lfos. now split.
  - rewrite intLoop_cons by lia. cbn [foldM].
    unfold prepareLFO at 1.
    destruct (getAt_Some lfos lo ltac:(lia)) as (o & Eo).
    destruct (getAt_Some (frequencyLFO V) lo ltac:(lia)) as (f & Ef).
    rewrite Eo, Ef. unfold bind at 1 2 3.
    replace (lo + Z.of_nat (S n)) with (lo + 1 + Z.of_nat n) by lia.
    destruct (IH (lo + 1)
                 (setAt lfos lo
                    (Oscillator.prepareToPlay f sampleRate blockSize)))
      as (lfos' & E & Hl); [lia|rewrite setAt_length; lia|lia|].
    exists lfos'. split; [exact E|]. now rewrite Hl, setAt_length.
Qed.

End PrepareToPlay.

Lemma prepareToPlay_returns `{X : Collaborators} (V : Variables)
  (s : Synthesis) (sampleRate : float) (blockSize : Z) :
  banksAllocated V s ->
  numLFOs V <= Z.of_nat (length (frequencyLFO V)) ->
  exists oscillators lfos,
    prepareToPlay V s sampleRate blockSize
    = Some (mkSynthesis (m_Grid s) oscillators lfos
              (Oscillator.prepareToPlay (Finite (1#10)) sampleRate blockSize)
              (setCoefficients (makeLowPass sampleRate (filterCutoff V))
                               (m_FilterLeft s))
              (setCoefficients (makeLowPass sampleRate (filterCutoff V))
                               (m_FilterRight s))
              (m_Panner s) (reverbReset (m_Reverb s)) blockSize sampleRate)
    /\ length oscillators = length (m_Oscillators s)
    /\ length lfos = length (m_LFOs s)
    /\ forall k,
         0 <= k < numOscillators V ->
         getAt oscillators k
         = Some (Oscillator.prepareToPlay
                   (frequencyFrom V (startFrequency V) 0 (Z.to_nat k))
                   sampleRate blockSize).
Proof.
  intros (Hosc & Hlfo) Htable. unfold prepareToPlay.
  destruct (prepareOscillator_loop V sampleRate blockSize
              (length (m_Oscillators s)) 0 (m_Oscillators s)
              (startFrequency V))
    as (oscillators & E1 & L1 & G1); [lia|lia|].
  destruct (prepareLFO_loop V sampleRate blockSize
              (length (m_LFOs s)) 0 (m_LFOs s))
    as (lfos & E2 & L2); [lia|lia|lia|].
  rewrite Z.add_0_l in E1, E2, G1. rewrite Hosc in E1, G1. rewrite Hlfo in E2.
  rewrite E1. unfold bind at 1. rewrite E2. unfold bind.
  exists oscillators, lfos. split; [reflexivity|].
  split; [exact L1|]. split; [exact L2|].
  intros k Hk. rewrite G1, Z.sub_0_r.
  destruct (Z.leb_spec 0 k); destruct (Z.ltb_spec k (numOscillators V));
    try lia.
  reflexivity.
Qed.

(** C9.  After [prepareToPlay] oscillator 0 has the start frequency, and
    every further oscillator [i + 1] has the frequency of oscillator [i]
    increased by that frequency divided by [i + 1] and multiplied by the
    inharmonicity. *)
Theorem prepareToPlay_frequency_series `{X : Collaborators} (V : Variables)
  (s : Synthesis) (sampleRate : float) (blockSize : Z) :
  banksAllocated V s ->
  numLFOs V <= Z.of_nat (length (frequencyLFO V)) ->
  exists s',
    prepareToPlay V s sampleRate blockSize = Some s'
    /\ (0 < numOscillators V ->
        exists o,
          getAt (m_Oscillators s') 0 = Some o
          /\ Oscillator.getFrequency o = startFrequency V)
    /\ (forall i,
          0 <= i < numOscillators V - 1 ->
          exists a b,
            getAt (m_Oscillators s') i = Some a
            /\ getAt (m_Oscillators s') (i + 1) = Some b
            /\ Oscillator.getFrequency b
               = fadd (Oscillator.getFrequency a)
                   (fmul (fdiv (Oscillator.getFrequency a)
                               (fadd (Z2F i) (Z2F 1)))
                         (inharmonicity V))).
Proof.
  intros Hbanks Htable.
  destruct (prepareToPlay_returns V s sampleRate blockSize Hbanks Htable)
    as (oscillators & lfos & E & _ & _ & Hget).
  eexists. split; [exact E|]. cbn [m_Oscillators]. split.
  - intros Hpos. eexists. split; [apply Hget; lia|]. reflexivity.
  - intros i Hi. eexists. eexists.
    split; [apply Hget; lia|]. split; [apply Hget; lia|].
    cbn [Oscillator.getFrequency Oscillator.prepareToPlay
         Oscillator.frequency].
    replace (Z.to_nat (i + 1)) with (S (Z.to_nat i)) by lia.
    rewrite frequencyFrom_succ. unfold nextFrequency.
    rewrite Z.add_0_l, Z2Nat.id by lia. reflexivity.
Qed.

(** C10.  [prepareToPlay] does not change the parameters of the reverb:
    the parameter object it fills in stays local, and the reverb is only
    reset.  The call returns as soon as the banks and the table of LFO
    frequencies have their configured sizes. *)
Theorem prepareToPlay_keeps_reverb_parameters `{X : Collaborators}
  (V : Variables) (s : Synthesis) (sampleRate : float) (blockSize : Z) :
  (banksAllocated V s ->
   numLFOs V <= Z.of_nat (length (frequencyLFO V)) ->
   exists s', prepareToPlay V s sampleRate blockSize = Some s')
  /\ (forall s',
        prepareToPlay V s sampleRate blockSize = Some s' ->
        getParameters (m_Reverb s') = getParameters (m_Reverb s)
        /\ m_Reverb s' = reverbReset (m_Reverb s)).
Proof.
  split.
  - intros Hbanks Htable.
    destruct (prepareToPlay_returns V s sampleRate blockSize Hbanks Htable)
      as (oscillators & lfos & E & _).
    eexists. exact E.
  - intros s'. unfold prepareToPlay.
    destruct (foldM (prepareOscillator V sampleRate blockSize)
                (intLoop 0 (numOscillators V))
                (m_Oscillators s, startFrequency V))
      as [(oscillators, f)|]; [|discriminate].
    unfold bind at 1.
    destruct (foldM (prepareLFO V sampleRate blockSize)
                (intLoop 0 (numLFOs V)) (m_LFOs s))
      as [lfos|]; [|discriminate].
    unfold bind. intros E. injection E as <-. split; reflexivity.
Qed.

(** *** processBlock *)

Lemma foldM_invariant {A S : Type} (body : S -> A -> option S)
  (P : S -> Prop) (l : list A) :
  (forall s a s', In a l -> P s -> body s a = Some s' -> P s') ->
  forall s s', P s -> foldM body l s = Some s' -> P s'.
Proof.
  induction l as [|a l IH]; intros Hbody s s' Hs E.
  - injection E as <-. exact Hs.
  - cbn [foldM] in E. destruct (body s a) as [s1|] eqn:E1; [|discriminate].
    cbn [bind] in E. apply (IH (fun s0 b s0' Hb => Hbody s0 b s0' (or_intror Hb)) s1).
    + apply (Hbody s a s1); [now left|exact Hs|exact E1].
    + exact E.
Qed.

Lemma foldM_total {A S : Type} (body : S -> A -> option S)
  (P : S -> Prop) (l : list A) :
  (forall s a, In a l -> P s -> exists s', body s a = Some s' /\ P s') ->
  forall s, P s -> exists s', foldM body l s = Some s' /\ P s'.
Proof.
  induction l as [|a l IH]; intros Hbody s Hs.
  - exists s. now split.
  - destruct (Hbody s a (or_introl eq_refl) Hs) as (s1 & E1 & H1).
    destruct (IH (fun s0 b Hb => Hbody s0 b (or_intror Hb)) s1 H1)
      as (s' & E & H').
    exists s'. split; [|exact H']. cbn [foldM]. now rewrite E1.
Qed.

Lemma setNth_same {A : Type} (l : list A) (n : nat) (a : A) :
  nth_error l n = Some a -> setNth l n a = l.
Proof.
  revert n. induction l as [|x l IH]; intros [|n] H; simpl in *;
    try discriminate.
  - now injection H as ->.
  - now rewrite IH.
Qed.

Lemma map_setNth {A B : Type} (f : A -> B) (l : list A) (n : nat) (a : A) :
  map f (setNth l n a) = setNth (map f l) n (f a).
Proof.
  revert n. induction l as [|x l IH]; intros [|n]; simpl; auto.
  now rewrite IH.
Qed.

(** Writing back an element with the same image under [f] leaves the
    images unchanged. *)
Lemma map_setAt_same {A B : Type} (f : A -> B) (l : list A) (i : Z)
  (a a' : A) :
  getAt l i = Some a -> f a' = f a -> map f (setAt l i a') = map f l.
Proof.
  unfold getAt, setAt. destruct (i <? 0); [discriminate|].
  intros H E. rewrite map_setNth, E. apply setNth_same.
  now rewrite nth_error_map, H.
Qed.

Lemma loopFrame_refl `{X : Collaborators} (s : Synthesis) : loopFrame s s.
Proof. unfold loopFrame. tauto. Qed.

Lemma loopFrame_trans `{X : Collaborators} (s1 s2 s3 : Synthesis) :
  loopFrame s1 s2 -> loopFrame s2 s3 -> loopFrame s1 s3.
Proof.
  unfold loopFrame.
  intros (A1 & A2 & A3 & A4 & A5 & A6 & A7 & A8 & A9)
         (B1 & B2 & B3 & B4 & B5 & B6 & B7 & B8 & B9).
  repeat split; congruence.
Qed.

(** One iteration of the sample loop, read backwards. *)
Lemma processOscillatorSample_inv `{X : Collaborators} (V : Variables)
  (i : Z) (s : Synthesis) (block : AudioBuffer) (pans : list float) (k : Z)
  (s' : Synthesis) (block' : AudioBuffer) (pans' : list float) :
  processOscillatorSample V i (s, block, pans) k = Some (s', block', pans') ->
  exists lfoIndex lfo o gain pan grid',
    imod i (numLFOs V) = Some lfoIndex
    /\ getAt (m_LFOs s) lfoIndex = Some lfo
    /\ getAt (m_Oscillators s) i = Some o
    /\ gainToApply V (m_Grid s) i
         (modulatedFrequencyOf (Oscillator.frequency o) i
            (snd (Oscillator.processSample lfo))) = Some gain
    /\ getOscillatorPan V (m_Grid s) i = Some pan
    /\ updateFadeValues V fadeDecay (m_Grid s) i = Some grid'
    /\ s' = mkSynthesis grid'
              (setAt (m_Oscillators s) i
                 (oscillatorAfterSample o i
                    (snd (Oscillator.processSample lfo))))
              (setAt (m_LFOs s) lfoIndex (fst (Oscillator.processSample lfo)))
              (m_FilterModulator s) (m_FilterLeft s) (m_FilterRight s)
              (m_Panner s) (m_Reverb s) (m_BlockSize s) (m_SampleRate s)
    /\ block' = mkAudioBuffer (getNumSamples block)
                  (map (addSample k
                          (fmul
                             (sine (Oscillator.phase
                                      (oscillatorAfterSample o i
                                         (snd (Oscillator.processSample lfo)))))
                             gain))
                       (channelData block))
    /\ pans' = pans ++ [pan].
Proof.
  unfold processOscillatorSample. intros E.
  destruct (imod i (numLFOs V)) as [lfoIndex|] eqn:E1; [|discriminate].
  cbn [bind] in E.
  destruct (getAt (m_LFOs s) lfoIndex) as [lfo|] eqn:E2; [|discriminate].
  cbn [bind] in E.
  unfold Oscillator.processSample in E. cbv zeta beta iota in E.
  cbn [m_Oscillators m_Grid m_LFOs withLFOs] in E.
  destruct (getAt (m_Oscillators s) i) as [o|] eqn:E3; [|discriminate].
  cbn [bind] in E.
  match type of E with
  | bind ?c _ = _ => destruct c as [gain|] eqn:E4; [|discriminate]
  end.
  cbn [bind] in E.
  destruct (getOscillatorPan V (m_Grid s) i) as [pan|] eqn:E5; [|discriminate].
  cbn [bind] in E.
  destruct (updateFadeValues V fadeDecay (m_Grid s) i) as [grid'|] eqn:E6;
    [|discriminate].
  cbn [bind] in E. injection E as <- <- <-.
  exists lfoIndex, lfo, o, gain, pan, grid'.
  repeat (split; [first [reflexivity|assumption]|]).
  reflexivity.
Qed.

Lemma processOscillatorSample_frame `{X : Collaborators} (V : Variables)
  (i : Z) (s : Synthesis) (block : AudioBuffer) (pans : list float) (k : Z)
  (s' : Synthesis) (block' : AudioBuffer) (pans' : list float) :
  processOscillatorSample V i (s, block, pans) k = Some (s', block', pans') ->
  loopFrame s s'.
Proof.
  intros E. apply processOscillatorSample_inv in E.
  destruct E as (lfoIndex & lfo & o & gain & pan & grid'
                 & _ & _ & Eo & _ & _ & _ & -> & _ & _).
  unfold loopFrame. cbn [m_Reverb m_FilterModulator m_FilterLeft m_FilterRight
                         m_SampleRate m_BlockSize m_Oscillators m_LFOs].
  rewrite !setAt_length.
  repeat (split; [reflexivity|]).
  now apply (map_setAt_same Oscillator.frequency _ i o).
Qed.

Lemma imod_index (i n : Z) :
  0 <= i -> 0 < n -> exists r, imod i n = Some r /\ 0 <= r < n.
Proof.
  intros Hi Hn. unfold imod. destruct (Z.eqb_spec n 0); [lia|].
  eexists. split; [reflexivity|]. apply Z.rem_bound_pos; lia.
Qed.

Lemma helpers_return (V : Variables) (decay : float -> float) (grid : Grid)
  (i : Z) :
  0 < numOscillators V ->
  (exists gain, getOscillatorGain V grid i = Some gain)
  /\ (exists pan, getOscillatorPan V grid i = Some pan)
  /\ (exists grid', updateFadeValues V decay grid i = Some grid').
Proof.
  intros HO.
  unfold getOscillatorGain, getOscillatorPan, updateFadeValues.
  rewrite startColumnOf_eq by exact HO. unfold bind.
  rewrite endColumnOf_eq by exact HO.
  repeat split; eexists; reflexivity.
Qed.

Lemma processOscillatorSample_returns `{X : Collaborators} (V : Variables)
  (i : Z) (s : Synthesis) (block : AudioBuffer) (pans : list float) (k : Z) :
  banksAllocated V s ->
  0 < numLFOs V ->
  0 <= i < numOscillators V ->
  exists r, processOscillatorSample V i (s, block, pans) k = Some r.
Proof.
  intros (Hosc & Hlfo) HL Hi.
  destruct (imod_index i (numLFOs V)) as (r & Er & Hr); [lia|lia|].
  destruct (getAt_Some (m_LFOs s) r ltac:(lia)) as (lfo & Elfo).
  destruct (getAt_Some (m_Oscillators s) i ltac:(lia)) as (o & Eo).
  unfold processOscillatorSample. rewrite Er. cbn [bind]. rewrite Elfo.
  cbn [bind]. unfold Oscillator.processSample. cbv zeta beta iota.
  cbn [m_Oscillators m_Grid m_LFOs withLFOs]. rewrite Eo. cbn [bind].
  unfold gainToApply.
  destruct (helpers_return V fadeDecay (m_Grid s) i ltac:(lia))
    as ((gain & Eg) & (pan & Ep) & (grid' & Eu)).
  rewrite Eg. cbn [bind]. rewrite Ep. cbn [bind]. rewrite Eu. cbn [bind].
  eauto.
Qed.

Lemma addFrom_length (d s : list (list float)) :
  length (addFrom d s) = length d.
Proof.
  revert s. induction d as [|x d IH]; intros [|y s]; simpl; auto.
Qed.

Lemma processBlock_inv `{X : Collaborators} (V : Variables) (s : Synthesis)
  (buffer : AudioBuffer) (s' : Synthesis) (out : AudioBuffer) :
  processBlock V s buffer = Some (s', out) ->
  exists s1 block,
    foldM (processOscillator V (getNumSamples buffer))
          (intLoop 0 (numOscillators V))
          (s, clearedBuffer (getNumChannels buffer) (getNumSamples buffer))
    = Some (s1, block)
    /\ m_Grid s' = m_Grid s1
    /\ m_Oscillators s' = m_Oscillators s1
    /\ m_LFOs s' = m_LFOs s1
    /\ m_FilterModulator s'
       = fst (Oscillator.processSample (m_FilterModulator s1))
    /\ coefficients (m_FilterLeft s')
       = Some (makeLowPass (m_SampleRate s1)
                 (modulatedCutoff V
                    (snd (Oscillator.processSample (m_FilterModulator s1)))))
    /\ coefficients (m_FilterRight s')
       = Some (makeLowPass (m_SampleRate s1)
                 (modulatedCutoff V
                    (snd (Oscillator.processSample (m_FilterModulator s1)))))
    /\ m_Reverb s' = reverbReset (m_Reverb s1)
    /\ m_SampleRate s' = m_SampleRate s1
    /\ m_BlockSize s' = m_BlockSize s1.
Proof.
  unfold processBlock. intros E. cbv zeta in E.
  match type of E with
  | bind ?c _ = _ => destruct c as [(s1, block)|] eqn:E1; [|discriminate]
  end.
  cbn [bind] in E.
  match type of E with
  | bind ?c _ = _ => destruct c as [leftChannel|] eqn:E2; [|discriminate]
  end.
  cbn [bind] in E.
  match type of E with
  | bind ?c _ = _ => destruct c as [rightChannel|] eqn:E3; [|discriminate]
  end.
  cbn [bind] in E.
  unfold Oscillator.processSample, processSamples, processStereo in E.
  cbn [coefficients setCoefficients filterState] in E.
  repeat match type of E with
         | context [iirProcessSamples ?a ?b ?c] =>
             destruct (iirProcessSamples a b c) as (?, ?)
         end.
  match type of E with
  | context [reverbProcessStereo ?a ?b ?c ?d] =>
      destruct (reverbProcessStereo a b c d) as (lines, (outL, outR))
  end.
  injection E as <- <-. exists s1, block.
  split; [reflexivity|]. cbn. repeat split; reflexivity.
Qed.

Lemma banksAllocated_frame `{X : Collaborators} (V : Variables)
  (s s' : Synthesis) :
  loopFrame s s' -> banksAllocated V s -> banksAllocated V s'.
Proof.
  intros (_ & _ & _ & _ & _ & _ & Ho & Hl & _) (Hosc & Hlfo).
  unfold banksAllocated. now rewrite Ho, Hl.
Qed.

Lemma processOscillator_frame `{X : Collaborators} (V : Variables)
  (blockSize : Z) (s : Synthesis) (block : AudioBuffer) (i : Z)
  (s' : Synthesis) (block' : AudioBuffer) :
  processOscillator V blockSize (s, block) i = Some (s', block') ->
  loopFrame s s'.
Proof.
  unfold processOscillator. intros E.
  match type of E with
  | bind ?c _ = _ => destruct c as [((s1, block1), pans1)|] eqn:E1;
                     [|discriminate]
  end.
  cbn [bind] in E.
  destruct (pannerProcessBlock (m_Panner s1) (channelData block1) pans1)
    as (panner, channels).
  injection E as <- <-.
  apply (loopFrame_trans s s1).
  - apply (foldM_invariant (processOscillatorSample V i)
             (fun acc => loopFrame s (fst (fst acc)))
             (intLoop 0 blockSize)) in E1.
    + exact E1.
    + intros ((s2, block2), pans2) k ((s3, block3), pans3) _ H2 E2.
      cbn [fst] in *. apply (loopFrame_trans s s2 s3 H2).
      exact (processOscillatorSample_frame V i _ _ _ k _ _ _ E2).
    + apply loopFrame_refl.
  - unfold loopFrame. cbn. repeat split; reflexivity.
Qed.

Lemma processOscillator_returns `{X : Collaborators} (V : Variables)
  (blockSize : Z) (s : Synthesis) (block : AudioBuffer) (i : Z) :
  banksAllocated V s ->
  0 < numLFOs V ->
  0 <= i < numOscillators V ->
  exists r, processOscillator V blockSize (s, block) i = Some r.
Proof.
  intros Hbanks HL Hi. unfold processOscillator.
  destruct (foldM_total (processOscillatorSample V i)
              (fun acc => banksAllocated V (fst (fst acc)))
              (intLoop 0 blockSize)) with (s := (s, block, @nil float))
    as (((s1, block1), pans1) & E1 & _).
  - intros ((s2, block2), pans2) k _ H2. cbn [fst] in H2.
    destruct (processOscillatorSample_returns V i s2 block2 pans2 k H2 HL Hi)
      as (((s3, block3), pans3) & E3).
    eexists. split; [exact E3|]. cbn [fst].
    apply (banksAllocated_frame V s2 s3); [|exact H2].
    exact (processOscillatorSample_frame V i _ _ _ k _ _ _ E3).
  - exact Hbanks.
  - rewrite E1. cbn [bind].
    destruct (pannerProcessBlock (m_Panner s1) (channelData block1) pans1).
    eauto.
Qed.

Lemma oscillatorLoop_frame `{X : Collaborators} (V : Variables)
  (blockSize : Z) (l : list Z) (s : Synthesis) (block : AudioBuffer)
  (s' : Synthesis) (block' : AudioBuffer) :
  foldM (processOscillator V blockSize) l (s, block) = Some (s', block') ->
  loopFrame s s'.
Proof.
  intros E.
  apply (foldM_invariant (processOscillator V blockSize)
           (fun acc => loopFrame s (fst acc)) l) in E.
  - exact E.
  - intros (s2, block2) i (s3, block3) _ H2 E2. cbn [fst] in *.
    apply (loopFrame_trans s s2 s3 H2).
    exact (processOscillator_frame V blockSize _ _ i _ _ E2).
  - apply loopFrame_refl.
Qed.

Lemma oscillatorLoop_returns `{X : Collaborators} (V : Variables)
  (blockSize : Z) (s : Synthesis) (block : AudioBuffer) :
  banksAllocated V s ->
  (0 < numOscillators V -> 0 < numLFOs V) ->
  exists r,
    foldM (processOscillator V blockSize) (intLoop 0 (numOscillators V))
          (s, block) = Some r.
Proof.
  intros Hbanks HL.
  destruct (foldM_total (processOscillator V blockSize)
              (fun acc => banksAllocated V (fst acc))
              (intLoop 0 (numOscillators V))) with (s := (s, block))
    as (r & E & _).
  - intros (s2, block2) i Hi H2. cbn [fst] in H2. apply intLoop_In in Hi.
    destruct (processOscillator_returns V blockSize s2 block2 i H2)
      as ((s3, block3) & E3); [lia|lia|].
    eexists. split; [exact E3|]. cbn [fst].
    apply (banksAllocated_frame V s2 s3); [|exact H2].
    exact (processOscillator_frame V blockSize _ _ i _ _ E3).
  - exact Hbanks.
  - eauto.
Qed.

Lemma processBlock_returns `{X : Collaborators} (V : Variables)
  (s : Synthesis) (buffer : AudioBuffer) :
  banksAllocated V s ->
  (0 < numOscillators V -> 0 < numLFOs V) ->
  2 <= getNumChannels buffer ->
  exists s' out, processBlock V s buffer = Some (s', out).
Proof.
  intros Hbanks HL Hch. unfold processBlock. cbv zeta.
  destruct (oscillatorLoop_returns V (getNumSamples buffer) s
              (clearedBuffer (getNumChannels buffer) (getNumSamples buffer))
              Hbanks HL) as ((s1, block) & E1).
  rewrite E1. cbn [bind].
  set (channels := addFrom _ _).
  assert (Hlen : Z.of_nat (length channels) = getNumChannels buffer).
  { unfold channels. rewrite addFrom_length. unfold clearedBuffer.
    cbn [channelData]. rewrite repeat_length. lia. }
  destruct (getAt_Some channels 0 ltac:(lia)) as (leftChannel & E2).
  destruct (getAt_Some channels 1 ltac:(lia)) as (rightChannel & E3).
  rewrite E2, E3. cbn [bind].
  unfold Oscillator.processSample, processSamples, processStereo.
  cbn [coefficients setCoefficients filterState].
  repeat match goal with
         | |- context [iirProcessSamples ?a ?b ?c] =>
             destruct (iirProcessSamples a b c) as (?, ?)
         end.
  match goal with
  | |- context [reverbProcessStereo ?a ?b ?c ?d] =>
      destruct (reverbProcessStereo a b c d) as (lines, (outL, outR))
  end.
  eauto.
Qed.

(** C8.  Every [processBlock] ends with the reverb reset: whatever the
    block, the reverb it leaves is the reset of the reverb it found, its
    lines cleared and its parameters untouched; so two calls in a row
    start from the same reverb state.  The call returns as soon as the
    banks have their configured sizes and the buffer has two channels. *)
Theorem processBlock_resets_reverb `{X : Collaborators} (V : Variables)
  (s : Synthesis) (buffer : AudioBuffer) :
  (banksAllocated V s ->
   (0 < numOscillators V -> 0 < numLFOs V) ->
   2 <= getNumChannels buffer ->
   exists s' out, processBlock V s buffer = Some (s', out))
  /\ (forall s' out,
        processBlock V s buffer = Some (s', out) ->
        m_Reverb s' = reverbReset (m_Reverb s)
        /\ reverbLines (m_Reverb s') = clearedLines
        /\ forall buffer' s'' out',
             processBlock V s' buffer' = Some (s'', out') ->
             m_Reverb s'' = m_Reverb s').
Proof.
  assert (Hreset : forall s0 b s1 o,
             processBlock V s0 b = Some (s1, o) ->
             m_Reverb s1 = reverbReset (m_Reverb s0)).
  { intros s0 b s1 o E. apply processBlock_inv in E.
    destruct E as (s2 & block & E & _ & _ & _ & _ & _ & _ & Hr & _).
    apply oscillatorLoop_frame in E. destruct E as (Hrev & _).
    now rewrite Hr, Hrev. }
  split.
  - apply processBlock_returns.
  - intros s' out E. pose proof (Hreset _ _ _ _ E) as Hr.
    split; [exact Hr|]. split.
    + now rewrite Hr.
    + intros buffer' s'' out' E'.
      rewrite (Hreset _ _ _ _ E'), Hr. reflexivity.
Qed.

Lemma getAt_range {A : Type} (l : list A) (i : Z) (a : A) :
  getAt l i = Some a -> 0 <= i < Z.of_nat (length l).
Proof.
  unfold getAt. destruct (Z.ltb_spec i 0); [discriminate|].
  intros E. assert (nth_error l (Z.to_nat i) <> None) as Hn by congruence.
  apply nth_error_Some in Hn. lia.
Qed.

Lemma construct_banks `{X : Collaborators} (V : Variables) (grid : Grid) :
  0 <= numOscillators V -> 0 <= numLFOs V ->
  banksAllocated V (construct V grid).
Proof.
  intros HO HL. unfold banksAllocated, construct.
  cbn [m_Oscillators m_LFOs]. rewrite !repeat_length. lia.
Qed.

(** C2.  The factor applied to the generated sample is the density gain
    multiplied by the result of [getSpectralGainDecay] called on that same
    gain: in every iteration of the sample loop the value added to the
    channels is the sample times
    [density * (density * startFrequency * (1 / frequency))], so the
    density gain enters twice.  On a grid whose fades are all 1/2, for an
    oscillator at the start frequency, the density gain is 1/2 and the
    spectral decay factor [startFrequency / frequency] is 1, yet the
    factor applied is 1/4. *)
Theorem gainToApply_compounds_density :
  (forall (X : Collaborators) V i s block panValues k s' block' panValues',
     processOscillatorSample V i (s, block, panValues) k
     = Some (s', block', panValues') ->
     exists o modulator density,
       getAt (m_Oscillators s) i = Some o
       /\ getOscillatorGain V (m_Grid s) i = Some density
       /\ let frequency :=
            modulatedFrequencyOf (Oscillator.frequency o) i modulator in
          let sample :=
            sine (Oscillator.phase (oscillatorAfterSample o i modulator)) in
          let factor :=
            fmul density
              (fmul (fmul density (startFrequency V))
                    (fdiv (Z2F 1) frequency)) in
          channelData block'
          = map (addSample k (fmul sample factor)) (channelData block))
  /\ getOscillatorGain exampleVariables halfFadedGrid 0
     = Some (Finite (1#2))
  /\ fmul (Finite (1#2))
          (fdiv (startFrequency exampleVariables) (Finite 100))
     = Finite (1#2)
  /\ gainToApply exampleVariables halfFadedGrid 0 (Finite 100)
     = Some (Finite (1#4)).
Proof.
  split; [|repeat split; vm_compute; reflexivity].
  intros X V i s block panValues k s' block' panValues' E.
  apply processOscillatorSample_inv in E.
  destruct E as (lfoIndex & lfo & o & gain & pan & grid'
                 & _ & _ & Eo & Eg & _ & _ & _ & -> & _).
  unfold gainToApply in Eg.
  destruct (getOscillatorGain V (m_Grid s) i) as [density|];
    [|discriminate].
  cbn [bind] in Eg. injection Eg as <-.
  exists o, (snd (Oscillator.processSample lfo)), density.
  split; [exact Eo|]. split; reflexivity.
Qed.

(** C3, as the code has it.  No clamp is applied: the low-pass frequency
    given to both channel filters is
    [filterCutoff * (filterModulator + 1.001) * 100], from the sample
    drawn from the filter modulator.  For a positive [filterCutoff] and a
    modulator sample in [[-1, 1]] it lies between a tenth of
    [filterCutoff] and 200.1 times [filterCutoff]. *)
Theorem processBlock_cutoff_unclamped `{X : Collaborators} (V : Variables)
  (s : Synthesis) (buffer : AudioBuffer) :
  (banksAllocated V s ->
   (0 < numOscillators V -> 0 < numLFOs V) ->
   2 <= getNumChannels buffer ->
   exists s' out, processBlock V s buffer = Some (s', out))
  /\ (forall s' out,
        processBlock V s buffer = Some (s', out) ->
        let filterModulator :=
          snd (Oscillator.processSample (m_FilterModulator s)) in
        let cutoff := modulatedCutoff V filterModulator in
        coefficients (m_FilterLeft s')
        = Some (makeLowPass (m_SampleRate s) cutoff)
        /\ coefficients (m_FilterRight s')
           = Some (makeLowPass (m_SampleRate s) cutoff)
        /\ forall base,
             hasValue (filterCutoff V) base ->
             (0 < base)%Q ->
             inRange (-1) 1 filterModulator ->
             inRange (base / 10) (base * (2001#10)) cutoff).
Proof.
  split; [apply processBlock_returns|].
  intros s' out E. apply processBlock_inv in E.
  destruct E as (s1 & block & E & _ & _ & _ & _ & HL & HR & _).
  apply oscillatorLoop_frame in E.
  destruct E as (_ & Hm & _ & _ & Hsr & _).
  rewrite Hm, Hsr in HL, HR. cbv zeta.
  split; [exact HL|]. split; [exact HR|].
  intros base Hbase Hpos Hmod.
  destruct (snd (Oscillator.processSample (m_FilterModulator s)))
    as [m|]; [|contradiction].
  unfold modulatedCutoff.
  destruct (filterCutoff V) as [c|]; [|contradiction].
  cbn [hasValue inRange] in Hbase, Hmod.
  unfold fmul, fadd, Z2F, fin, inRange.
  rewrite !Qred_correct, Hbase.
  change (inject_Z 100) with (100#1)%Q.
  destruct Hmod as (Hlo & Hhi). split.
  - apply Qle_shift_div_r; [reflexivity|].
    setoid_replace (base * (m + (1001 # 1000)) * (100 # 1) * 10)%Q
      with (base * ((m + (1001 # 1000)) * 1000))%Q by ring.
    rewrite <- (Qmult_1_r base) at 1.
    apply Qmult_le_l; [exact Hpos|]. lra.
  - setoid_replace (base * (m + (1001 # 1000)) * (100 # 1))%Q
      with (base * ((m + (1001 # 1000)) * 100))%Q by ring.
    apply Qmult_le_l; [exact Hpos|]. lra.
Qed.

(** C7, as the code has it.  [processBlock] leaves every oscillator with
    the frequency it had: in each iteration the modulated frequency is
    set, the phase delta is recomputed from it, one sample is drawn and
    the unmodulated frequency is written back.  The phase delta is not
    recomputed after the write-back: the oscillator keeps the phase delta
    of the modulated frequency of its last sample. *)
Theorem processBlock_restores_frequency `{X : Collaborators}
  (V : Variables) (s : Synthesis) (buffer : AudioBuffer) :
  (banksAllocated V s ->
   (0 < numOscillators V -> 0 < numLFOs V) ->
   2 <= getNumChannels buffer ->
   exists s' out, processBlock V s buffer = Some (s', out))
  /\ (forall s' out,
        processBlock V s buffer = Some (s', out) ->
        map Oscillator.frequency (m_Oscillators s')
        = map Oscillator.frequency (m_Oscillators s))
  /\ (forall i block panValues k s' block' panValues' o,
        processOscillatorSample V i (s, block, panValues) k
        = Some (s', block', panValues') ->
        getAt (m_Oscillators s) i = Some o ->
        exists lfoIndex lfo,
          imod i (numLFOs V) = Some lfoIndex
          /\ getAt (m_LFOs s) lfoIndex = Some lfo
          /\ let modulator := snd (Oscillator.processSample lfo) in
             let modulated :=
               modulatedFrequencyOf (Oscillator.frequency o) i modulator in
             exists o',
               getAt (m_Oscillators s') i = Some o'
               /\ Oscillator.frequency o' = Oscillator.frequency o
               /\ Oscillator.phaseDelta o'
                  = Oscillator.phaseDeltaFor modulated
                      (Oscillator.sampleRate o)
               /\ Oscillator.phase o'
                  = Oscillator.wrap
                      (fadd (Oscillator.phase o)
                            (Oscillator.phaseDeltaFor modulated
                               (Oscillator.sampleRate o)))).
Proof.
  split; [apply processBlock_returns|]. split.
  - intros s' out E. apply processBlock_inv in E.
    destruct E as (s1 & block & E & _ & Ho & _).
    apply oscillatorLoop_frame in E.
    destruct E as (_ & _ & _ & _ & _ & _ & _ & _ & Hf).
    now rewrite Ho.
  - intros i block panValues k s' block' panValues' o E Eo.
    apply processOscillatorSample_inv in E.
    destruct E as (lfoIndex & lfo & o1 & gain & pan & grid'
                   & E1 & E2 & E3 & _ & _ & _ & -> & _ & _).
    rewrite Eo in E3. injection E3 as <-.
    exists lfoIndex, lfo. split; [exact E1|]. split; [exact E2|].
    cbv zeta. eexists. split.
    + cbn [m_Oscillators]. rewrite getAt_setAt.
      * rewrite Z.eqb_refl. reflexivity.
      * exact (getAt_range _ _ _ Eo).
    + repeat split; reflexivity.
Qed.

(** C4, as the code has it.  [prepareToPlay] validates nothing: it does
    not read the grid dimensions, and returns the same state whatever
    they are.  The helper methods run without a division by zero, without
    a non-finite result and inside the grid whenever the constants
    themselves give the grid at least one row and every oscillator at
    least one column. *)
Theorem helpers_defined_on_valid_configuration `{X : Collaborators}
  (V : Variables) :
  (forall rows columns s sampleRate blockSize,
     prepareToPlay (withDimensions V rows columns) s sampleRate blockSize
     = prepareToPlay V s sampleRate blockSize)
  /\ (0 < numRows V ->
      0 < numOscillators V <= numColumns V ->
      forall grid i,
        0 <= i < numOscillators V ->
        fadesInUnit V grid ->
        (exists gain, getOscillatorGain V grid i = Some gain /\ isFinite gain)
        /\ (exists pan, getOscillatorPan V grid i = Some pan /\ isFinite pan)
        /\ (exists grid', updateFadeValues V fadeDecay grid i = Some grid')
        /\ (forall column,
              visits V i column -> 0 <= column < numColumns V)).
Proof.
  split; [reflexivity|].
  intros HR HOC grid i Hi Hfades. split; [|split; [|split]].
  - destruct (getOscillatorGain_value V grid i HR ltac:(lia) Hi Hfades)
      as (s & d & E & _).
    eexists. split; [exact E|]. exact I.
  - destruct (getOscillatorPan_value V grid i HR Hi ltac:(lia) Hfades)
      as (s & d & E & _).
    eexists. split; [exact E|].
    destruct (fgt (fin (s / d)) (Z2F 1)); [exact I|].
    destruct (flt (fin (s / d)) (Z2F (-1))); exact I.
  - apply (helpers_return V fadeDecay grid i). lia.
  - intros column Hv. apply visits_iff in Hv; [|lia].
    apply (block_in_grid V i ltac:(lia) Hi). now apply intLoop_In.
Qed.

(** *** The statements at concrete inputs *)

Lemma halfFadedGrid_in_unit (V : Variables) : fadesInUnit V halfFadedGrid.
Proof.
  intros row column _ _. vm_compute. split; discriminate.
Defined.


Lemma gainToApply_compounds_density_witness :
  exists r,
    processOscillatorSample exampleVariables 0
      (preparedSynthesis, clearedBuffer 2 1, []) 0 = Some r
    /\ exists density,
         getOscillatorGain exampleVariables (m_Grid preparedSynthesis) 0
         = Some density.
Proof.
  destruct (processOscillatorSample exampleVariables 0
              (preparedSynthesis, clearedBuffer 2 1, []) 0)
    as [((s', block'), panValues')|] eqn:E.
  - exists (s', block', panValues'). split; [reflexivity|].
    destruct (proj1 gainToApply_compounds_density _ _ _ _ _ _ _ _ _ _ E)
      as (o & modulator & density & _ & Ed & _).
    exists density. exact Ed.
  - vm_compute in E. discriminate E.
Defined.

Lemma getOscillatorPan_clamped_witness :
  fadesInUnit exampleVariables topLitGrid
  /\ exists pan,
       getOscillatorPan exampleVariables topLitGrid 1 = Some pan
       /\ inRange (-1) 1 pan
       /\ pan = Z2F 1.
Proof.
  assert (Hunit : fadesInUnit exampleVariables topLitGrid).
  { intros row column _ _. unfold getCell, topLitGrid.
    destruct (row <? 1); vm_compute; split; discriminate. }
  split; [exact Hunit|].
  destruct (getOscillatorPan_clamped exampleVariables topLitGrid 1)
    as (pan & E & Hown & Hrange & _).
  - reflexivity.
  - simpl. lia.
  - simpl. lia.
  - exact Hunit.
  - exists pan. split; [exact E|]. split; [exact Hrange|].
    rewrite Hown. vm_compute. reflexivity.
Defined.

(** C5 fails as stated.  Two rows, two columns, one oscillator, fades 0.1
    and 0.3 in the top row and 0.3 and 0.1 in the bottom row, each the
    nearest single-precision number: the two rows have the same sum, and
    in exact arithmetic the pan is 0, but the source adds and subtracts
    column by column in single precision, [0.1 - 0.3 + 0.3 - 0.1], which
    leaves [- 2 ^ -27], and returns [- 2 ^ -28]. *)
Lemma balanced_block_pan_not_zero :
  fadesInUnit balancedVariables (idealised Binary32.balancedGrid)
  /\ (fadeSum (idealised Binary32.balancedGrid) (intLoop 0 1) (intLoop 0 2)
      == fadeSum (idealised Binary32.balancedGrid) (intLoop 1 2)
           (intLoop 0 2))%Q
  /\ getOscillatorPan balancedVariables (idealised Binary32.balancedGrid) 0
     = Some (Z2F 0)
  /\ Binary32.getOscillatorPan balancedVariables Binary32.balancedGrid 0
     = Some (SpecFloat.S754_finite true 8388608 (-51))
  /\ (Binary32.value (SpecFloat.S754_finite true 8388608 (-51))
      == - (1 # 268435456))%Q.
Proof.
  split.
  - intros row column _ _. unfold getCell, idealised, Binary32.balancedGrid.
    destruct (row =? column); vm_compute; split; discriminate.
  - split; [vm_compute; reflexivity|].
    split; [vm_compute; reflexivity|].
    split; vm_compute; reflexivity.
Qed.

Lemma column_blocks_partition_witness :
  (0 < numOscillators exampleVariables)%Z
  /\ (visits exampleVariables 1 3 <-> (1 * 2 <= 3 < (1 + 1) * 2)%Z)
  /\ gainAccumulated exampleVariables patchedGrid [2; 3] = Finite 4
  /\ getOscillatorGain exampleVariables patchedGrid 1 = Some (Z2F 1)
  /\ panAccumulated exampleVariables topLitGrid [0; 1] = Finite 2
  /\ getOscillatorPan exampleVariables topLitGrid 0 = Some (Z2F 1).
Proof.
  split; [reflexivity|].
  destruct (column_blocks_partition exampleVariables)
    as (Hvisits & Hread & _); [reflexivity|].
  split; [exact (Hvisits 1 3)|].
  split; [vm_compute; reflexivity|]. split.
  - rewrite (proj1 (Hread patchedGrid 1 ltac:(cbn; lia))).
    vm_compute. reflexivity.
  - split; [vm_compute; reflexivity|].
    rewrite (proj2 (Hread topLitGrid 0 ltac:(cbn; lia))).
    vm_compute. reflexivity.
Defined.


Lemma exampleSynthesis_banks :
  banksAllocated exampleVariables exampleSynthesis.
Proof. apply construct_banks; cbn; lia. Defined.

Lemma prepareToPlay_frequency_series_witness :
  banksAllocated exampleVariables exampleSynthesis
  /\ exists s',
       prepareToPlay exampleVariables exampleSynthesis (Finite 44100) 512
       = Some s'
       /\ exists a b,
            getAt (m_Oscillators s') 0 = Some a
            /\ getAt (m_Oscillators s') 1 = Some b
            /\ Oscillator.getFrequency a = Finite 100
            /\ Oscillator.getFrequency b = Finite 150.
Proof.
  split; [apply exampleSynthesis_banks|].
  destruct (prepareToPlay_frequency_series exampleVariables exampleSynthesis
              (Finite 44100) 512)
    as (s' & E & H0 & Hnext).
  - apply exampleSynthesis_banks.
  - simpl. lia.
  - exists s'. split; [exact E|].
    destruct (Hnext 0) as (a & b & Ea & Eb & Hb); [simpl; lia|].
    destruct H0 as (o & Eo & Ho); [reflexivity|].
    exists a, b. split; [exact Ea|]. split; [exact Eb|].
    assert (Hao : a = o) by congruence.
    assert (Ha : Oscillator.getFrequency a = Finite 100)
      by (rewrite Hao; exact Ho).
    split; [exact Ha|]. rewrite Hb, Ha. reflexivity.
Defined.

Lemma prepareToPlay_keeps_reverb_parameters_witness :
  banksAllocated exampleVariables exampleSynthesis
  /\ exists s',
       prepareToPlay exampleVariables exampleSynthesis (Finite 44100) 512
       = Some s'
       /\ getParameters (m_Reverb s') = defaultReverbParameters.
Proof.
  split; [apply exampleSynthesis_banks|].
  destruct (prepareToPlay_keeps_reverb_parameters exampleVariables
              exampleSynthesis (Finite 44100) 512) as (Hreturns & Hkeeps).
  destruct Hreturns as (s' & E).
  - apply exampleSynthesis_banks.
  - simpl. lia.
  - exists s'. split; [exact E|].
    destruct (Hkeeps s' E) as (Hp & _). exact Hp.
Defined.

Lemma processBlock_resets_reverb_witness :
  banksAllocated exampleVariables exampleSynthesis
  /\ (2 <= getNumChannels exampleBuffer)%Z
  /\ exists s' out,
       processBlock exampleVariables exampleSynthesis exampleBuffer
       = Some (s', out)
       /\ reverbLines (m_Reverb s') = [].
Proof.
  split; [apply exampleSynthesis_banks|].
  split; [vm_compute; discriminate|].
  destruct (processBlock_resets_reverb exampleVariables exampleSynthesis
              exampleBuffer) as (Hreturns & Hresets).
  destruct Hreturns as (s' & out & E).
  - apply exampleSynthesis_banks.
  - intros _. reflexivity.
  - vm_compute. discriminate.
  - exists s', out. split; [exact E|].
    destruct (Hresets s' out E) as (_ & Hlines & _). exact Hlines.
Defined.

(** C3 fails as stated.  With a cutoff constant of 1000 Hz at 44100 Hz,
    the first [processBlock] after [prepareToPlay] hands both filters a
    low-pass frequency above 100 kHz, far beyond half the sample rate:
    nothing clamps it. *)
Lemma cutoff_beyond_nyquist :
  exists s1 s2 out c,
    prepareToPlay exampleVariables exampleSynthesis (Finite 44100) 1
    = Some s1
    /\ processBlock exampleVariables s1 exampleBuffer = Some (s2, out)
    /\ coefficients (m_FilterLeft s2) = Some c
    /\ lowPassSampleRate c = Finite 44100
    /\ fgt (lowPassFrequency c) (Finite 100000) = true
    /\ stableCutoff (lowPassSampleRate c) (lowPassFrequency c) = false.
Proof.
  do 4 eexists.
  split; [vm_compute; reflexivity|].
  split; [vm_compute; reflexivity|].
  split; [vm_compute; reflexivity|].
  repeat split; vm_compute; reflexivity.
Qed.

Lemma processBlock_cutoff_unclamped_witness :
  banksAllocated exampleVariables exampleSynthesis
  /\ exists s' out c,
       processBlock exampleVariables exampleSynthesis exampleBuffer
       = Some (s', out)
       /\ coefficients (m_FilterLeft s') = Some c
       /\ inRange (1000 / 10) (1000 * (2001#10)) (lowPassFrequency c).
Proof.
  split; [apply exampleSynthesis_banks|].
  destruct (processBlock_cutoff_unclamped exampleVariables exampleSynthesis
              exampleBuffer) as (Hreturns & Hcutoff).
  destruct Hreturns as (s' & out & E).
  - apply exampleSynthesis_banks.
  - intros _. reflexivity.
  - vm_compute. discriminate.
  - destruct (Hcutoff s' out E) as (HL & _ & Hrange).
    exists s', out. eexists. split; [exact E|]. split; [exact HL|].
    apply (Hrange 1000%Q).
    + vm_compute. reflexivity.
    + reflexivity.
    + vm_compute. split; discriminate.
Defined.

(** C4 fails as stated.  With two columns for four oscillators,
    [numOscillators] does not divide [numColumns]; [prepareToPlay]
    accepts the configuration all the same, and in the next
    [processBlock] the pan of an oscillator is 0 / 0: the panner receives
    a NaN. *)
Lemma crowded_configuration_accepted :
  ~ (numOscillators crowdedVariables | numColumns crowdedVariables)
  /\ exists s1 s2 out,
       prepareToPlay crowdedVariables crowdedSynthesis (Finite 44100) 1
       = Some s1
       /\ getOscillatorPan crowdedVariables (m_Grid s1) 0 = Some NaN
       /\ processBlock crowdedVariables s1 exampleBuffer = Some (s2, out)
       /\ m_Panner s2 = [NaN].
Proof.
  split.
  - intros (k & Hk). simpl in Hk. lia.
  - do 3 eexists.
    split; [vm_compute; reflexivity|].
    split; [vm_compute; reflexivity|].
    split; vm_compute; reflexivity.
Qed.

Lemma helpers_defined_on_valid_configuration_witness :
  fadesInUnit exampleVariables halfFadedGrid
  /\ (exists gain,
        getOscillatorGain exampleVariables halfFadedGrid 0 = Some gain
        /\ isFinite gain)
  /\ (exists pan,
        getOscillatorPan exampleVariables halfFadedGrid 0 = Some pan
        /\ isFinite pan).
Proof.
  split; [apply halfFadedGrid_in_unit|].
  destruct (helpers_defined_on_valid_configuration
              (X := referenceCollaborators) exampleVariables)
    as (_ & Hsafe).
  assert (H1 : 0 < numRows exampleVariables) by reflexivity.
  assert (H2 : 0 < numOscillators exampleVariables
               <= numColumns exampleVariables)
    by (cbn; lia).
  assert (H3 : 0 <= 0 < numOscillators exampleVariables) by (cbn; lia).
  destruct (Hsafe H1 H2 halfFadedGrid 0 H3
              (halfFadedGrid_in_unit exampleVariables))
    as (Hgain & Hpan & _).
  split; [exact Hgain|exact Hpan].
Defined.

(** C7 fails as stated.  After [prepareToPlay] and one [processBlock],
    oscillator 0 has its unmodulated frequency of 100 Hz again, but its
    phase delta is still the one computed from the modulated frequency,
    not the one of 100 Hz. *)
Lemma modulated_phase_delta_persists :
  exists s1 s2 out o,
    prepareToPlay exampleVariables exampleSynthesis (Finite 44100) 1
    = Some s1
    /\ processBlock exampleVariables s1 exampleBuffer = Some (s2, out)
    /\ getAt (m_Oscillators s2) 0 = Some o
    /\ Oscillator.frequency o = Finite 100
    /\ Oscillator.phaseDeltaFor (Oscillator.frequency o)
         (Oscillator.sampleRate o) = Finite (1#441)
    /\ Oscillator.phaseDelta o <> Finite (1#441).
Proof.
  do 4 eexists.
  split; [vm_compute; reflexivity|].
  split; [vm_compute; reflexivity|].
  split; [vm_compute; reflexivity|].
  split; [reflexivity|]. split; [vm_compute; reflexivity|].
  vm_compute. discriminate.
Qed.

Lemma preparedSynthesis_eq :
  prepareToPlay exampleVariables exampleSynthesis (Finite 44100) 512
  = Some preparedSynthesis.
Proof. vm_compute. reflexivity. Defined.

Lemma preparedSynthesis_banks :
  banksAllocated exampleVariables preparedSynthesis.
Proof. split; vm_compute; reflexivity. Defined.

Lemma processBlock_restores_frequency_witness :
  banksAllocated exampleVariables preparedSynthesis
  /\ (exists s' out,
        processBlock exampleVariables preparedSynthesis twoSampleBuffer
        = Some (s', out)
        /\ map Oscillator.frequency (m_Oscillators s')
           = [Finite 100; Finite 150])
  /\ exists lfo o s' block' panValues' o',
       getAt (m_LFOs preparedSynthesis) 0 = Some lfo
       /\ getAt (m_Oscillators preparedSynthesis) 0 = Some o
       /\ Oscillator.frequency o = Finite 100
       /\ modulatedFrequencyOf (Oscillator.frequency o) 0
            (snd (@Oscillator.processSample referenceCollaborators lfo))
          <> Finite 100
       /\ processOscillatorSample exampleVariables 0
            (preparedSynthesis, clearedBuffer 2 2, []) 0
          = Some (s', block', panValues')
       /\ getAt (m_Oscillators s') 0 = Some o'
       /\ Oscillator.frequency o' = Finite 100
       /\ Oscillator.phaseDelta o'
          = Oscillator.phaseDeltaFor
              (modulatedFrequencyOf (Oscillator.frequency o) 0
                 (snd (@Oscillator.processSample referenceCollaborators
                         lfo)))
              (Oscillator.sampleRate o).
Proof.
  split; [apply preparedSynthesis_banks|].
  destruct (processBlock_restores_frequency exampleVariables
              preparedSynthesis twoSampleBuffer)
    as (Hreturns & Hrestores & Hsample).
  split.
  - destruct Hreturns as (s' & out & E).
    + apply preparedSynthesis_banks.
    + intros _. reflexivity.
    + vm_compute. discriminate.
    + exists s', out. split; [exact E|].
      rewrite (Hrestores s' out E). vm_compute. reflexivity.
  - destruct (processOscillatorSample exampleVariables 0
                (preparedSynthesis, clearedBuffer 2 2, []) 0)
      as [[[s' block'] panValues']|] eqn:E;
      [|vm_compute in E; discriminate E].
    destruct (getAt (m_Oscillators preparedSynthesis) 0) as [o|] eqn:Eo;
      [|vm_compute in Eo; discriminate Eo].
    destruct (Hsample 0 _ _ 0 s' block' panValues' o E Eo)
      as (lfoIndex & lfo & Ei & El & o' & Eo' & Hf & Hd & _).
    vm_compute in Ei. injection Ei as <-.
    exists lfo, o, s', block', panValues', o'.
    split; [exact El|]. split; [reflexivity|].
    vm_compute in Eo, El. injection Eo as <-. injection El as <-.
    split; [reflexivity|]. split; [vm_compute; discriminate|].
    split; [reflexivity|]. split; [exact Eo'|].
    split; [exact Hf|exact Hd].
Defined.

(** *** The frequency series *)

Lemma inject_Z_nonzero (z : Z) : z <> 0 -> ~ (inject_Z z == 0)%Q.
Proof.
  intros Hz E. apply Hz. change 0%Q with (inject_Z 0) in E.
  now apply inject_Z_injective.
Qed.

Lemma Z2F_succ (i : Z) : fadd (Z2F i) (Z2F 1) = Z2F (i + 1).
Proof. apply fadd_Z2F. Qed.

Lemma nextFrequency_value (V : Variables) (f : float) (i : Z) (q h : Q) :
  0 <= i ->
  hasValue f q ->
  hasValue (inharmonicity V) h ->
  hasValue (nextFrequency V f i) (q + q / inject_Z (i + 1) * h)%Q.
Proof.
  intros Hi Hf Hh. unfold nextFrequency. rewrite Z2F_succ.
  destruct f as [a|]; [|contradiction].
  destruct (inharmonicity V) as [b|]; [|contradiction].
  cbn [hasValue] in Hf, Hh.
  assert (Hn : ~ (inject_Z (i + 1) == 0)%Q)
    by (apply inject_Z_nonzero; lia).
  unfold Z2F. rewrite (fdiv_finite a (inject_Z (i + 1)) Hn).
  unfold fmul, fadd, fin, hasValue.
  rewrite !Qred_correct, Hf, Hh. reflexivity.
Qed.

(** With inharmonicity 1 the series is the harmonic one. *)
(** With a positive start and a non-negative inharmonicity the series
    stays positive and never decreases. *)
Lemma frequencyFrom_grows (V : Variables) (h : Q) (n : nat) :
  forall (f : float) (i : Z) (q : Q),
    0 <= i ->
    hasValue (inharmonicity V) h ->
    (0 <= h)%Q ->
    hasValue f q ->
    (0 < q)%Q ->
    exists a b,
      hasValue (frequencyFrom V f i n) a
      /\ hasValue (frequencyFrom V f i (S n)) b
      /\ (q <= a)%Q /\ (a <= b)%Q /\ ((0 < h)%Q -> (a < b)%Q).
Proof.
  assert (Hstep : forall (f : float) (i : Z) (q : Q),
             0 <= i -> hasValue (inharmonicity V) h -> (0 <= h)%Q ->
             hasValue f q -> (0 < q)%Q ->
             exists b, hasValue (nextFrequency V f i) b
                       /\ (q <= b)%Q /\ ((0 < h)%Q -> (q < b)%Q)).
  { intros f i q Hi Hh Hh0 Hf Hq.
    exists (q + q / inject_Z (i + 1) * h)%Q.
    split; [now apply nextFrequency_value|].
    assert (Hpos : (0 < inject_Z (i + 1))%Q).
    { change 0%Q with (inject_Z 0). rewrite <- Zlt_Qlt. lia. }
    assert (Hd : (0 < q / inject_Z (i + 1))%Q).
    { apply Qlt_shift_div_l; [exact Hpos|]. now rewrite Qmult_0_l. }
    split.
    - assert (0 <= q / inject_Z (i + 1) * h)%Q
        by (apply Qmult_le_0_compat; [apply Qlt_le_weak|]; assumption).
      lra.
    - intros Hh1.
      assert (0 < q / inject_Z (i + 1) * h)%Q
        by (apply Qmult_lt_0_compat; assumption).
      lra. }
  induction n as [|n IH]; intros f i q Hi Hh Hh0 Hf Hq.
  - destruct (Hstep f i q Hi Hh Hh0 Hf Hq) as (b & Hb & Hle & Hlt).
    exists q, b. cbn [frequencyFrom].
    split; [exact Hf|]. split; [exact Hb|].
    split; [apply Qle_refl|]. split; assumption.
  - destruct (Hstep f i q Hi Hh Hh0 Hf Hq) as (b & Hb & Hle & Hlt).
    destruct (IH (nextFrequency V f i) (i + 1) b) as (a' & b' & Ha & Hb' & H1 & H2 & H3);
      [lia|exact Hh|exact Hh0|exact Hb|lra|].
    exists a', b'. split; [exact Ha|]. split; [exact Hb'|].
    split; [lra|]. split; assumption.
Qed.

Lemma fdiv_Z2F_exact (a b : Z) :
  b <> 0 -> fdiv (Z2F (b * a)) (Z2F b) = Z2F a.
Proof.
  intros Hb. unfold Z2F.
  rewrite fdiv_finite by (now apply inject_Z_nonzero).
  apply fin_inject_Z. rewrite inject_Z_mult. field.
  now apply inject_Z_nonzero.
Qed.

(** With an inharmonicity of 1 the series runs through the whole multiples
    of its first term. *)
Lemma frequencyFrom_whole (V : Variables) (start : Z) (n : nat) :
  inharmonicity V = Z2F 1 ->
  forall i,
    0 <= i ->
    frequencyFrom V (Z2F ((i + 1) * start)) i n
    = Z2F ((i + Z.of_nat n + 1) * start).
Proof.
  intros Hone. induction n as [|n IH]; intros i Hi.
  - cbn [frequencyFrom]. now rewrite Z.add_0_r.
  - cbn [frequencyFrom]. unfold nextFrequency.
    rewrite Hone, fadd_Z2F, fdiv_Z2F_exact, fmul_Z2F, fadd_Z2F by lia.
    replace ((i + 1) * start + start * 1) with ((i + 1 + 1) * start) by ring.
    rewrite IH by lia. f_equal. lia.
Qed.

(** X1.  With an inharmonicity of 1 and a whole start frequency,
    [prepareToPlay] tunes the bank to the harmonic series: oscillator [k]
    gets exactly [k + 1] times the start frequency, and the quotient
    [frequency / (k + 1)] of the recurrence is the start frequency
    itself.  Every number of the recurrence is then whole, and up to
    [2 ^ 24] single precision holds each of them exactly. *)
Theorem prepareToPlay_harmonic_series `{X : Collaborators} (V : Variables)
  (s : Synthesis) (sampleRate : float) (blockSize : Z) (start : Z) :
  banksAllocated V s ->
  numLFOs V <= Z.of_nat (length (frequencyLFO V)) ->
  startFrequency V = Z2F start ->
  inharmonicity V = Z2F 1 ->
  0 < start ->
  numOscillators V * start <= 2 ^ 24 ->
  exists s',
    prepareToPlay V s sampleRate blockSize = Some s'
    /\ forall k,
         0 <= k < numOscillators V ->
         exists o,
           getAt (m_Oscillators s') k = Some o
           /\ Oscillator.getFrequency o = Z2F ((k + 1) * start)
           /\ 0 < (k + 1) * start <= 2 ^ 24
           /\ fdiv (Oscillator.getFrequency o) (fadd (Z2F k) (Z2F 1))
              = Z2F start.
Proof.
  intros Hbanks Htable Hstart Hone Hpos Hbound.
  destruct (prepareToPlay_returns V s sampleRate blockSize Hbanks Htable)
    as (oscillators & lfos & E & _ & _ & Hget).
  eexists. split; [exact E|]. cbn [m_Oscillators].
  intros k Hk. eexists. split; [apply Hget; exact Hk|].
  cbn [Oscillator.getFrequency Oscillator.prepareToPlay Oscillator.frequency].
  assert (Hf : frequencyFrom V (startFrequency V) 0 (Z.to_nat k)
               = Z2F ((k + 1) * start)).
  { rewrite Hstart.
    replace start with ((0 + 1) * start) at 1 by ring.
    rewrite (frequencyFrom_whole V start (Z.to_nat k) Hone 0) by lia.
    f_equal. lia. }
  rewrite Hf. split; [reflexivity|]. split; [nia|].
  rewrite fadd_Z2F. apply fdiv_Z2F_exact. lia.
Qed.

(** X2.  With a positive start frequency and a non-negative inharmonicity,
    the frequencies [prepareToPlay] assigns are finite, at least the start
    frequency, and never decrease from one oscillator to the next; they
    increase strictly when the inharmonicity is positive. *)
Theorem prepareToPlay_frequencies_grow `{X : Collaborators} (V : Variables)
  (s : Synthesis) (sampleRate : float) (blockSize : Z) (start h : Q) :
  banksAllocated V s ->
  numLFOs V <= Z.of_nat (length (frequencyLFO V)) ->
  hasValue (startFrequency V) start ->
  (0 < start)%Q ->
  hasValue (inharmonicity V) h ->
  (0 <= h)%Q ->
  exists s',
    prepareToPlay V s sampleRate blockSize = Some s'
    /\ forall k,
         0 <= k < numOscillators V - 1 ->
         exists o o' a b,
           getAt (m_Oscillators s') k = Some o
           /\ getAt (m_Oscillators s') (k + 1) = Some o'
           /\ hasValue (Oscillator.getFrequency o) a
           /\ hasValue (Oscillator.getFrequency o') b
           /\ (start <= a)%Q /\ (a <= b)%Q /\ ((0 < h)%Q -> (a < b)%Q).
Proof.
  intros Hbanks Htable Hstart Hpos Hh Hh0.
  destruct (prepareToPlay_returns V s sampleRate blockSize Hbanks Htable)
    as (oscillators & lfos & E & _ & _ & Hget).
  eexists. split; [exact E|]. cbn [m_Oscillators].
  intros k Hk.
  destruct (frequencyFrom_grows V h (Z.to_nat k) (startFrequency V) 0 start)
    as (a & b & Ha & Hb & H1 & H2 & H3); try assumption; [lia|].
  eexists. eexists. exists a, b.
  split; [apply Hget; lia|]. split; [apply Hget; lia|].
  cbn [Oscillator.getFrequency Oscillator.prepareToPlay Oscillator.frequency].
  replace (Z.to_nat (k + 1)) with (S (Z.to_nat k)) by lia.
  repeat split; assumption.
Qed.

(** *** prepareToPlay, further *)

Lemma getAt_ext {A : Type} (l1 l2 : list A) :
  length l1 = length l2 ->
  (forall k, 0 <= k < Z.of_nat (length l1) -> getAt l1 k = getAt l2 k) ->
  l1 = l2.
Proof.
  intros Hlen H. apply nth_error_ext. intros n.
  destruct (Nat.lt_ge_cases n (length l1)) as [Hn|Hn].
  - specialize (H (Z.of_nat n) ltac:(lia)). unfold getAt in H.
    destruct (Z.ltb_spec (Z.of_nat n) 0); [lia|].
    now rewrite Nat2Z.id in H.
  - rewrite (proj2 (nth_error_None l1 n)) by lia.
    rewrite (proj2 (nth_error_None l2 n)) by lia. reflexivity.
Qed.

Lemma prepareLFO_loop_get `{X : Collaborators} (V : Variables)
  (sampleRate : float) (blockSize : Z) (n : nat) :
  forall (lo : Z) (lfos lfos' : list Oscillator.t),
    0 <= lo ->
    lo + Z.of_nat n <= Z.of_nat (length lfos) ->
    foldM (prepareLFO V sampleRate blockSize)
          (intLoop lo (lo + Z.of_nat n)) lfos = Some lfos' ->
    forall k,
      getAt lfos' k
      = if (lo <=? k) && (k <? lo + Z.of_nat n)
        then match getAt (frequencyLFO V) k with
             | Some f =>
                 Some (Oscillator.prepareToPlay f sampleRate blockSize)
             | None => None
             end
        else getAt lfos k.
Proof.
  induction n as [|n IH]; intros lo lfos lfos' Hlo Hlen E k.
  - rewrite intLoop_nil in E by lia. injection E as <-.
    destruct (Z.leb_spec lo k); destruct (Z.ltb_spec k (lo + Z.of_nat 0));
      try reflexivity; lia.
  - rewrite intLoop_cons in E by lia. cbn [foldM] in E.
    unfold prepareLFO at 1 in E.
    destruct (getAt lfos lo) as [o|] eqn:Eo; [|discriminate].
    cbn [bind] in E.
    destruct (getAt (frequencyLFO V) lo) as [f|] eqn:Ef; [|discriminate].
    cbn [bind] in E.
    replace (lo + Z.of_nat (S n)) with (lo + 1 + Z.of_nat n) in * by lia.
    rewrite (IH (lo + 1) _ lfos') with (3 := E);
      [|lia|rewrite setAt_length; lia].
    rewrite getAt_setAt by lia.
    destruct (Z.leb_spec (lo + 1) k);
      destruct (Z.ltb_spec k (lo + 1 + Z.of_nat n));
      destruct (Z.leb_spec lo k);
      destruct (Z.eqb_spec lo k); cbn [andb]; try lia; try reflexivity.
    subst k. now rewrite Ef.
Qed.

(** The state [prepareToPlay] returns, when it returns. *)
Lemma prepareToPlay_state `{X : Collaborators} (V : Variables)
  (s s' : Synthesis) (sampleRate : float) (blockSize : Z) :
  banksAllocated V s ->
  prepareToPlay V s sampleRate blockSize = Some s' ->
  m_Grid s' = m_Grid s
  /\ length (m_Oscillators s') = length (m_Oscillators s)
  /\ length (m_LFOs s') = length (m_LFOs s)
  /\ (forall k, 0 <= k < numOscillators V ->
        getAt (m_Oscillators s') k
        = Some (Oscillator.prepareToPlay
                  (frequencyFrom V (startFrequency V) 0 (Z.to_nat k))
                  sampleRate blockSize))
  /\ (forall k, 0 <= k < numLFOs V ->
        getAt (m_LFOs s') k
        = match getAt (frequencyLFO V) k with
          | Some f => Some (Oscillator.prepareToPlay f sampleRate blockSize)
          | None => None
          end)
  /\ m_FilterModulator s'
     = Oscillator.prepareToPlay (Finite (1#10)) sampleRate blockSize
  /\ m_FilterLeft s'
     = setCoefficients (makeLowPass sampleRate (filterCutoff V))
                       (m_FilterLeft s)
  /\ m_FilterRight s'
     = setCoefficients (makeLowPass sampleRate (filterCutoff V))
                       (m_FilterRight s)
  /\ m_Panner s' = m_Panner s
  /\ m_Reverb s' = reverbReset (m_Reverb s)
  /\ m_BlockSize s' = blockSize
  /\ m_SampleRate s' = sampleRate.
Proof.
  intros (Hosc & Hlfo) E. unfold prepareToPlay in E.
  destruct (prepareOscillator_loop V sampleRate blockSize
              (length (m_Oscillators s)) 0 (m_Oscillators s)
              (startFrequency V))
    as (oscillators & E1 & L1 & G1); [lia|lia|].
  rewrite Z.add_0_l in E1, G1. rewrite Hosc in E1, G1.
  rewrite E1 in E. cbn [bind] in E.
  destruct (foldM (prepareLFO V sampleRate blockSize)
              (intLoop 0 (numLFOs V)) (m_LFOs s)) as [lfos|] eqn:E2;
    [|discriminate].
  cbn [bind] in E. injection E as <-.
  cbn [m_Grid m_Oscillators m_LFOs m_FilterModulator m_FilterLeft
       m_FilterRight m_Panner m_Reverb m_BlockSize m_SampleRate].
  assert (E2' := E2). rewrite <- Hlfo in E2'.
  pose proof (prepareLFO_loop_get V sampleRate blockSize
                (length (m_LFOs s)) 0 (m_LFOs s) lfos ltac:(lia) ltac:(lia)
                E2') as G2.
  assert (L2 : length lfos = length (m_LFOs s)).
  { clear G2 E2'. revert E2. generalize (intLoop 0 (numLFOs V)).
    intros l. generalize (m_LFOs s). induction l as [|a l IH]; intros l0 E2.
    - now injection E2 as <-.
    - cbn [foldM] in E2. unfold prepareLFO at 1 in E2.
      destruct (getAt l0 a); [|discriminate]. cbn [bind] in E2.
      destruct (getAt (frequencyLFO V) a); [|discriminate].
      cbn [bind] in E2. apply IH in E2. now rewrite setAt_length in E2. }
  repeat split; try reflexivity; try assumption.
  - intros k Hk. rewrite G1, Z.sub_0_r.
    destruct (Z.leb_spec 0 k); destruct (Z.ltb_spec k (numOscillators V));
      try lia.
    reflexivity.
  - intros k Hk. rewrite G2, Z.add_0_l, Hlfo.
    destruct (Z.leb_spec 0 k); destruct (Z.ltb_spec k (numLFOs V)); try lia.
    reflexivity.
Qed.

(** X3.  After [prepareToPlay (sampleRate, blockSize)] every LFO [k] is
    prepared, phase at zero, at the frequency [frequencyLFO[k]], the filter
    modulator at 0.1 Hz, both channel filters have the low-pass
    coefficients for [filterCutoff] and keep their running state,
    [getSampleRate] and [getBlockSize] return the two arguments, and the
    grid and the panner are untouched. *)
Theorem prepareToPlay_postcondition `{X : Collaborators} (V : Variables)
  (s : Synthesis) (sampleRate : float) (blockSize : Z) :
  banksAllocated V s ->
  numLFOs V <= Z.of_nat (length (frequencyLFO V)) ->
  exists s',
    prepareToPlay V s sampleRate blockSize = Some s'
    /\ (forall k, 0 <= k < numLFOs V ->
          exists f,
            getAt (frequencyLFO V) k = Some f
            /\ getAt (m_LFOs s') k
               = Some (Oscillator.mk f (Z2F 0)
                         (Oscillator.phaseDeltaFor f sampleRate)
                         sampleRate blockSize))
    /\ m_FilterModulator s'
       = Oscillator.mk (Finite (1#10)) (Z2F 0)
           (Oscillator.phaseDeltaFor (Finite (1#10)) sampleRate)
           sampleRate blockSize
    /\ coefficients (m_FilterLeft s')
       = Some (makeLowPass sampleRate (filterCutoff V))
    /\ coefficients (m_FilterRight s')
       = Some (makeLowPass sampleRate (filterCutoff V))
    /\ filterState (m_FilterLeft s') = filterState (m_FilterLeft s)
    /\ filterState (m_FilterRight s') = filterState (m_FilterRight s)
    /\ getSampleRate s' = sampleRate
    /\ getBlockSize s' = blockSize
    /\ m_Grid s' = m_Grid s
    /\ m_Panner s' = m_Panner s.
Proof.
  intros Hbanks Htable.
  destruct (prepareToPlay_returns V s sampleRate blockSize Hbanks Htable)
    as (oscillators & lfos & E & _).
  eexists. split; [exact E|].
  destruct (prepareToPlay_state V s _ sampleRate blockSize Hbanks E)
    as (Hg & _ & _ & _ & Hl & Hm & HL & HR & Hp & _ & Hb & Hs).
  split.
  - intros k Hk.
    destruct (getAt_Some (frequencyLFO V) k ltac:(lia)) as (f & Ef).
    exists f. split; [exact Ef|]. rewrite (Hl k Hk), Ef. reflexivity.
  - rewrite Hm, HL, HR. unfold getSampleRate, getBlockSize.
    repeat split; try reflexivity; assumption.
Qed.

(** X4.  A later [prepareToPlay] overrides an earlier one completely:
    preparing again, with any sample rate and block size, gives the state
    that preparing once with them gives.  In particular preparing twice
    with the same arguments is the same as preparing once. *)
Theorem prepareToPlay_overrides `{X : Collaborators} (V : Variables)
  (s s1 : Synthesis) (sampleRate sampleRate' : float)
  (blockSize blockSize' : Z) :
  banksAllocated V s ->
  numLFOs V <= Z.of_nat (length (frequencyLFO V)) ->
  prepareToPlay V s sampleRate blockSize = Some s1 ->
  prepareToPlay V s1 sampleRate' blockSize'
  = prepareToPlay V s sampleRate' blockSize'.
Proof.
  intros Hbanks Htable E1.
  destruct (prepareToPlay_state V s s1 sampleRate blockSize Hbanks E1)
    as (Hg & Lo & Ll & _ & _ & _ & HL & HR & Hp & Hr & _).
  assert (Hbanks1 : banksAllocated V s1).
  { destruct Hbanks as (Ho & Hl). split; congruence. }
  destruct (prepareToPlay_returns V s sampleRate' blockSize' Hbanks Htable)
    as (oa & la & Ea & _).
  destruct (prepareToPlay_returns V s1 sampleRate' blockSize' Hbanks1 Htable)
    as (ob & lb & Eb & _).
  destruct (prepareToPlay_state V s _ sampleRate' blockSize' Hbanks Ea)
    as (_ & Loa & Lla & Goa & Gla & _).
  destruct (prepareToPlay_state V s1 _ sampleRate' blockSize' Hbanks1 Eb)
    as (_ & Lob & Llb & Gob & Glb & _).
  cbn [m_Oscillators m_LFOs] in *.
  destruct Hbanks as (Ho & Hl).
  assert (Eo : ob = oa).
  { apply getAt_ext; [congruence|]. intros k Hk.
    rewrite Gob, Goa by lia. reflexivity. }
  assert (El : lb = la).
  { apply getAt_ext; [congruence|]. intros k Hk.
    rewrite Glb, Gla by lia. reflexivity. }
  rewrite Ea, Eb, Eo, El, Hg, Hp, HL, HR, Hr. reflexivity.
Qed.

(** X6.  An engine built by the constructor can be prepared and can then
    process a stereo buffer without a trap, whatever the grid, provided
    the counts are not negative, the table of LFO frequencies is long
    enough and there is an LFO as soon as there is an oscillator. *)
Theorem constructed_engine_runs `{X : Collaborators} (V : Variables)
  (grid : Grid) (sampleRate : float) (blockSize : Z) (buffer : AudioBuffer) :
  0 <= numOscillators V ->
  0 <= numLFOs V <= Z.of_nat (length (frequencyLFO V)) ->
  (0 < numOscillators V -> 0 < numLFOs V) ->
  2 <= getNumChannels buffer ->
  exists s1 s2 out,
    prepareToPlay V (construct V grid) sampleRate blockSize = Some s1
    /\ processBlock V s1 buffer = Some (s2, out).
Proof.
  intros HO HL HOL Hch.
  pose proof (construct_banks V grid HO ltac:(lia)) as Hbanks.
  destruct (prepareToPlay_returns V (construct V grid) sampleRate blockSize
              Hbanks ltac:(lia)) as (oscillators & lfos & E & Lo & Ll & _).
  assert (Hbanks1 : banksAllocated V
            (mkSynthesis (m_Grid (construct V grid)) oscillators lfos
               (Oscillator.prepareToPlay (Finite (1#10)) sampleRate blockSize)
               (setCoefficients (makeLowPass sampleRate (filterCutoff V))
                                (m_FilterLeft (construct V grid)))
               (setCoefficients (makeLowPass sampleRate (filterCutoff V))
                                (m_FilterRight (construct V grid)))
               (m_Panner (construct V grid))
               (reverbReset (m_Reverb (construct V grid)))
               blockSize sampleRate)).
  { destruct Hbanks as (Ho & Hl). split; cbn [m_Oscillators m_LFOs];
      congruence. }
  destruct (processBlock_returns V _ buffer Hbanks1 HOL Hch)
    as (s2 & out & E2).
  eexists. exists s2, out. split; [exact E|exact E2].
Qed.

(** *** Frequency modulation and spectral decay *)

(** X7.  The frequency modulation is shallow and shrinks with the
    oscillator index: for a positive frequency and a modulator sample in
    [[-1, 1]] the modulated frequency stays within
    [frequency / (5 * (index + 1))] of the frequency, hence between 4/5
    and 6/5 of it: it is never zero or negative. *)
Theorem modulatedFrequencyOf_bounds (currentFrequency modulator : float)
  (oscillatorIndex : Z) (q : Q) :
  0 <= oscillatorIndex ->
  hasValue currentFrequency q ->
  (0 < q)%Q ->
  inRange (-1) 1 modulator ->
  let depth := (q / inject_Z ((oscillatorIndex + 1) * 5))%Q in
  inRange (q - depth) (q + depth)
          (modulatedFrequencyOf currentFrequency oscillatorIndex modulator)
  /\ inRange ((4#5) * q) ((6#5) * q)
             (modulatedFrequencyOf currentFrequency oscillatorIndex modulator).
Proof.
  intros Hi Hf Hq Hm depth.
  destruct currentFrequency as [a|]; [|contradiction].
  destruct modulator as [m|]; [|contradiction].
  cbn [hasValue inRange] in Hf, Hm. destruct Hm as (Hlo & Hhi).
  unfold modulatedFrequencyOf, Z2F.
  assert (Hd : (0 < inject_Z ((oscillatorIndex + 1) * 5))%Q).
  { change 0%Q with (inject_Z 0). rewrite <- Zlt_Qlt. lia. }
  rewrite fdiv_finite by lra.
  unfold fmul, fadd, fin, inRange. rewrite !Qred_correct, Hf. fold depth.
  assert (Hdepth : (0 < depth)%Q).
  { unfold depth. apply Qlt_shift_div_l; [exact Hd|]. now rewrite Qmult_0_l. }
  assert (H5 : (depth <= q * (1#5))%Q).
  { unfold depth. apply Qle_shift_div_r; [exact Hd|].
    rewrite inject_Z_mult, inject_Z_plus.
    change (inject_Z 5) with 5%Q. change (inject_Z 1) with 1%Q.
    assert (0 <= inject_Z oscillatorIndex)%Q
      by (change 0%Q with (inject_Z 0); rewrite <- Zle_Qle; exact Hi).
    assert (0 <= q * inject_Z oscillatorIndex)%Q
      by (apply Qmult_le_0_compat; [lra|assumption]).
    lra. }
  assert (Hup : (depth * m <= depth)%Q).
  { rewrite <- (Qmult_1_r depth) at 2. apply Qmult_le_l; assumption. }
  assert (Hdown : (- depth <= depth * m)%Q).
  { setoid_replace (- depth)%Q with (depth * -1)%Q by ring.
    apply Qmult_le_l; assumption. }
  repeat split; lra.
Qed.

(** X8.  [getSpectralGainDecay] rolls a non-negative gain off with the
    frequency: for a positive start frequency, the value at a positive
    frequency is finite and not negative, and it is not larger at a
    higher frequency than at a lower one. *)
Theorem getSpectralGainDecay_rolloff (V : Variables) (gain : float)
  (g start : Q) (frequency frequency' : float) (f f' : Q) :
  hasValue gain g ->
  (0 <= g)%Q ->
  hasValue (startFrequency V) start ->
  (0 < start)%Q ->
  hasValue frequency f ->
  hasValue frequency' f' ->
  (0 < f)%Q ->
  (f <= f')%Q ->
  exists a b,
    hasValue (getSpectralGainDecay V gain frequency) a
    /\ hasValue (getSpectralGainDecay V gain frequency') b
    /\ (0 <= b)%Q /\ (b <= a)%Q.
Proof.
  intros Hg Hg0 Hs Hpos Hf Hf' Hf0 Hle. unfold getSpectralGainDecay.
  destruct gain as [x|]; [|contradiction].
  destruct (startFrequency V) as [y|]; [|contradiction].
  destruct frequency as [u|]; [|contradiction].
  destruct frequency' as [u'|]; [|contradiction].
  cbn [hasValue] in Hg, Hs, Hf, Hf'.
  unfold Z2F. rewrite !fdiv_finite by lra.
  exists (g * start * (1 / f))%Q, (g * start * (1 / f'))%Q.
  unfold fmul, fin, hasValue. rewrite !Qred_correct, Hg, Hs, Hf, Hf'.
  change (inject_Z 1) with 1%Q.
  split; [reflexivity|]. split; [reflexivity|].
  assert (Hgs : (0 <= g * start)%Q)
    by (apply Qmult_le_0_compat; lra).
  assert (Hr' : (0 < 1 / f')%Q)
    by (apply Qlt_shift_div_l; lra).
  assert (Hrr : (1 / f' <= 1 / f)%Q).
  { apply Qle_shift_div_l; [exact Hf0|].
    setoid_replace (1 / f' * f)%Q with (f / f')%Q by (field; lra).
    apply Qle_shift_div_r; lra. }
  split.
  - apply Qmult_le_0_compat; lra.
  - setoid_replace (g * start * (1 / f'))%Q with (1 / f' * (g * start))%Q
      by ring.
    setoid_replace (g * start * (1 / f))%Q with (1 / f * (g * start))%Q
      by ring.
    apply Qmult_le_compat_r; assumption.
Qed.

(** *** Pan and gain, further *)

Lemma fin_eq_q (a b : Q) : (a == b)%Q -> fin a = fin b.
Proof. intros H. unfold fin. now rewrite (Qred_eq a b H). Qed.

Lemma fgt_le (a : Q) (z : Z) :
  (a <= inject_Z z)%Q -> fgt (Finite a) (Z2F z) = false.
Proof.
  intros H. cbn [fgt Z2F]. apply negb_false_iff. now apply Qle_bool_iff.
Qed.

Lemma flt_ge (a : Q) (z : Z) :
  (inject_Z z <= a)%Q -> flt (Finite a) (Z2F z) = false.
Proof.
  intros H. unfold flt. cbn [fgt Z2F]. apply negb_false_iff.
  now apply Qle_bool_iff.
Qed.

(** The value [getOscillatorPan] clamps, with its divisor. *)
Lemma getOscillatorPan_quotient (V : Variables) (grid : Grid) (i : Z) :
  0 < numRows V ->
  0 <= i < numOscillators V ->
  numOscillators V <= numColumns V ->
  fadesInUnit V grid ->
  let blockWidth := Z.quot (numColumns V) (numOscillators V) in
  let columns := intLoop (i * blockWidth) ((i + 1) * blockWidth) in
  let half := Z.quot (numRows V) 2 in
  exists top bottom d,
    getOscillatorPan V grid i
    = Some (if fgt (fin ((top - bottom) / d)) (Z2F 1) then Z2F 1
            else if flt (fin ((top - bottom) / d)) (Z2F (-1)) then Z2F (-1)
            else fin ((top - bottom) / d))
    /\ (top == fadeSum grid (intLoop 0 half) columns)%Q
    /\ (bottom == fadeSum grid (intLoop half (numRows V)) columns)%Q
    /\ (d == inject_Z (numRows V * blockWidth) / 2)%Q
    /\ (0 < d)%Q
    /\ (0 <= top <= inject_Z (half * blockWidth))%Q
    /\ (0 <= bottom <= inject_Z ((numRows V - half) * blockWidth))%Q.
Proof.
  intros HR Hi HOC Hfades w columns half.
  assert (HC : 0 < numColumns V) by lia.
  assert (Hw : 0 < w) by (apply Z.quot_str_pos; lia).
  assert (Hhalf : 0 <= half <= numRows V).
  { unfold half. split.
    - apply Z.quot_pos; lia.
    - apply Z.quot_le_upper_bound; lia. }
  rewrite (getOscillatorPan_eq V grid i Hi).
  destruct (pan_loop grid half (intLoop 0 (numRows V)) columns 0)
    as (s & Es & Vs).
  { intros row column Hr Hc.
    now apply (block_fades_finite V grid i HC Hi Hfades). }
  change (Z2F 0) with (Finite 0) at 1. fold w. fold columns half.
  rewrite Es.
  destruct (fdiv_Z2F (numRows V * w) 2) as (d & Ed & Vd); [lia|].
  rewrite Ed.
  assert (Hd : (0 < d)%Q).
  { rewrite Vd. apply Qlt_shift_div_l; [reflexivity|].
    rewrite Qmult_0_l. change 0%Q with (inject_Z 0). rewrite <- Zlt_Qlt.
    nia. }
  assert (Hd0 : ~ (d == 0)%Q) by lra.
  rewrite (fdiv_finite s d Hd0). cbv zeta.
  pose proof (signed_sum_split grid half (numRows V) columns Hhalf)
    as Hsplit.
  assert (Hs : (s == fadeSum grid (intLoop 0 half) columns
                    - fadeSum grid (intLoop half (numRows V)) columns)%Q)
    by (rewrite Vs, Hsplit; ring).
  assert (Hcols : Z.of_nat (length columns) = w).
  { unfold columns. rewrite intLoop_length. lia. }
  destruct (block_sum_bounds V grid i HC Hi Hfades (intLoop 0 half))
    as (Ht0 & Ht1).
  { intros row Hr. apply intLoop_In in Hr. apply intLoop_In. lia. }
  destruct (block_sum_bounds V grid i HC Hi Hfades
              (intLoop half (numRows V))) as (Hb0 & Hb1).
  { intros row Hr. apply intLoop_In in Hr. apply intLoop_In. lia. }
  fold w in Ht0, Ht1, Hb0, Hb1. fold columns in Ht0, Ht1, Hb0, Hb1.
  rewrite Hcols, intLoop_length, <- inject_Z_mult in Ht1, Hb1.
  replace (Z.max 0 (half - 0)) with half in Ht1 by lia.
  replace (Z.max 0 (numRows V - half)) with (numRows V - half) in Hb1 by lia.
  exists (fadeSum grid (intLoop 0 half) columns),
         (fadeSum grid (intLoop half (numRows V)) columns), d.
  split.
  - rewrite (fin_eq_q (s / d)
               ((fadeSum grid (intLoop 0 half) columns
                 - fadeSum grid (intLoop half (numRows V)) columns) / d));
      [reflexivity|]. now rewrite Hs.
  - split; [reflexivity|]. split; [reflexivity|].
    split; [exact Vd|]. split; [exact Hd|]. split; split; assumption.
Qed.

(** What [getOscillatorPan] hands to its clamp. *)
Lemma panQuotient_value (V : Variables) (grid : Grid) (i : Z) :
  0 < numRows V ->
  0 <= i < numOscillators V ->
  numOscillators V <= numColumns V ->
  fadesInUnit V grid ->
  let blockWidth := Z.quot (numColumns V) (numOscillators V) in
  let columns := intLoop (i * blockWidth) ((i + 1) * blockWidth) in
  let half := Z.quot (numRows V) 2 in
  exists s d,
    fdiv (panAccumulated V grid columns)
         (fdiv (Z2F (numRows V * blockWidth)) (Z2F 2))
    = fin (s / d)
    /\ (s == fadeSum grid (intLoop 0 half) columns
             - fadeSum grid (intLoop half (numRows V)) columns)%Q
    /\ (d == inject_Z (numRows V * blockWidth) / 2)%Q
    /\ (0 < d)%Q.
Proof.
  intros HR Hi HOC Hfades w columns half.
  assert (HC : 0 < numColumns V) by lia.
  assert (Hw : 0 < w) by (apply Z.quot_str_pos; lia).
  assert (Hhalf : 0 <= half <= numRows V).
  { unfold half. split.
    - apply Z.quot_pos; lia.
    - apply Z.quot_le_upper_bound; lia. }
  destruct (pan_loop grid half (intLoop 0 (numRows V)) columns 0)
    as (s & Es & Vs).
  { intros row column Hr Hc.
    now apply (block_fades_finite V grid i HC Hi Hfades). }
  destruct (fdiv_Z2F (numRows V * w) 2) as (d & Ed & Vd); [lia|].
  assert (Hd : (0 < d)%Q).
  { rewrite Vd. apply Qlt_shift_div_l; [reflexivity|].
    rewrite Qmult_0_l. change 0%Q with (inject_Z 0). rewrite <- Zlt_Qlt.
    nia. }
  exists s, d. split; [|split; [|split; [exact Vd|exact Hd]]].
  - assert (Es' : panAccumulated V grid columns = Finite s) by exact Es.
    rewrite Es', Ed. apply fdiv_finite. lra.
  - pose proof (signed_sum_split grid half (numRows V) columns Hhalf)
      as Hsplit.
    rewrite Vs, Hsplit. ring.
Qed.

(** X9.  With an even number of rows the clamp of [getOscillatorPan] never
    acts: the function returns what its loop accumulates divided by half
    the number of cells of the block, as it is, and this quotient lies in
    [[-1, 1]].  (With an odd number of rows the bottom half has one row
    more than the top half and the clamp is needed.) *)
Theorem getOscillatorPan_even_rows (V : Variables) (grid : Grid) (i : Z) :
  0 < numRows V ->
  (2 | numRows V) ->
  0 <= i < numOscillators V ->
  numOscillators V <= numColumns V ->
  fadesInUnit V grid ->
  let blockWidth := Z.quot (numColumns V) (numOscillators V) in
  let columns := intLoop (i * blockWidth) ((i + 1) * blockWidth) in
  let quotient :=
    fdiv (panAccumulated V grid columns)
         (fdiv (Z2F (numRows V * blockWidth)) (Z2F 2)) in
  getOscillatorPan V grid i = Some quotient
  /\ inRange (-1) 1 quotient.
Proof.
  intros HR (k & Hk) Hi HOC Hfades w columns quotient.
  assert (HC : 0 < numColumns V) by lia.
  set (half := Z.quot (numRows V) 2).
  destruct (panQuotient_value V grid i HR Hi HOC Hfades)
    as (s & d & Eq & Vs & Vd & Hd).
  fold w in Eq, Vs, Vd. fold columns half in Eq, Vs. fold quotient in Eq.
  assert (Hh : half = k) by (unfold half; rewrite Hk; apply Z.quot_mul; lia).
  assert (Hcols : Z.of_nat (length columns) = w).
  { unfold columns. rewrite intLoop_length.
    pose proof (blockWidth_bounds V i HC Hi). fold w in H. lia. }
  destruct (block_sum_bounds V grid i HC Hi Hfades (intLoop 0 half))
    as (Ht0 & Ht1).
  { intros row Hr. apply intLoop_In in Hr. apply intLoop_In. lia. }
  destruct (block_sum_bounds V grid i HC Hi Hfades
              (intLoop half (numRows V))) as (Hb0 & Hb1).
  { intros row Hr. apply intLoop_In in Hr. apply intLoop_In. lia. }
  fold w in Ht0, Ht1, Hb0, Hb1. fold columns in Ht0, Ht1, Hb0, Hb1.
  rewrite Hcols, intLoop_length, <- inject_Z_mult in Ht1, Hb1.
  replace (Z.max 0 (half - 0)) with half in Ht1 by lia.
  replace (Z.max 0 (numRows V - half)) with half in Hb1 by lia.
  assert (Hdw : (d == inject_Z (half * w))%Q).
  { rewrite Vd, Hk, Hh.
    replace (k * 2 * w) with (k * w * 2) by ring.
    rewrite (inject_Z_mult (k * w) 2). change (inject_Z 2) with 2%Q.
    field. }
  assert (Hx1 : (s / d <= inject_Z 1)%Q).
  { change (inject_Z 1) with 1%Q. apply Qle_shift_div_r; [exact Hd|]. lra. }
  assert (Hx0 : (inject_Z (-1) <= s / d)%Q).
  { change (inject_Z (-1)) with (-1)%Q.
    apply Qle_shift_div_l; [exact Hd|]. lra. }
  split.
  - rewrite (getOscillatorPan_eq V grid i Hi). cbv zeta.
    fold w. fold columns.
    change (fdiv
              (fold_left
                 (fun pan column =>
                    fold_left
                      (fun pan row =>
                         if row <? Z.quot (numRows V) 2
                         then fadd pan (getFade (getCell grid row column))
                         else fsub pan (getFade (getCell grid row column)))
                      (intLoop 0 (numRows V)) pan)
                 columns (Z2F 0))
              (fdiv (Z2F (numRows V * w)) (Z2F 2)))
      with quotient.
    rewrite Eq. unfold fin.
    rewrite fgt_le by (now rewrite Qred_correct).
    rewrite flt_ge by (now rewrite Qred_correct).
    reflexivity.
  - rewrite Eq. unfold fin, inRange. rewrite Qred_correct.
    change (inject_Z 1) with 1%Q in Hx1.
    change (inject_Z (-1)) with (-1)%Q in Hx0. split; assumption.
Qed.

(** X10.  The extreme pans.  When every fade of the top half of the block
    is 1 and every fade of the bottom half is 0, the pan is
    [2 * (numRows / 2) / numRows]: 1 for an even number of rows, less for
    an odd one.  When the top half is all 0 and the bottom half all 1, the
    pan is exactly -1, by the clamp when the number of rows is odd. *)
Theorem getOscillatorPan_extremes (V : Variables) (grid : Grid) (i : Z) :
  0 < numRows V ->
  0 <= i < numOscillators V ->
  numOscillators V <= numColumns V ->
  fadesInUnit V grid ->
  let half := Z.quot (numRows V) 2 in
  (rowsFadesAre V grid i 0 half 1 ->
   rowsFadesAre V grid i half (numRows V) 0 ->
   exists pan,
     getOscillatorPan V grid i = Some pan
     /\ hasValue pan (inject_Z (2 * half) / inject_Z (numRows V))%Q)
  /\ (rowsFadesAre V grid i 0 half 0 ->
      rowsFadesAre V grid i half (numRows V) 1 ->
      getOscillatorPan V grid i = Some (Z2F (-1))).
Proof.
  intros HR Hi HOC Hfades half.
  set (w := Z.quot (numColumns V) (numOscillators V)).
  set (columns := intLoop (i * w) ((i + 1) * w)).
  destruct (getOscillatorPan_quotient V grid i HR Hi HOC Hfades)
    as (top & bottom & d & E & Ht & Hb & Vd & Hd & _).
  fold w in E, Ht, Hb, Vd. fold columns half in E, Ht, Hb.
  assert (Hw : 0 < w) by (apply Z.quot_str_pos; lia).
  assert (Hhalf : 0 <= half /\ 2 * half <= numRows V).
  { unfold half. split.
    - apply Z.quot_pos; lia.
    - apply Z.mul_quot_le; lia. }
  assert (Hhalf' : numRows V < 2 * half + 2).
  { unfold half. pose proof (Z.mul_succ_quot_gt (numRows V) 2). lia. }
  assert (Hcols : Z.of_nat (length columns) = w).
  { unfold columns. rewrite intLoop_length. lia. }
  assert (Hsum : forall lo hi q,
             0 <= lo <= hi ->
             rowsFadesAre V grid i lo hi q ->
             (fadeSum grid (intLoop lo hi) columns
              == q * inject_Z ((hi - lo) * w))%Q).
  { intros lo hi q Hlh Hq. rewrite fadeSum_const with (q := q).
    - rewrite Hcols, intLoop_length, inject_Z_mult.
      replace (Z.max 0 (hi - lo)) with (hi - lo) by lia. ring.
    - intros row column Hr Hc. apply intLoop_In in Hr, Hc.
      now apply Hq. }
  assert (HRw : (0 < inject_Z (numRows V * w))%Q).
  { change 0%Q with (inject_Z 0). rewrite <- Zlt_Qlt. nia. }
  assert (HRq : (0 < inject_Z (numRows V))%Q).
  { change 0%Q with (inject_Z 0). rewrite <- Zlt_Qlt. lia. }
  assert (Hwq : (0 < inject_Z w)%Q).
  { change 0%Q with (inject_Z 0). rewrite <- Zlt_Qlt. lia. }
  split.
  - intros Htop Hbottom.
    rewrite (Hsum 0 half 1%Q ltac:(lia) Htop) in Ht.
    rewrite (Hsum half (numRows V) 0%Q ltac:(lia) Hbottom) in Hb.
    assert (Hx : ((top - bottom) / d
                  == inject_Z (2 * half) / inject_Z (numRows V))%Q).
    { rewrite Ht, Hb, Vd. rewrite Z.sub_0_r.
      rewrite !inject_Z_mult. change (inject_Z 2) with 2%Q.
      field. split; lra. }
    assert (Hx1 : ((top - bottom) / d <= inject_Z 1)%Q).
    { rewrite Hx. change (inject_Z 1) with 1%Q.
      apply Qle_shift_div_r; [exact HRq|]. rewrite Qmult_1_l.
      rewrite <- Zle_Qle. lia. }
    assert (Hx0 : (inject_Z (-1) <= (top - bottom) / d)%Q).
    { rewrite Hx. change (inject_Z (-1)) with (-1)%Q.
      apply Qle_shift_div_l; [exact HRq|].
      assert (0 <= inject_Z (2 * half))%Q
        by (change 0%Q with (inject_Z 0); rewrite <- Zle_Qle; lia).
      lra. }
    unfold fin in E at 1 2.
    rewrite fgt_le in E by (now rewrite Qred_correct).
    rewrite flt_ge in E by (now rewrite Qred_correct).
    eexists. split; [exact E|].
    unfold fin, hasValue. now rewrite Qred_correct.
  - intros Htop Hbottom.
    rewrite (Hsum 0 half 0%Q ltac:(lia) Htop) in Ht.
    rewrite (Hsum half (numRows V) 1%Q ltac:(lia) Hbottom) in Hb.
    assert (Hx : ((top - bottom) / d
                  == - (inject_Z (2 * (numRows V - half))
                        / inject_Z (numRows V)))%Q).
    { rewrite Ht, Hb, Vd.
      rewrite !inject_Z_mult. change (inject_Z 2) with 2%Q.
      field. split; lra. }
    assert (Hq : (1 <= inject_Z (2 * (numRows V - half))
                       / inject_Z (numRows V))%Q).
    { apply Qle_shift_div_l; [exact HRq|]. rewrite Qmult_1_l.
      rewrite <- Zle_Qle. lia. }
    assert (Hx1 : ((top - bottom) / d <= inject_Z 1)%Q).
    { rewrite Hx. change (inject_Z 1) with 1%Q. lra. }
    unfold fin in E at 1 2.
    rewrite fgt_le in E by (now rewrite Qred_correct).
    fold (fin ((top - bottom) / d)) in E.
    destruct (flt (fin ((top - bottom) / d)) (Z2F (-1))) eqn:E2;
      [exact E|].
    apply flt_false in E2. rewrite Qred_correct in E2.
    change (inject_Z (-1)) with (-1)%Q in E2.
    rewrite E. f_equal. apply fin_inject_Z.
    change (inject_Z (-1)) with (-1)%Q. lra.
Qed.

(** X11.  With more oscillators than columns every column block is empty:
    whatever the grid and the oscillator, the gain is exactly 0 and the
    pan is 0 / 0, not a number. *)
Theorem empty_block_gain_and_pan (V : Variables) (grid : Grid) (i : Z) :
  0 < numRows V ->
  0 < numColumns V < numOscillators V ->
  getOscillatorGain V grid i = Some (Z2F 0)
  /\ getOscillatorPan V grid i = Some NaN.
Proof.
  intros HR HC.
  assert (Hw : Z.quot (numColumns V) (numOscillators V) = 0)
    by (apply Z.quot_small; lia).
  unfold getOscillatorGain, getOscillatorPan.
  rewrite startColumnOf_eq by lia. unfold bind.
  rewrite endColumnOf_eq by lia. rewrite floatLoop_Z2F, Hw.
  rewrite Z.mul_0_r, Z.add_0_r, (intLoop_nil 0 0) by lia. cbn [fold_left].
  split.
  - rewrite fmul_Z2F.
    destruct (fdiv_Z2F (numRows V * numColumns V) (numOscillators V))
      as (d & Ed & Vd); [lia|]. rewrite Ed.
    assert (Hd : ~ (d == 0)%Q).
    { rewrite Vd. intros E.
      assert (HO : (0 < inject_Z (numOscillators V))%Q)
        by (change 0%Q with (inject_Z 0); rewrite <- Zlt_Qlt; lia).
      assert (Hn : (0 < inject_Z (numRows V * numColumns V))%Q)
        by (change 0%Q with (inject_Z 0); rewrite <- Zlt_Qlt; nia).
      assert (0 < inject_Z (numRows V * numColumns V)
                  / inject_Z (numOscillators V))%Q.
      { apply Qlt_shift_div_l; [exact HO|]. now rewrite Qmult_0_l. }
      lra. }
    unfold Z2F at 1. rewrite (fdiv_finite _ d Hd).
    rewrite (fin_inject_Z (inject_Z 0 / d) 0); [reflexivity|].
    unfold Qdiv. change (inject_Z 0) with 0%Q. ring.
  - rewrite fsub_Z2F, fmul_Z2F, Z.sub_diag, Z.mul_0_r. reflexivity.
Qed.


(** *** The cells the helper methods read *)

Lemma fold_left_ext_in {A B : Type} (f g : B -> A -> B) (l : list A) :
  (forall a b, In a l -> f b a = g b a) ->
  forall b, fold_left f l b = fold_left g l b.
Proof.
  induction l as [|a l IH]; intros H b; [reflexivity|].
  cbn [fold_left]. rewrite (H a b (or_introl eq_refl)).
  apply IH. intros a' b' Ha'. apply H. now right.
Qed.

(** X13.  [getOscillatorGain] and [getOscillatorPan] read the fades of the
    cells of the oscillator's own column block and nothing else: two grids
    that agree there give the same gain and the same pan. *)
Theorem gain_and_pan_read_own_block (V : Variables) (grid grid' : Grid)
  (i : Z) :
  (forall row column,
     0 <= row < numRows V ->
     visits V i column ->
     getFade (getCell grid row column) = getFade (getCell grid' row column)) ->
  getOscillatorGain V grid i = getOscillatorGain V grid' i
  /\ getOscillatorPan V grid i = getOscillatorPan V grid' i.
Proof.
  intros Hsame. unfold getOscillatorGain, getOscillatorPan.
  assert (Hcols : forall startColumn endColumn column,
             startColumnOf V i = Some startColumn ->
             endColumnOf V startColumn = Some endColumn ->
             In column (floatLoop startColumn endColumn) ->
             visits V i column).
  { intros startColumn endColumn column Es Ee Hin.
    exists (floatLoop startColumn endColumn). split; [|exact Hin].
    unfold blockColumns. rewrite Es. cbn [bind]. now rewrite Ee. }
  destruct (startColumnOf V i) as [startColumn|] eqn:Es; [|now split].
  cbn [bind].
  destruct (endColumnOf V startColumn) as [endColumn|] eqn:Ee; [|now split].
  cbn [bind]. split.
  - do 2 f_equal.
    apply fold_left_ext_in. intros column gain Hc.
    apply fold_left_ext_in. intros row gain' Hr. apply intLoop_In in Hr.
    rewrite (Hsame row column Hr (Hcols _ _ _ eq_refl Ee Hc)). reflexivity.
  - cbv zeta.
    match goal with
    | |- context [fold_left ?F (floatLoop startColumn endColumn) ?b] =>
        rewrite (fold_left_ext_in F
                   (fun pan column =>
                      fold_left
                        (fun pan row =>
                           if row <? Z.quot (numRows V) 2
                           then fadd pan (getFade (getCell grid' row column))
                           else fsub pan (getFade (getCell grid' row column)))
                        (intLoop 0 (numRows V)) pan)
                   (floatLoop startColumn endColumn))
    end.
    + reflexivity.
    + intros column pan Hc.
      apply fold_left_ext_in. intros row pan' Hr. apply intLoop_In in Hr.
      rewrite (Hsame row column Hr (Hcols _ _ _ eq_refl Ee Hc)).
      reflexivity.
Qed.

(** *** processBlock, further *)

(** X14.  [processBlock] needs a stereo buffer: it takes the write
    pointers of channels 0 and 1, so on a buffer with fewer than two
    channels and at least one sample it does not return. *)
Theorem processBlock_needs_two_channels `{X : Collaborators} (V : Variables)
  (s : Synthesis) (buffer : AudioBuffer) :
  getNumChannels buffer < 2 ->
  0 < getNumSamples buffer ->
  processBlock V s buffer = None.
Proof.
  intros Hch _. unfold processBlock. cbv zeta.
  destruct (foldM (processOscillator V (getNumSamples buffer)) _ _)
    as [(s1, block)|]; [|reflexivity].
  cbn [bind].
  set (channels := addFrom _ _).
  assert (Hlen : Z.of_nat (length channels) = getNumChannels buffer).
  { unfold channels. rewrite addFrom_length. unfold clearedBuffer.
    cbn [channelData]. rewrite repeat_length.
    unfold getNumChannels. lia. }
  destruct (getAt channels 0) as [leftChannel|]; [|reflexivity].
  cbn [bind].
  destruct (getAt channels 1) as [rightChannel|] eqn:E1; [|reflexivity].
  apply getAt_range in E1. lia.
Qed.

(** X15.  [processBlock] overwrites its buffer: the result depends on the
    number of channels and of samples of the buffer it is given, not on
    the samples in it, and the buffer it returns has the same number of
    channels and of samples. *)
Theorem processBlock_ignores_input `{X : Collaborators} (V : Variables)
  (s : Synthesis) (buffer : AudioBuffer) :
  (forall buffer',
     getNumChannels buffer' = getNumChannels buffer ->
     getNumSamples buffer' = getNumSamples buffer ->
     processBlock V s buffer' = processBlock V s buffer)
  /\ (forall s' out,
        processBlock V s buffer = Some (s', out) ->
        getNumChannels out = getNumChannels buffer
        /\ getNumSamples out = getNumSamples buffer).
Proof.
  split.
  - intros buffer' Hch Hn. unfold processBlock. now rewrite Hch, Hn.
  - intros s' out. unfold processBlock. cbv zeta. intros E.
    destruct (foldM (processOscillator V (getNumSamples buffer)) _ _)
      as [(s1, block)|]; [|discriminate].
    cbn [bind] in E.
    set (channels := addFrom _ _) in E.
    assert (Hlen : Z.of_nat (length channels) = getNumChannels buffer).
    { unfold channels. rewrite addFrom_length. unfold clearedBuffer.
      cbn [channelData]. rewrite repeat_length.
      unfold getNumChannels. lia. }
    destruct (getAt channels 0) as [leftChannel|]; [|discriminate].
    cbn [bind] in E.
    destruct (getAt channels 1) as [rightChannel|]; [|discriminate].
    cbn [bind] in E.
    unfold Oscillator.processSample, processSamples, processStereo in E.
    cbn [coefficients setCoefficients filterState] in E.
    repeat match type of E with
           | context [iirProcessSamples ?a ?b ?c] =>
               destruct (iirProcessSamples a b c) as (?, ?)
           end.
    match type of E with
    | context [reverbProcessStereo ?a ?b ?c ?d] =>
        destruct (reverbProcessStereo a b c d) as (lines, (outL, outR))
    end.
    injection E as _ <-. unfold getNumChannels at 1.
    cbn [channelData getNumSamples]. rewrite !setAt_length.
    split; [exact Hlen|reflexivity].
Qed.

(** *** What processBlock does to the grid *)

Lemma updateFade_iter_alive (decay : float -> float) (n : nat) (c : Cell) :
  isAlive (Nat.iter n (updateFade decay) c) = isAlive c.
Proof.
  induction n as [|n IH]; [reflexivity|].
  rewrite Nat.iter_succ. unfold updateFade at 1.
  destruct (isAlive (Nat.iter n (updateFade decay) c)) eqn:E;
    cbn [isAlive]; congruence.
Qed.

Lemma inBlockb_disjoint (V : Variables) (a b row column : Z) :
  inBlockb V a row column = true ->
  inBlockb V b row column = true ->
  a = b.
Proof.
  unfold inBlockb. rewrite !andb_true_iff, !Z.leb_le, !Z.ltb_lt. nia.
Qed.

Lemma sampleLoop_grid `{X : Collaborators} (V : Variables) (i : Z)
  (l : list Z) :
  0 < numOscillators V ->
  forall s block panValues s' block' panValues',
    foldM (processOscillatorSample V i) l (s, block, panValues)
    = Some (s', block', panValues') ->
    forall row column,
      getCell (m_Grid s') row column
      = if inBlockb V i row column
        then Nat.iter (length l) (updateFade fadeDecay)
               (getCell (m_Grid s) row column)
        else getCell (m_Grid s) row column.
Proof.
  intros HO. induction l as [|k l IH];
    intros s block panValues s' block' panValues' E row column.
  - injection E as <- _ _. now destruct (inBlockb V i row column).
  - cbn [foldM] in E.
    destruct (processOscillatorSample V i (s, block, panValues) k)
      as [((s1, block1), pans1)|] eqn:E1; [|discriminate].
    cbn [bind] in E.
    rewrite (IH _ _ _ _ _ _ E row column).
    apply processOscillatorSample_inv in E1.
    destruct E1 as (lfoIndex & lfo & o & gain & pan & grid'
                    & _ & _ & _ & _ & _ & Eu & -> & _ & _).
    cbn [m_Grid].
    destruct (updateFadeValues_effect V fadeDecay (m_Grid s) i HO)
      as (grid'' & Eu' & Hcell).
    rewrite Eu in Eu'. injection Eu' as <-.
    rewrite (Hcell row column). fold (inBlockb V i row column).
    destruct (inBlockb V i row column); [|reflexivity].
    change (length (k :: l)) with (S (length l)).
    now rewrite Nat.iter_succ_r.
Qed.

Lemma oscillatorLoop_grid `{X : Collaborators} (V : Variables)
  (blockSize : Z) (l : list Z) :
  0 < numOscillators V ->
  NoDup l ->
  forall s block s' block',
    foldM (processOscillator V blockSize) l (s, block) = Some (s', block') ->
    forall row column,
      getCell (m_Grid s') row column
      = if existsb (fun i => inBlockb V i row column) l
        then Nat.iter (Z.to_nat blockSize) (updateFade fadeDecay)
               (getCell (m_Grid s) row column)
        else getCell (m_Grid s) row column.
Proof.
  intros HO. induction 1 as [|i l Hi Hl IH];
    intros s block s' block' E row column.
  - injection E as <- _. reflexivity.
  - cbn [foldM] in E.
    destruct (processOscillator V blockSize (s, block) i)
      as [(s1, block1)|] eqn:E1; [|discriminate].
    cbn [bind] in E.
    rewrite (IH _ _ _ _ E row column). cbn [existsb].
    unfold processOscillator in E1.
    match type of E1 with
    | bind ?c _ = _ => destruct c as [((s2, block2), pans2)|] eqn:E2;
                       [|discriminate]
    end.
    cbn [bind] in E1.
    destruct (pannerProcessBlock (m_Panner s2) (channelData block2) pans2)
      as (panner, channels).
    injection E1 as <- _. cbn [withPanner m_Grid].
    rewrite (sampleLoop_grid V i _ HO _ _ _ _ _ _ E2 row column).
    replace (length (intLoop 0 blockSize)) with (Z.to_nat blockSize)
      by (pose proof (intLoop_length 0 blockSize); lia).
    destruct (inBlockb V i row column) eqn:Ei; cbn [orb].
    + destruct (existsb (fun i0 => inBlockb V i0 row column) l) eqn:El;
        [|reflexivity].
      apply existsb_exists in El. destruct El as (j & Hj & Ej).
      rewrite (inBlockb_disjoint V i j row column Ei Ej) in Hi.
      contradiction.
    + reflexivity.
Qed.

Lemma blocks_cover (V : Variables) (row column : Z) :
  0 < numOscillators V ->
  0 <= numColumns V ->
  existsb (fun i => inBlockb V i row column) (intLoop 0 (numOscillators V))
  = ((0 <=? row) && (row <? numRows V))
    && ((0 <=? column)
        && (column
            <? numOscillators V * Z.quot (numColumns V) (numOscillators V))).
Proof.
  intros HO HC.
  assert (Hw : 0 <= Z.quot (numColumns V) (numOscillators V))
    by (apply Z.quot_pos; lia).
  apply eq_true_iff_eq. rewrite existsb_exists. unfold inBlockb.
  rewrite !andb_true_iff, !Z.leb_le, !Z.ltb_lt. split.
  - intros (i & Hi & H). apply intLoop_In in Hi.
    rewrite !andb_true_iff, !Z.leb_le, !Z.ltb_lt in H. nia.
  - intros ((Hr0 & Hr1) & (Hc0 & Hc1)).
    set (w := Z.quot (numColumns V) (numOscillators V)) in *.
    assert (Hw1 : 0 < w) by nia.
    exists (column / w). split.
    + apply intLoop_In. split; [apply Z.div_pos; lia|].
      apply Z.div_lt_upper_bound; lia.
    + rewrite !andb_true_iff, !Z.leb_le, !Z.ltb_lt.
      pose proof (Z.mul_div_le column w Hw1).
      pose proof (Z.mul_succ_div_gt column w Hw1). lia.
Qed.

(** X16.  What [processBlock] does to the grid: every cell in a row of the
    grid and in a column that belongs to the block of some oscillator has
    [updateFade] applied once per sample of the buffer; every other cell,
    among them the columns left over when [numOscillators] does not divide
    [numColumns], is untouched.  No cell changes between alive and
    dead. *)
Theorem processBlock_grid `{X : Collaborators} (V : Variables)
  (s : Synthesis) (buffer : AudioBuffer) (s' : Synthesis)
  (out : AudioBuffer) :
  0 < numOscillators V ->
  0 <= numColumns V ->
  processBlock V s buffer = Some (s', out) ->
  forall row column,
    getCell (m_Grid s') row column
    = (if ((0 <=? row) && (row <? numRows V))
          && ((0 <=? column)
              && (column
                  <? numOscillators V
                     * Z.quot (numColumns V) (numOscillators V)))
       then Nat.iter (Z.to_nat (getNumSamples buffer))
              (updateFade fadeDecay) (getCell (m_Grid s) row column)
       else getCell (m_Grid s) row column)
    /\ isAlive (getCell (m_Grid s') row column)
       = isAlive (getCell (m_Grid s) row column).
Proof.
  intros HO HC E row column. apply processBlock_inv in E.
  destruct E as (s1 & block & E & Hg & _).
  pose proof (oscillatorLoop_grid V (getNumSamples buffer)
                (intLoop 0 (numOscillators V)) HO (intLoop_NoDup _ _)
                _ _ _ _ E row column) as Hcell.
  rewrite (blocks_cover V row column HO HC) in Hcell.
  rewrite Hg, Hcell. split; [reflexivity|].
  destruct (_ && _); [apply updateFade_iter_alive|reflexivity].
Qed.

(** *** What one oscillator's pass does to the banks *)

Lemma sampleLoop_banks `{X : Collaborators} (V : Variables) (i : Z)
  (l : list Z) :
  forall s block panValues s' block' panValues' lfoIndex lfo,
    foldM (processOscillatorSample V i) l (s, block, panValues)
    = Some (s', block', panValues') ->
    imod i (numLFOs V) = Some lfoIndex ->
    getAt (m_LFOs s) lfoIndex = Some lfo ->
    getAt (m_LFOs s') lfoIndex = Some (Nat.iter (length l) advance lfo)
    /\ (forall j, j <> lfoIndex -> getAt (m_LFOs s') j = getAt (m_LFOs s) j)
    /\ (forall j, j <> i ->
          getAt (m_Oscillators s') j = getAt (m_Oscillators s) j).
Proof.
  induction l as [|k l IH];
    intros s block panValues s' block' panValues' lfoIndex lfo E Ei El.
  - injection E as <- _ _. repeat split; auto.
  - cbn [foldM] in E.
    destruct (processOscillatorSample V i (s, block, panValues) k)
      as [((s1, block1), pans1)|] eqn:E1; [|discriminate].
    cbn [bind] in E.
    apply processOscillatorSample_inv in E1.
    destruct E1 as (lfoIndex' & lfo' & o & gain & pan & grid'
                    & Ei' & El' & Eo & _ & _ & _ & -> & _ & _).
    rewrite Ei in Ei'. injection Ei' as <-.
    rewrite El in El'. injection El' as <-.
    pose proof (getAt_range _ _ _ El) as Hl.
    pose proof (getAt_range _ _ _ Eo) as Ho.
    destruct (IH _ _ _ _ _ _ lfoIndex (advance lfo) E Ei) as (H1 & H2 & H3).
    { cbn [m_LFOs]. rewrite getAt_setAt by exact Hl.
      now rewrite Z.eqb_refl. }
    cbn [m_LFOs m_Oscillators] in H2, H3. split; [|split].
    + rewrite H1. change (length (k :: l)) with (S (length l)).
      now rewrite Nat.iter_succ_r.
    + intros j Hj. rewrite (H2 j Hj), getAt_setAt by exact Hl.
      destruct (Z.eqb_spec lfoIndex j); [congruence|reflexivity].
    + intros j Hj. rewrite (H3 j Hj), getAt_setAt by exact Ho.
      destruct (Z.eqb_spec i j); [congruence|reflexivity].
Qed.

(** X17.  The pass of [processBlock] for oscillator [i] draws every
    modulator sample from the LFO of index [i % numLFOs]: that LFO is
    advanced by one sample per sample of the block, no other LFO and no
    other oscillator is touched. *)
Theorem processOscillator_banks `{X : Collaborators} (V : Variables)
  (blockSize : Z) (s : Synthesis) (block : AudioBuffer) (i : Z)
  (s' : Synthesis) (block' : AudioBuffer) (lfoIndex : Z)
  (lfo : Oscillator.t) :
  processOscillator V blockSize (s, block) i = Some (s', block') ->
  imod i (numLFOs V) = Some lfoIndex ->
  getAt (m_LFOs s) lfoIndex = Some lfo ->
  getAt (m_LFOs s') lfoIndex
  = Some (Nat.iter (Z.to_nat blockSize) advance lfo)
  /\ (forall j, j <> lfoIndex -> getAt (m_LFOs s') j = getAt (m_LFOs s) j)
  /\ (forall j, j <> i ->
        getAt (m_Oscillators s') j = getAt (m_Oscillators s) j).
Proof.
  intros E Ei El. unfold processOscillator in E.
  match type of E with
  | bind ?c _ = _ => destruct c as [((s1, block1), pans1)|] eqn:E1;
                     [|discriminate]
  end.
  cbn [bind] in E.
  destruct (pannerProcessBlock (m_Panner s1) (channelData block1) pans1)
    as (panner, channels).
  injection E as <- _. cbn [withPanner m_LFOs m_Oscillators].
  pose proof (sampleLoop_banks V i _ _ _ _ _ _ _ lfoIndex lfo E1 Ei El)
    as H.
  replace (length (intLoop 0 blockSize)) with (Z.to_nat blockSize) in H
    by (pose proof (intLoop_length 0 blockSize); lia).
  exact H.
Qed.

(** *** The pan values handed to the panner *)

Lemma pan_in_range (V : Variables) (grid : Grid) (i : Z) :
  0 < numRows V ->
  0 <= i < numOscillators V ->
  numOscillators V <= numColumns V ->
  fadesInUnit V grid ->
  exists pan, getOscillatorPan V grid i = Some pan /\ inRange (-1) 1 pan.
Proof.
  intros HR Hi HOC Hfades.
  destruct (getOscillatorPan_value V grid i HR Hi HOC Hfades)
    as (s & d & E & _).
  eexists. split; [exact E|].
  destruct (fgt (fin (s / d)) (Z2F 1)) eqn:E1.
  - split; unfold Qle; simpl; lia.
  - destruct (flt (fin (s / d)) (Z2F (-1))) eqn:E2.
    + split; unfold Qle; simpl; lia.
    + apply fgt_false in E1. apply flt_false in E2.
      unfold fin, inRange. split; [exact E2|exact E1].
Qed.

Lemma updateFadeValues_keeps_unit `{X : Collaborators} (V : Variables)
  (grid grid' : Grid) (i : Z) :
  decayKeepsUnit ->
  0 < numOscillators V ->
  fadesInUnit V grid ->
  updateFadeValues V fadeDecay grid i = Some grid' ->
  fadesInUnit V grid'.
Proof.
  intros Hdecay HO Hfades Eu row column Hr Hc.
  destruct (updateFadeValues_effect V fadeDecay grid i HO)
    as (grid'' & Eu' & Hcell).
  rewrite Eu in Eu'. injection Eu' as <-. rewrite (Hcell row column).
  destruct (_ && _); [|now apply Hfades].
  unfold updateFade. destruct (isAlive (getCell grid row column)).
  - cbn [getFade]. split; unfold Qle; simpl; lia.
  - cbn [getFade]. apply Hdecay. now apply Hfades.
Qed.

Lemma sampleLoop_pans `{X : Collaborators} (V : Variables) (i : Z)
  (l : list Z) :
  decayKeepsUnit ->
  0 < numRows V ->
  0 <= i < numOscillators V ->
  numOscillators V <= numColumns V ->
  forall s block panValues s' block' panValues',
    fadesInUnit V (m_Grid s) ->
    foldM (processOscillatorSample V i) l (s, block, panValues)
    = Some (s', block', panValues') ->
    exists added,
      panValues' = panValues ++ added
      /\ length added = length l
      /\ Forall (inRange (-1) 1) added
      /\ fadesInUnit V (m_Grid s').
Proof.
  intros Hdecay HR Hi HOC. induction l as [|k l IH];
    intros s block panValues s' block' panValues' Hfades E.
  - injection E as <- _ <-. exists []. rewrite app_nil_r.
    repeat split; [constructor|exact Hfades].
  - cbn [foldM] in E.
    destruct (processOscillatorSample V i (s, block, panValues) k)
      as [((s1, block1), pans1)|] eqn:E1; [|discriminate].
    cbn [bind] in E.
    apply processOscillatorSample_inv in E1.
    destruct E1 as (lfoIndex & lfo & o & gain & pan & grid'
                    & _ & _ & _ & _ & Ep & Eu & -> & _ & ->).
    destruct (pan_in_range V (m_Grid s) i HR Hi HOC Hfades)
      as (pan' & Ep' & Hpan).
    rewrite Ep in Ep'. injection Ep' as <-.
    assert (Hfades1 : fadesInUnit V grid').
    { apply (updateFadeValues_keeps_unit V (m_Grid s) grid' i Hdecay);
        [lia|exact Hfades|exact Eu]. }
    apply IH in E; [|exact Hfades1].
    destruct E as (added & -> & Hlen & Hall & Hfades').
    exists (pan :: added). split; [now rewrite <- app_assoc|].
    split; [cbn [length]; now rewrite Hlen|].
    split; [now constructor|exact Hfades'].
Qed.

(** X18.  For a configuration with at least one row and one column per
    oscillator, a grid whose fades lie in [[0, 1]] and a fade decay that
    keeps them there, the pass for oscillator [i] hands the panner one pan
    value per sample of the block, each finite and in [[-1, 1]], and
    leaves the fades of the grid in [[0, 1]]. *)
Theorem processOscillator_pan_values `{X : Collaborators} (V : Variables)
  (blockSize : Z) (s : Synthesis) (block : AudioBuffer) (i : Z)
  (s' : Synthesis) (block' : AudioBuffer) :
  decayKeepsUnit ->
  0 < numRows V ->
  0 <= i < numOscillators V ->
  numOscillators V <= numColumns V ->
  fadesInUnit V (m_Grid s) ->
  processOscillator V blockSize (s, block) i = Some (s', block') ->
  exists s1 block1 panValues,
    foldM (processOscillatorSample V i) (intLoop 0 blockSize) (s, block, [])
    = Some (s1, block1, panValues)
    /\ pannerProcessBlock (m_Panner s1) (channelData block1) panValues
       = (m_Panner s', channelData block')
    /\ Z.of_nat (length panValues) = Z.max 0 blockSize
    /\ Forall (inRange (-1) 1) panValues
    /\ fadesInUnit V (m_Grid s').
Proof.
  intros Hdecay HR Hi HOC Hfades E. unfold processOscillator in E.
  match type of E with
  | bind ?c _ = _ => destruct c as [((s1, block1), pans1)|] eqn:E1;
                     [|discriminate]
  end.
  cbn [bind] in E.
  destruct (sampleLoop_pans V i _ Hdecay HR Hi HOC _ _ _ _ _ _ Hfades E1)
    as (added & Epans & Hlen & Hall & Hfades').
  cbn [app] in Epans. subst pans1.
  destruct (pannerProcessBlock (m_Panner s1) (channelData block1) added)
    as (panner, channels) eqn:Ep.
  injection E as <- <-.
  exists s1, block1, added.
  split; [reflexivity|]. split; [exact Ep|]. split.
  - rewrite Hlen. pose proof (intLoop_length 0 blockSize). lia.
  - split; [exact Hall|exact Hfades'].
Qed.

(** *** The gain applied to a sample *)

Lemma density_in_unit (V : Variables) (grid : Grid) (i : Z) :
  0 < numRows V ->
  0 < numColumns V ->
  0 <= i < numOscillators V ->
  fadesInUnit V grid ->
  exists g,
    getOscillatorGain V grid i = Some (Finite g) /\ (0 <= g <= 1)%Q.
Proof.
  intros HR HC Hi Hfades.
  destruct (getOscillatorGain_value V grid i HR HC Hi Hfades)
    as (s & d & E & Vs & Vd & Hd).
  pose proof (blockWidth_bounds V i HC Hi) as (Hw0 & HwC).
  assert (HO : (0 < inject_Z (numOscillators V))%Q)
    by (change 0%Q with (inject_Z 0); rewrite <- Zlt_Qlt; lia).
  assert (Hcells : (inject_Z (numRows V
                              * Z.quot (numColumns V) (numOscillators V))
                    <= d)%Q).
  { rewrite Vd. apply Qle_shift_div_l; [exact HO|].
    rewrite <- inject_Z_mult, <- Zle_Qle. nia. }
  destruct (block_sum_bounds V grid i HC Hi Hfades (intLoop 0 (numRows V))
              (fun _ H => H)) as (Hs0 & Hs1).
  rewrite (block_cell_count V i HR HC Hi) in Hs1.
  exists (Qred (s / d)). split; [exact E|].
  rewrite Qred_correct. split.
  - apply Qle_shift_div_l; [exact Hd|]. lra.
  - apply Qle_shift_div_r; [exact Hd|]. lra.
Qed.

(** X19.  The gain applied to a sample is bounded: on a grid whose fades
    lie in [[0, 1]], at any frequency that is at least four fifths of a
    positive start frequency (where the modulation keeps every
    oscillator), the factor is finite and lies between 0 and 5/4. *)
Theorem gainToApply_bounded (V : Variables) (grid : Grid) (i : Z)
  (frequency : float) (start f : Q) :
  0 < numRows V ->
  0 < numColumns V ->
  0 <= i < numOscillators V ->
  fadesInUnit V grid ->
  hasValue (startFrequency V) start ->
  (0 < start)%Q ->
  hasValue frequency f ->
  ((4#5) * start <= f)%Q ->
  exists gain,
    gainToApply V grid i frequency = Some gain /\ inRange 0 (5#4) gain.
Proof.
  intros HR HC Hi Hfades Hstart Hpos Hf Hlow.
  destruct (density_in_unit V grid i HR HC Hi Hfades) as (g & E & Hg0 & Hg1).
  unfold gainToApply. rewrite E. cbn [bind]. eexists. split; [reflexivity|].
  unfold getSpectralGainDecay.
  destruct (startFrequency V) as [b|]; [|contradiction].
  destruct frequency as [x|]; [|contradiction].
  cbn [hasValue] in Hstart, Hf.
  assert (Hf0 : (0 < f)%Q) by lra.
  unfold Z2F. rewrite fdiv_finite by lra.
  unfold fmul, fin, inRange. rewrite !Qred_correct, Hstart, Hf.
  change (inject_Z 1) with 1%Q.
  assert (Hr : (0 <= start * (1 / f) <= 5#4)%Q).
  { setoid_replace (start * (1 / f))%Q with (start / f)%Q by (field; lra).
    split.
    - apply Qle_shift_div_l; [exact Hf0|]. lra.
    - apply Qle_shift_div_r; [exact Hf0|]. lra. }
  assert (Hgg : (0 <= g * g <= 1)%Q).
  { split.
    - now apply Qmult_le_0_compat.
    - rewrite <- (Qmult_1_l 1). 
      apply Qle_trans with (1 * g)%Q.
      + apply Qmult_le_compat_r; assumption.
      + rewrite Qmult_1_l, Qmult_1_l. exact Hg1. }
  setoid_replace (g * (g * start * (1 / f)))%Q
    with (g * g * (start * (1 / f)))%Q by ring.
  split.
  - apply Qmult_le_0_compat; tauto.
  - apply Qle_trans with (1 * (start * (1 / f)))%Q.
    + apply Qmult_le_compat_r; tauto.
    + rewrite Qmult_1_l. tauto.
Qed.

(** *** The plugin editor *)





(** *** The filter modulator and the scratch block *)

(** X21.  [processBlock] draws exactly one sample from the filter
    modulator, whatever the length of the block: the cutoff sweep advances
    once per block.  The recorded sample rate and block size are left as
    they were. *)
Theorem processBlock_filter_modulator `{X : Collaborators} (V : Variables)
  (s : Synthesis) (buffer : AudioBuffer) (s' : Synthesis)
  (out : AudioBuffer) :
  processBlock V s buffer = Some (s', out) ->
  m_FilterModulator s' = advance (m_FilterModulator s)
  /\ getSampleRate s' = getSampleRate s
  /\ getBlockSize s' = getBlockSize s.
Proof.
  intros E. apply processBlock_inv in E.
  destruct E as (s1 & block & E & _ & _ & _ & Hm & _ & _ & _ & Hsr & Hbs).
  apply oscillatorLoop_frame in E.
  destruct E as (_ & Hm1 & _ & _ & Hsr1 & Hbs1 & _).
  unfold advance, getSampleRate, getBlockSize.
  rewrite Hm, Hm1, Hsr, Hsr1, Hbs, Hbs1. repeat split; reflexivity.
Qed.

Lemma sampleLoop_mono `{X : Collaborators} (V : Variables) (i : Z)
  (l : list Z) :
  forall s block panValues s' block' panValues' channel n,
    channelData block = repeat channel n ->
    foldM (processOscillatorSample V i) l (s, block, panValues)
    = Some (s', block', panValues') ->
    exists channel',
      channelData block' = repeat channel' n
      /\ length channel' = length channel
      /\ getNumSamples block' = getNumSamples block.
Proof.
  induction l as [|k l IH];
    intros s block panValues s' block' panValues' channel n Hmono E.
  - injection E as _ <- _. exists channel. repeat split. exact Hmono.
  - cbn [foldM] in E.
    destruct (processOscillatorSample V i (s, block, panValues) k)
      as [((s1, block1), pans1)|] eqn:E1; [|discriminate].
    cbn [bind] in E.
    apply processOscillatorSample_inv in E1.
    destruct E1 as (lfoIndex & lfo & o & gain & pan & grid'
                    & _ & _ & _ & _ & _ & _ & _ & Hb & _).
    eapply IH in E;
      [|rewrite Hb; cbn [channelData]; rewrite Hmono; apply map_repeat].
    destruct E as (channel' & Hc & Hlen & Hn).
    exists channel'. split; [exact Hc|]. split.
    + rewrite Hlen. unfold addSample.
      destruct (getAt channel k); [apply setAt_length|reflexivity].
    + rewrite Hn, Hb. reflexivity.
Qed.

(** X22.  In the pass of the first oscillator the scratch block handed to
    the panner is mono: starting from the cleared block, every iteration
    adds the same sample to every channel, so all channels hold the same
    samples, [numSamples] of them. *)
Theorem first_pass_block_is_mono `{X : Collaborators} (V : Variables)
  (i : Z) (s : Synthesis) (numChannels numSamples : Z) (s' : Synthesis)
  (block' : AudioBuffer) (panValues' : list float) :
  foldM (processOscillatorSample V i) (intLoop 0 numSamples)
        (s, clearedBuffer numChannels numSamples, [])
  = Some (s', block', panValues') ->
  exists channel,
    channelData block' = repeat channel (Z.to_nat numChannels)
    /\ length channel = Z.to_nat numSamples.
Proof.
  intros E.
  destruct (sampleLoop_mono V i _ s (clearedBuffer numChannels numSamples)
              [] s' block' panValues'
              (repeat (Z2F 0) (Z.to_nat numSamples)) (Z.to_nat numChannels)
              eq_refl E) as (channel & Hc & Hlen & _).
  exists channel. split; [exact Hc|]. now rewrite Hlen, repeat_length.
Qed.

(** *** The further statements at concrete inputs *)

Lemma unit_grid (V : Variables) (grid : Grid) :
  (forall row column,
     getFade (grid row column) = Finite 0
     \/ getFade (grid row column) = Finite (1#2)
     \/ getFade (grid row column) = Finite 1) ->
  fadesInUnit V grid.
Proof.
  intros H row column _ _. unfold getCell.
  destruct (H row column) as [E|[E|E]]; rewrite E;
    vm_compute; split; discriminate.
Defined.

Lemma topLitGrid_in_unit (V : Variables) : fadesInUnit V topLitGrid.
Proof.
  apply unit_grid. intros row column. unfold topLitGrid.
  destruct (row <? 1); cbn [getFade]; tauto.
Defined.

Lemma bottomLitGrid_in_unit (V : Variables) : fadesInUnit V bottomLitGrid.
Proof.
  apply unit_grid. intros row column. unfold bottomLitGrid.
  destruct (row <? 1); cbn [getFade]; tauto.
Defined.

Lemma fullGrid_in_unit (V : Variables) : fadesInUnit V fullGrid.
Proof. apply unit_grid. intros row column. cbn. tauto. Defined.

Lemma reference_decay_keeps_unit :
  @decayKeepsUnit referenceCollaborators.
Proof.
  intros [q|]; [|intros []]. cbn [inRange fadeDecay referenceCollaborators].
  intros (H0 & H1). unfold fmul, fin, inRange. rewrite Qred_correct.
  split; lra.
Defined.

Lemma prepareToPlay_harmonic_series_witness :
  inharmonicity harmonicVariables = Z2F 1
  /\ exists s' o,
       prepareToPlay harmonicVariables
         (@construct referenceCollaborators harmonicVariables halfFadedGrid)
         (Finite 44100) 512 = Some s'
       /\ getAt (m_Oscillators s') 1 = Some o
       /\ Oscillator.getFrequency o = Z2F 200.
Proof.
  split; [reflexivity|].
  destruct (prepareToPlay_harmonic_series harmonicVariables
              (@construct referenceCollaborators harmonicVariables
                 halfFadedGrid)
              (Finite 44100) 512 100) as (s' & E & Hk).
  - apply construct_banks; cbn; lia.
  - cbn. lia.
  - reflexivity.
  - reflexivity.
  - lia.
  - cbn. lia.
  - destruct (Hk 1) as (o & Eo & Ho & _); [cbn; lia|].
    exists s', o. split; [exact E|]. split; [exact Eo|exact Ho].
Defined.

Lemma prepareToPlay_frequencies_grow_witness :
  hasValue (inharmonicity exampleVariables) (1#2)
  /\ exists s' o o' a b,
       prepareToPlay exampleVariables exampleSynthesis (Finite 44100) 512
       = Some s'
       /\ getAt (m_Oscillators s') 0 = Some o
       /\ getAt (m_Oscillators s') (0 + 1) = Some o'
       /\ hasValue (Oscillator.getFrequency o) a
       /\ hasValue (Oscillator.getFrequency o') b
       /\ (a < b)%Q.
Proof.
  split; [reflexivity|].
  destruct (prepareToPlay_frequencies_grow exampleVariables exampleSynthesis
              (Finite 44100) 512 100%Q (1#2)%Q) as (s' & E & Hk).
  - apply exampleSynthesis_banks.
  - cbn. lia.
  - reflexivity.
  - reflexivity.
  - reflexivity.
  - discriminate.
  - destruct (Hk 0) as (o & o' & a & b & Eo & Eo' & Ha & Hb & _ & _ & Hlt);
      [cbn; lia|].
    exists s', o, o', a, b. repeat split; try assumption.
    apply Hlt. reflexivity.
Defined.

Lemma prepareToPlay_postcondition_witness :
  banksAllocated exampleVariables exampleSynthesis
  /\ exists s',
       prepareToPlay exampleVariables exampleSynthesis (Finite 44100) 512
       = Some s'
       /\ getSampleRate s' = Finite 44100
       /\ getBlockSize s' = 512
       /\ coefficients (m_FilterLeft s')
          = Some (makeLowPass (Finite 44100) (Finite 1000)).
Proof.
  split; [apply exampleSynthesis_banks|].
  destruct (prepareToPlay_postcondition exampleVariables exampleSynthesis
              (Finite 44100) 512)
    as (s' & E & _ & _ & HL & _ & _ & _ & Hs & Hb & _).
  - apply exampleSynthesis_banks.
  - cbn. lia.
  - exists s'. repeat split; assumption.
Defined.

Lemma prepareToPlay_overrides_witness :
  prepareToPlay exampleVariables exampleSynthesis (Finite 44100) 512
  = Some preparedSynthesis
  /\ prepareToPlay exampleVariables preparedSynthesis (Finite 48000) 256
     = prepareToPlay exampleVariables exampleSynthesis (Finite 48000) 256.
Proof.
  split; [apply preparedSynthesis_eq|].
  apply (prepareToPlay_overrides exampleVariables exampleSynthesis
           preparedSynthesis (Finite 44100) (Finite 48000) 512 256).
  - apply exampleSynthesis_banks.
  - cbn. lia.
  - apply preparedSynthesis_eq.
Defined.

Lemma constructed_engine_runs_witness :
  exists s1 s2 out,
    prepareToPlay exampleVariables
      (@construct referenceCollaborators exampleVariables halfFadedGrid)
      (Finite 44100) 512 = Some s1
    /\ processBlock exampleVariables s1 exampleBuffer = Some (s2, out).
Proof.
  apply constructed_engine_runs.
  - cbn. lia.
  - cbn. lia.
  - intros _. reflexivity.
  - vm_compute. discriminate.
Defined.

Lemma modulatedFrequencyOf_bounds_witness :
  inRange (-1) 1 (Finite (1#2))
  /\ inRange ((4#5) * 100) ((6#5) * 100)
             (modulatedFrequencyOf (Finite 100) 0 (Finite (1#2))).
Proof.
  assert (Hm : inRange (-1) 1 (Finite (1#2)))
    by (vm_compute; split; discriminate).
  split; [exact Hm|].
  destruct (modulatedFrequencyOf_bounds (Finite 100) (Finite (1#2)) 0 100%Q)
    as (_ & H).
  - lia.
  - reflexivity.
  - reflexivity.
  - exact Hm.
  - exact H.
Defined.

Lemma getSpectralGainDecay_rolloff_witness :
  hasValue (startFrequency exampleVariables) 100
  /\ exists a b,
       hasValue (getSpectralGainDecay exampleVariables (Finite (1#2))
                   (Finite 100)) a
       /\ hasValue (getSpectralGainDecay exampleVariables (Finite (1#2))
                      (Finite 150)) b
       /\ (0 <= b)%Q /\ (b <= a)%Q.
Proof.
  split; [reflexivity|].
  apply (getSpectralGainDecay_rolloff exampleVariables (Finite (1#2))
           (1#2)%Q 100%Q (Finite 100) (Finite 150) 100%Q 150%Q);
    try reflexivity; discriminate.
Defined.

Lemma getOscillatorPan_even_rows_witness :
  (2 | numRows exampleVariables)
  /\ getOscillatorPan exampleVariables topLitGrid 0
     = Some (fdiv (panAccumulated exampleVariables topLitGrid [0; 1])
                  (Z2F 2))
  /\ inRange (-1) 1
       (fdiv (panAccumulated exampleVariables topLitGrid [0; 1]) (Z2F 2)).
Proof.
  assert (Heven : (2 | numRows exampleVariables)) by (exists 1; reflexivity).
  split; [exact Heven|].
  apply (getOscillatorPan_even_rows exampleVariables topLitGrid 0).
  - reflexivity.
  - exact Heven.
  - cbn. lia.
  - cbn. lia.
  - apply topLitGrid_in_unit.
Defined.

Lemma getOscillatorPan_extremes_witness :
  rowsFadesAre exampleVariables topLitGrid 0 0 1 1
  /\ rowsFadesAre exampleVariables bottomLitGrid 0 1 2 1
  /\ (exists pan,
        getOscillatorPan exampleVariables topLitGrid 0 = Some pan
        /\ hasValue pan (inject_Z (2 * 1) / inject_Z 2)%Q)
  /\ getOscillatorPan exampleVariables bottomLitGrid 0 = Some (Z2F (-1)).
Proof.
  assert (Hrows : forall (grid : Grid) lo hi (q : Q),
             (forall row column, lo <= row < hi ->
                hasValue (getFade (grid row column)) q) ->
             rowsFadesAre exampleVariables grid 0 lo hi q).
  { intros grid lo hi q H row column Hr _. now apply H. }
  assert (Ht1 : rowsFadesAre exampleVariables topLitGrid 0 0 1 1).
  { apply Hrows. intros row column Hr. unfold topLitGrid.
    destruct (Z.ltb_spec row 1); [reflexivity|lia]. }
  assert (Ht0 : rowsFadesAre exampleVariables topLitGrid 0 1 2 0).
  { apply Hrows. intros row column Hr. unfold topLitGrid.
    destruct (Z.ltb_spec row 1); [lia|reflexivity]. }
  assert (Hb0 : rowsFadesAre exampleVariables bottomLitGrid 0 0 1 0).
  { apply Hrows. intros row column Hr. unfold bottomLitGrid.
    destruct (Z.ltb_spec row 1); [reflexivity|lia]. }
  assert (Hb1 : rowsFadesAre exampleVariables bottomLitGrid 0 1 2 1).
  { apply Hrows. intros row column Hr. unfold bottomLitGrid.
    destruct (Z.ltb_spec row 1); [lia|reflexivity]. }
  split; [exact Ht1|]. split; [exact Hb1|]. split.
  - destruct (getOscillatorPan_extremes exampleVariables topLitGrid 0)
      as (Htop & _).
    + reflexivity.
    + cbn. lia.
    + cbn. lia.
    + apply topLitGrid_in_unit.
    + exact (Htop Ht1 Ht0).
  - destruct (getOscillatorPan_extremes exampleVariables bottomLitGrid 0)
      as (_ & Hbottom).
    + reflexivity.
    + cbn. lia.
    + cbn. lia.
    + apply bottomLitGrid_in_unit.
    + exact (Hbottom Hb0 Hb1).
Defined.

Lemma empty_block_gain_and_pan_witness :
  0 < numColumns crowdedVariables < numOscillators crowdedVariables
  /\ getOscillatorGain crowdedVariables fullGrid 3 = Some (Z2F 0)
  /\ getOscillatorPan crowdedVariables fullGrid 3 = Some NaN.
Proof.
  assert (H : 0 < numColumns crowdedVariables
              < numOscillators crowdedVariables) by (cbn; lia).
  split; [exact H|].
  apply empty_block_gain_and_pan; [reflexivity|exact H].
Defined.


Lemma gain_and_pan_read_own_block_witness :
  getFade (getCell halfFadedGrid 0 3) <> getFade (getCell patchedGrid 0 3)
  /\ getOscillatorGain exampleVariables halfFadedGrid 0
     = getOscillatorGain exampleVariables patchedGrid 0
  /\ getOscillatorPan exampleVariables halfFadedGrid 0
     = getOscillatorPan exampleVariables patchedGrid 0.
Proof.
  split; [vm_compute; discriminate|].
  apply gain_and_pan_read_own_block.
  intros row column _ Hv. apply visits_iff in Hv; [|reflexivity].
  cbn in Hv. unfold getCell, halfFadedGrid, patchedGrid.
  destruct (Z.ltb_spec column 2); [reflexivity|lia].
Defined.

Lemma processBlock_needs_two_channels_witness :
  getNumChannels monoBuffer < 2
  /\ processBlock exampleVariables preparedSynthesis monoBuffer = None.
Proof.
  split; [reflexivity|].
  apply processBlock_needs_two_channels; reflexivity.
Defined.

Lemma processBlock_ignores_input_witness :
  processBlock exampleVariables preparedSynthesis
    (mkAudioBuffer 1 [[Finite 1]; [Finite (-1)]])
  = processBlock exampleVariables preparedSynthesis exampleBuffer
  /\ exists s' out,
       processBlock exampleVariables preparedSynthesis exampleBuffer
       = Some (s', out)
       /\ getNumChannels out = 2
       /\ getNumSamples out = 1.
Proof.
  destruct (processBlock_ignores_input exampleVariables preparedSynthesis
              exampleBuffer) as (Hsame & Hshape).
  split.
  - apply Hsame; reflexivity.
  - destruct (processBlock_returns exampleVariables preparedSynthesis
                exampleBuffer) as (s' & out & E).
    + apply preparedSynthesis_banks.
    + intros _. reflexivity.
    + vm_compute. discriminate.
    + exists s', out. split; [exact E|]. exact (Hshape s' out E).
Defined.

Lemma processBlock_grid_witness :
  exists s' out,
    processBlock exampleVariables preparedSynthesis exampleBuffer
    = Some (s', out)
    /\ getCell (m_Grid s') 0 0
       = Nat.iter 1 (updateFade (@fadeDecay referenceCollaborators))
           (getCell (m_Grid preparedSynthesis) 0 0)
    /\ getCell (m_Grid s') 2 0 = getCell (m_Grid preparedSynthesis) 2 0.
Proof.
  destruct (processBlock_returns exampleVariables preparedSynthesis
              exampleBuffer) as (s' & out & E).
  - apply preparedSynthesis_banks.
  - intros _. reflexivity.
  - vm_compute. discriminate.
  - exists s', out. split; [exact E|].
    pose proof (processBlock_grid exampleVariables preparedSynthesis
                  exampleBuffer s' out ltac:(reflexivity)
                  ltac:(cbn; lia) E) as Hgrid.
    split.
    + exact (proj1 (Hgrid 0 0)).
    + exact (proj1 (Hgrid 2 0)).
Defined.

Lemma preparedSynthesis_grid_in_unit :
  fadesInUnit exampleVariables (m_Grid preparedSynthesis).
Proof.
  intros row column _ _. vm_compute. split; discriminate.
Defined.

Lemma processOscillator_banks_witness :
  exists s' block' lfo,
    processOscillator exampleVariables 2
      (preparedSynthesis, clearedBuffer 2 2) 1 = Some (s', block')
    /\ imod 1 (numLFOs exampleVariables) = Some 0
    /\ getAt (m_LFOs preparedSynthesis) 0 = Some lfo
    /\ getAt (m_LFOs s') 0
       = Some (Nat.iter 2 (@advance referenceCollaborators) lfo)
    /\ getAt (m_Oscillators s') 0 = getAt (m_Oscillators preparedSynthesis) 0.
Proof.
  destruct (processOscillator_returns exampleVariables 2 preparedSynthesis
              (clearedBuffer 2 2) 1) as ((s' & block') & E).
  - apply preparedSynthesis_banks.
  - cbn. lia.
  - cbn. lia.
  - destruct (getAt (m_LFOs preparedSynthesis) 0) as [lfo|] eqn:El;
      [|vm_compute in El; discriminate El].
    exists s', block', lfo.
    split; [exact E|]. split; [reflexivity|]. split; [reflexivity|].
    destruct (processOscillator_banks exampleVariables 2 preparedSynthesis
                (clearedBuffer 2 2) 1 s' block' 0 lfo E eq_refl El)
      as (Hl & _ & Ho).
    split; [exact Hl|]. apply Ho. discriminate.
Defined.

Lemma processOscillator_pan_values_witness :
  @decayKeepsUnit referenceCollaborators
  /\ fadesInUnit exampleVariables (m_Grid preparedSynthesis)
  /\ exists s' block' s1 block1 panValues,
       processOscillator exampleVariables 3
         (preparedSynthesis, clearedBuffer 2 3) 0 = Some (s', block')
       /\ foldM (processOscillatorSample exampleVariables 0) (intLoop 0 3)
            (preparedSynthesis, clearedBuffer 2 3, [])
          = Some (s1, block1, panValues)
       /\ Z.of_nat (length panValues) = 3
       /\ Forall (inRange (-1) 1) panValues
       /\ fadesInUnit exampleVariables (m_Grid s').
Proof.
  split; [apply reference_decay_keeps_unit|].
  split; [apply preparedSynthesis_grid_in_unit|].
  destruct (processOscillator_returns exampleVariables 3 preparedSynthesis
              (clearedBuffer 2 3) 0) as ((s' & block') & E).
  - apply preparedSynthesis_banks.
  - cbn. lia.
  - cbn. lia.
  - destruct (processOscillator_pan_values exampleVariables 3
                preparedSynthesis (clearedBuffer 2 3) 0 s' block')
      as (s1 & block1 & panValues & Ef & _ & Hlen & Hpans & Hgrid).
    + apply reference_decay_keeps_unit.
    + cbn. lia.
    + cbn. lia.
    + cbn. lia.
    + apply preparedSynthesis_grid_in_unit.
    + exact E.
    + exists s', block', s1, block1, panValues.
      split; [exact E|]. split; [exact Ef|]. split; [exact Hlen|].
      split; [exact Hpans|exact Hgrid].
Defined.

Lemma gainToApply_bounded_witness :
  fadesInUnit exampleVariables fullGrid
  /\ exists gain,
       gainToApply exampleVariables fullGrid 1 (Finite 80) = Some gain
       /\ inRange 0 (5#4) gain.
Proof.
  split; [apply fullGrid_in_unit|].
  apply (gainToApply_bounded exampleVariables fullGrid 1 (Finite 80)
           100%Q 80%Q).
  - cbn. lia.
  - cbn. lia.
  - cbn. lia.
  - apply fullGrid_in_unit.
  - reflexivity.
  - reflexivity.
  - reflexivity.
  - discriminate.
Defined.


Lemma processBlock_filter_modulator_witness :
  exists s' out,
    processBlock exampleVariables preparedSynthesis exampleBuffer
    = Some (s', out)
    /\ m_FilterModulator s'
       = @advance referenceCollaborators (m_FilterModulator preparedSynthesis)
    /\ getBlockSize s' = 512.
Proof.
  destruct (processBlock_returns exampleVariables preparedSynthesis
              exampleBuffer) as (s' & out & E).
  - apply preparedSynthesis_banks.
  - intros _. reflexivity.
  - vm_compute. discriminate.
  - exists s', out. split; [exact E|].
    destruct (processBlock_filter_modulator exampleVariables
                preparedSynthesis exampleBuffer s' out E)
      as (Hm & _ & Hb).
    split; [exact Hm|]. rewrite Hb. reflexivity.
Defined.

Lemma first_pass_block_is_mono_witness :
  exists s' block' panValues' channel,
    foldM (processOscillatorSample exampleVariables 0) (intLoop 0 3)
          (preparedSynthesis, clearedBuffer 2 3, [])
    = Some (s', block', panValues')
    /\ channelData block' = [channel; channel]
    /\ length channel = 3%nat.
Proof.
  destruct (foldM (processOscillatorSample exampleVariables 0) (intLoop 0 3)
              (preparedSynthesis, clearedBuffer 2 3, []))
    as [[[s' block'] panValues']|] eqn:E;
    [|vm_compute in E; discriminate E].
  destruct (first_pass_block_is_mono exampleVariables 0 preparedSynthesis
              2 3 s' block' panValues' E) as (channel & Hc & Hlen).
  exists s', block', panValues', channel.
  split; [reflexivity|]. split; [exact Hc|exact Hlen].
Defined.
